(** * Wallet risk scoring: a shallow embedding of [scripts/risk_utils.py]

    The five stages of the pipeline (loader, feature engine, base risk
    scorer, ML refiner, score combiner) are embedded as functions over a
    small model of pandas tables.

    Conventions of the embedding.
    - A Python float is a rational extended with [+inf], [-inf] and [NaN]
      (type [float]).  The operations of the first part are exact; the
      part on binary64 arithmetic rounds every result to the nearest
      double and embeds the scorer and the combiner a second time on top
      of it, for the statements about the values they return.  The sign of
      zero is not represented.
    - A Python exception is a value [Raise e] of the [result] type; every
      function that can raise returns a [result].
    - pandas reductions skip missing values ([skipna=True]), as in pandas.
    - scikit-learn estimators that are fitted with a random state
      (IsolationForest, KMeans) and the square root are parameters of the
      sections that use them. *)

From Stdlib Require Import List String ZArith QArith Qround Qminmax Qabs Qpower Lia Lqa Bool.
Import ListNotations.
Local Open Scope string_scope.
Local Open Scope Q_scope.

(** ** Python exceptions and the error monad *)

Inductive exn : Type :=
| KeyError (key : string)
| ValueError (msg : string)
| TypeError (msg : string)
| AttributeError (msg : string)
| IndexError (msg : string).

Inductive result (A : Type) : Type :=
| Ok (a : A)
| Raise (e : exn).
Arguments Ok {A} a.
Arguments Raise {A} e.

Definition bind {A B} (c : result A) (k : A -> result B) : result B :=
  match c with
  | Ok a => k a
  | Raise e => Raise e
  end.

Notation "x <- c ;; k" := (bind c (fun x => k))
  (at level 61, c at next level, right associativity).
Notation "' pat <- c ;; k" := (bind c (fun x => match x with pat => k end))
  (at level 61, pat pattern, c at next level, right associativity).

Fixpoint mapM {A B} (f : A -> result B) (l : list A) : result (list B) :=
  match l with
  | [] => Ok []
  | a :: l' => b <- f a ;; bs <- mapM f l' ;; Ok (b :: bs)
  end.

(** ** Floats: rationals extended with infinities and NaN *)

Inductive float : Type :=
| Fin (q : Q)
| PInf
| NInf
| NaN.

Definition isnan (x : float) : bool :=
  match x with NaN => true | _ => false end.

(** Sign of a finite value, used when an infinity is scaled. *)
Definition scale_inf (q : Q) (pos : bool) : float :=
  match q ?= 0 with
  | Eq => NaN
  | Gt => if pos then PInf else NInf
  | Lt => if pos then NInf else PInf
  end.

Definition fmul (x y : float) : float :=
  match x, y with
  | NaN, _ | _, NaN => NaN
  | Fin a, Fin b => Fin (a * b)
  | Fin a, PInf | PInf, Fin a => scale_inf a true
  | Fin a, NInf | NInf, Fin a => scale_inf a false
  | PInf, PInf | NInf, NInf => PInf
  | PInf, NInf | NInf, PInf => NInf
  end.

Definition fadd (x y : float) : float :=
  match x, y with
  | NaN, _ | _, NaN => NaN
  | Fin a, Fin b => Fin (a + b)
  | PInf, NInf | NInf, PInf => NaN
  | PInf, _ | _, PInf => PInf
  | NInf, _ | _, NInf => NInf
  end.

(** numpy float division: a zero divisor gives an infinity or NaN, it does
    not raise. *)
Definition fdiv (x y : float) : float :=
  match x, y with
  | NaN, _ | _, NaN => NaN
  | Fin a, Fin b =>
      if Qeq_bool b 0 then
        match a ?= 0 with Eq => NaN | Gt => PInf | Lt => NInf end
      else Fin (a / b)
  | Fin _, (PInf | NInf) => Fin 0
  | (PInf | NInf), (PInf | NInf) => NaN
  | PInf, Fin b => if Qle_bool 0 b then PInf else NInf
  | NInf, Fin b => if Qle_bool 0 b then NInf else PInf
  end.

(** [np.maximum] and [np.minimum] propagate NaN. *)
Definition np_maximum (x y : float) : float :=
  match x, y with
  | NaN, _ | _, NaN => NaN
  | PInf, _ | _, PInf => PInf
  | NInf, z | z, NInf => z
  | Fin a, Fin b => Fin (Qmax a b)
  end.

Definition np_minimum (x y : float) : float :=
  match x, y with
  | NaN, _ | _, NaN => NaN
  | NInf, _ | _, NInf => NInf
  | PInf, z | z, PInf => z
  | Fin a, Fin b => Fin (Qmin a b)
  end.

(** [x > y] on floats; any comparison with NaN is false. *)
Definition fgt (x y : float) : bool :=
  match x, y with
  | NaN, _ | _, NaN => false
  | Fin a, Fin b => negb (Qle_bool a b)
  | PInf, PInf => false
  | PInf, _ => true
  | _, PInf => false
  | NInf, _ => false
  | Fin _, NInf => true
  end.

(** Rounding to the nearest integer, ties to the even neighbour
    ([numpy.round] with zero decimals). *)
Definition round_half_even (q : Q) : Z :=
  let f := Qfloor q in
  match Qcompare (q - inject_Z f) (1 # 2) with
  | Lt => f
  | Gt => (f + 1)%Z
  | Eq => if Z.even f then f else (f + 1)%Z
  end.

Definition np_round (x : float) : float :=
  match x with
  | Fin q => Fin (inject_Z (round_half_even q))
  | other => other
  end.

(** [Series.astype(int)]: a non-finite entry raises; a finite one is
    truncated toward zero. *)
Definition astype_int (x : float) : result Z :=
  match x with
  | Fin q => Ok (Z.quot (Qnum q) (Zpos (Qden q)))
  | _ => Raise (ValueError "Cannot convert non-finite values (NA or inf) to integer")
  end.

(** ** Tables *)

(** A Python object held in a table cell or used as a key: a string, a
    number, or a point in time (seconds since the epoch). *)
Inductive scalar : Type :=
| SStr (s : string)
| SNum (x : float)
| STime (t : Q).

(** A column.  [NaN] in a numeric column and [None] in a datetime or
    object column mark a missing entry. *)
Inductive Series : Type :=
| Numeric (xs : list float)
| Boolean (bs : list bool)
| Integer (zs : list Z)
| Datetime (ts : list (option Q))
| Object (ss : list (option scalar)).

(** A [DataFrame] is its number of rows and its named columns, in order. *)
Record DataFrame : Type := mkDataFrame {
  index : nat;
  columns : list (string * Series)
}.

Definition column_names (df : DataFrame) : list string :=
  map fst (columns df).

Definition has_column (name : string) (df : DataFrame) : bool :=
  existsb (String.eqb name) (column_names df).

Fixpoint lookup {A} (name : string) (cols : list (string * A)) : option A :=
  match cols with
  | [] => None
  | (n, c) :: rest => if String.eqb name n then Some c else lookup name rest
  end.

(** [df[name]]: a missing column raises [KeyError]. *)
Definition getitem (df : DataFrame) (name : string) : result Series :=
  match lookup name (columns df) with
  | Some s => Ok s
  | None => Raise (KeyError name)
  end.

(** A column read as floats: booleans and integers are numbers; arithmetic
    on an object or datetime column is outside the model and raises. *)
Definition bool_to_float (b : bool) : float := if b then Fin 1 else Fin 0.

Definition to_floats (s : Series) : result (list float) :=
  match s with
  | Numeric xs => Ok xs
  | Boolean bs => Ok (map bool_to_float bs)
  | Integer zs => Ok (map (fun z => Fin (inject_Z z)) zs)
  | Datetime _ => Raise (TypeError "datetime column used as a number")
  | Object _ => Raise (ValueError "could not convert string to float")
  end.

(** A column used as a boolean mask. *)
Definition to_mask (s : Series) : result (list bool) :=
  match s with
  | Boolean bs => Ok bs
  | _ => Raise (KeyError "column is not a boolean mask")
  end.

(** Element-wise combination of aligned columns. *)
Fixpoint zip_with {A B C} (f : A -> B -> C) (l : list A) (m : list B) : list C :=
  match l, m with
  | a :: l', b :: m' => f a b :: zip_with f l' m'
  | _, _ => []
  end.

(** ** Score combiner: [calculate_final_risk_score] *)

(** [final_scores[df['is_anomaly']] *= 1.5] *)
Definition anomaly_boost (score : float) (is_anomaly : bool) : float :=
  if is_anomaly then fmul score (Fin (15 # 10)) else score.

Definition clamp_round (x : float) : float :=
  np_round (np_minimum (np_maximum x (Fin 0)) (Fin 1000)).

Definition calculate_final_risk_score (df : DataFrame) : result (list Z) :=
  base <- getitem df "base_risk_score" ;;
  final_scores <- to_floats base ;;
  anomaly <- getitem df "is_anomaly" ;;
  mask <- to_mask anomaly ;;
  let final_scores := zip_with anomaly_boost final_scores mask in
  adj <- getitem df "cluster_risk_adjustment" ;;
  adjs <- to_floats adj ;;
  let final_scores := zip_with fmul final_scores adjs in
  mapM (fun x => astype_int (clamp_round x)) final_scores.

(** ** Reductions that skip missing values *)

(** Values of a numeric column that are not NaN. *)
Definition dropna_floats (xs : list float) : list float :=
  filter (fun x => negb (isnan x)) xs.

Definition fsum (xs : list float) : float :=
  fold_left fadd xs (Fin 0).

(** [Series.sum()] *)
Definition series_sum (xs : list float) : float :=
  fsum (dropna_floats xs).

Definition of_nat (n : nat) : Q := inject_Z (Z.of_nat n).

(** [Series.mean()]: NaN when no value is present. *)
Definition series_mean (xs : list float) : float :=
  let present := dropna_floats xs in
  match present with
  | [] => NaN
  | _ => fdiv (fsum present) (Fin (of_nat (List.length present)))
  end.

(** [Series.max()]: NaN when no value is present. *)
Definition series_max (xs : list float) : float :=
  match dropna_floats xs with
  | [] => NaN
  | x :: rest => fold_left np_maximum rest x
  end.

(** The same reductions on columns whose entries are finite or missing. *)
Definition present (xs : list (option Q)) : list Q :=
  flat_map (fun x => match x with Some q => [q] | None => [] end) xs.

Definition Qsum (xs : list Q) : Q := fold_right Qplus 0 xs.

Definition nansum (xs : list (option Q)) : Q := Qsum (present xs).

Definition nanmean (xs : list (option Q)) : option Q :=
  match present xs with
  | [] => None
  | q :: rest => Some (Qsum (q :: rest) / of_nat (List.length (q :: rest)))
  end.

Definition nanmin (xs : list (option Q)) : option Q :=
  match present xs with
  | [] => None
  | q :: rest => Some (fold_left Qmin rest q)
  end.

Definition nanmax (xs : list (option Q)) : option Q :=
  match present xs with
  | [] => None
  | q :: rest => Some (fold_left Qmax rest q)
  end.

(** ** Base risk scorer: [calculate_advanced_risk_score] *)

(** [.replace([np.inf, -np.inf], 0)] *)
Definition replace_inf (x : float) : float :=
  match x with
  | PInf | NInf => Fin 0
  | other => other
  end.

(** scikit-learn validates its input: NaN is allowed, an infinity is not. *)
Definition check_finite (x : float) : result (option Q) :=
  match x with
  | Fin q => Ok (Some q)
  | NaN => Ok None
  | PInf | NInf => Raise (ValueError "Input contains infinity")
  end.

(** [MinMaxScaler] on one column, with the default feature range (0, 1):
    [scale_ = 1 / range] where a zero range counts as 1,
    [min_ = 0 - data_min * scale_], and the transform is [x * scale_ + min_]. *)
Definition minmax_column (xs : list (option Q)) : list (option Q) :=
  match nanmin xs, nanmax xs with
  | Some data_min, Some data_max =>
      let data_range := data_max - data_min in
      let scale_ := 1 / (if Qeq_bool data_range 0 then 1 else data_range) in
      let min_ := 0 - data_min * scale_ in
      map (option_map (fun x => x * scale_ + min_)) xs
  | _, _ => map (fun _ => None) xs
  end.

Definition Frame (A : Type) : Type := list (string * list A).

(** [MinMaxScaler().fit_transform(features)]: at least one row and one
    column are required. *)
Definition MinMaxScaler_fit_transform (n_samples : nat) (X : Frame float)
  : result (Frame (option Q)) :=
  X <- mapM (fun '(name, xs) => ys <- mapM check_finite xs ;; Ok (name, ys)) X ;;
  if Nat.eqb n_samples 0 then Raise (ValueError "Found array with 0 sample(s)")
  else match X with
       | [] => Raise (ValueError "Found array with 0 feature(s)")
       | _ => Ok (map (fun '(name, xs) => (name, minmax_column xs)) X)
       end.

(** [df[feature_cols].copy().replace([np.inf, -np.inf], 0)] where
    [feature_cols] are the columns other than ['wallet_id']. *)
Definition scorer_features (df : DataFrame) : result (Frame float) :=
  let feature_cols := filter (fun '(col, _) => negb (String.eqb col "wallet_id")) (columns df) in
  mapM (fun '(col, s) => xs <- to_floats s ;; Ok (col, map replace_inf xs)) feature_cols.

Definition features_scaled (df : DataFrame) : result (Frame (option Q)) :=
  features <- scorer_features df ;;
  MinMaxScaler_fit_transform (index df) features.

Definition risk_components : list (string * (list string * Q)) :=
  [ ("volume_risk",
      (["total_transactions"; "total_value_sent"; "max_transaction_value"], 20 # 100));
    ("behavioral_risk",
      (["send_receive_ratio"; "recipient_concentration"; "transaction_frequency"], 25 # 100));
    ("technical_risk",
      (["avg_gas_used"; "total_gas_cost"; "error_rate"], 20 # 100));
    ("temporal_risk",
      (["avg_time_between_txns_hr"], 15 # 100));
    ("diversity_risk",
      (["unique_recipients"; "unique_senders"; "unique_functions"; "contract_complexity"],
       20 # 100)) ].

Definition in_frame {A} (name : string) (fs : Frame A) : bool :=
  match lookup name fs with Some _ => true | None => false end.

(** The entry of column [name] in row [i]. *)
Definition cell (fs : Frame (option Q)) (name : string) (i : nat) : option Q :=
  match lookup name fs with
  | Some xs => nth i xs None
  | None => None
  end.

(** One entry of [risk_scores[component]]: the row mean of the available
    scaled features times the weight, or 0 when none is available. *)
Definition risk_score (fs : Frame (option Q)) (config : list string * Q) (i : nat)
  : option Q :=
  let available_features := filter (fun f => in_frame f fs) (fst config) in
  match available_features with
  | [] => Some 0
  | _ =>
      let component_score := nanmean (map (fun f => cell fs f i) available_features) in
      option_map (fun m => m * snd config) component_score
  end.

(** [risk_scores.sum(axis=1)] at row [i]. *)
Definition base_score (fs : Frame (option Q)) (i : nat) : Q :=
  nansum (map (fun '(_, config) => risk_score fs config i) risk_components).

(** [x > threshold] on a scaled entry; a missing entry compares false. *)
Definition exceeds (x : option Q) (threshold : Q) : bool :=
  match x with
  | Some v => negb (Qle_bool v threshold)
  | None => false
  end.

(** [if name in features_scaled: base_score[features_scaled[name] > threshold] *= factor] *)
Definition adjust (fs : Frame (option Q)) (name : string) (threshold factor : Q)
  (i : nat) (score : Q) : Q :=
  if in_frame name fs && exceeds (cell fs name i) threshold
  then score * factor else score.

Definition adjusted_score (fs : Frame (option Q)) (i : nat) : Q :=
  let s := base_score fs i in
  let s := adjust fs "error_rate" (1 # 10) (13 # 10) i s in
  let s := adjust fs "zero_value_ratio" (5 # 10) (12 # 10) i s in
  let s := adjust fs "transaction_frequency" (95 # 100) (14 # 10) i s in
  s.

Definition calculate_advanced_risk_score (df : DataFrame) : result (list Q) :=
  fs <- features_scaled df ;;
  Ok (map (fun i => Qmin (adjusted_score fs i * 1000) 1000) (seq 0 (index df))).

(** ** ML refiner: [apply_ml_refinements] *)

(** [df[name] = values]: replaces the column when it exists, appends it
    otherwise; the values must have one entry per row. *)
Fixpoint assign {A} (name : string) (s : A) (cols : list (string * A)) : list (string * A) :=
  match cols with
  | [] => [(name, s)]
  | (n, c) :: rest =>
      if String.eqb name n then (n, s) :: rest else (n, c) :: assign name s rest
  end.

Definition series_length (s : Series) : nat :=
  match s with
  | Numeric xs => List.length xs
  | Boolean bs => List.length bs
  | Integer zs => List.length zs
  | Datetime ts => List.length ts
  | Object ss => List.length ss
  end.

Definition setitem (df : DataFrame) (name : string) (s : Series) : result DataFrame :=
  if Nat.eqb (series_length s) (index df)
  then Ok (mkDataFrame (index df) (assign name s (columns df)))
  else Raise (ValueError "Length of values does not match length of index").

(** [.fillna(0).replace([np.inf, -np.inf], 0)] on one entry. *)
Definition fillna0_replace_inf (x : float) : Q :=
  match x with
  | Fin q => q
  | _ => 0
  end.

(** The entries of [xs] whose label is [k]: one group of [groupby]. *)
Definition group_values {A} (labels : list Z) (xs : list A) (k : Z) : list A :=
  flat_map (fun '(l, x) => if Z.eqb l k then [x] else []) (combine labels xs).

(** [df.groupby('cluster')['base_risk_score'].mean() / df['base_risk_score'].mean()]
    at the cluster label [k]. *)
Definition cluster_risk_adj (labels : list Z) (base : list float) (k : Z) : float :=
  fdiv (series_mean (group_values labels base k)) (series_mean base).

Section MLRefiner.

(** Square root on the floats of the model. *)
Variable sqrt : Q -> Q.

(** numpy random generators: [seed s] is [np.random.RandomState(s)]. *)
Variable RandomState : Type.
Variable seed : Z -> RandomState.

(** The fitting algorithms of scikit-learn, as functions of their
    configuration, of the generator they draw from and of the data
    (one list per column).  [isolation_forest contamination n_estimators]
    returns -1 for an outlier and 1 for an inlier; [kmeans n_clusters n_init]
    returns the cluster label of every row. *)
Variable isolation_forest : Q -> nat -> RandomState -> list (list Q) -> list Z.
Variable kmeans : nat -> nat -> RandomState -> list (list Q) -> list Z.

(** [sklearn.utils.check_random_state]: an integer seeds a fresh generator,
    [None] selects the global generator of numpy. *)
Definition check_random_state (random_state : option Z) (global : RandomState)
  : RandomState :=
  match random_state with
  | Some s => seed s
  | None => global
  end.

(** [StandardScaler] on one column: zero mean, unit (population) variance;
    a zero deviation counts as 1. *)
Definition standardize_column (xs : list Q) : list Q :=
  let n := of_nat (List.length xs) in
  let mean_ := Qsum xs / n in
  let var_ := Qsum (map (fun x => (x - mean_) * (x - mean_)) xs) / n in
  let scale_ := sqrt var_ in
  let scale_ := if Qeq_bool scale_ 0 then 1 else scale_ in
  map (fun x => (x - mean_) / scale_) xs.

Definition StandardScaler_fit_transform (n_samples : nat) (X : Frame Q)
  : result (list (list Q)) :=
  if Nat.eqb n_samples 0 then Raise (ValueError "Found array with 0 sample(s)")
  else match X with
       | [] => Raise (ValueError "Found array with 0 feature(s)")
       | _ => Ok (map (fun '(_, xs) => standardize_column xs) X)
       end.

Definition IsolationForest_fit_predict (contamination : Q) (random_state : option Z)
  (n_estimators : nat) (global : RandomState) (X : list (list Q)) : list Z :=
  isolation_forest contamination n_estimators (check_random_state random_state global) X.

Definition KMeans_fit_predict (n_clusters : nat) (random_state : option Z)
  (n_init : nat) (global : RandomState) (n_samples : nat) (X : list (list Q))
  : result (list Z) :=
  if Nat.ltb n_samples n_clusters
  then Raise (ValueError "n_samples should be >= n_clusters")
  else Ok (kmeans n_clusters n_init (check_random_state random_state global) X).

(** [global] is the state of numpy's global generator when the function
    is called. *)
Definition apply_ml_refinements (global : RandomState) (df : DataFrame)
  : result DataFrame :=
  let feature_cols_anomaly :=
    filter (fun '(col, _) =>
              negb (String.eqb col "wallet_id" || String.eqb col "base_risk_score"))
           (columns df) in
  X <- mapM (fun '(col, s) => xs <- to_floats s ;; Ok (col, map fillna0_replace_inf xs))
            feature_cols_anomaly ;;
  X_scaled <- StandardScaler_fit_transform (index df) X ;;
  let predictions :=
    IsolationForest_fit_predict (5 # 100) (Some 42%Z) 100 global X_scaled in
  df <- setitem df "is_anomaly" (Boolean (map (fun p => Z.eqb p (-1)) predictions)) ;;
  labels <- KMeans_fit_predict 5 (Some 42%Z) 10 global (index df) X_scaled ;;
  df <- setitem df "cluster" (Integer labels) ;;
  base <- getitem df "base_risk_score" ;;
  base <- to_floats base ;;
  setitem df "cluster_risk_adjustment" (Numeric (map (cluster_risk_adj labels base) labels)).

End MLRefiner.

(** ** Generic column operations used by the loader and the feature engine *)

Definition float_eqb (x y : float) : bool :=
  match x, y with
  | Fin a, Fin b => Qeq_bool a b
  | PInf, PInf | NInf, NInf => true
  | _, _ => false
  end.

Definition scalar_eqb (a b : scalar) : bool :=
  match a, b with
  | SStr s, SStr t => String.eqb s t
  | SNum x, SNum y => float_eqb x y
  | STime s, STime t => Qeq_bool s t
  | _, _ => false
  end.

Definition float_value (x : float) : option scalar :=
  match x with
  | NaN => None
  | other => Some (SNum other)
  end.

(** The entries of a column as Python objects, [None] for a missing one. *)
Definition values (s : Series) : list (option scalar) :=
  match s with
  | Numeric xs => map float_value xs
  | Boolean bs => map (fun b => float_value (bool_to_float b)) bs
  | Integer zs => map (fun z => Some (SNum (Fin (inject_Z z)))) zs
  | Datetime ts => map (option_map STime) ts
  | Object ss => ss
  end.

Definition notna {A} (x : option A) : bool :=
  match x with Some _ => true | None => false end.

(** [series == key], entry by entry; a missing entry compares false. *)
Definition eq_mask (s : Series) (key : scalar) : list bool :=
  map (fun v => match v with Some x => scalar_eqb x key | None => false end) (values s).

(** Rows selected by a boolean mask. *)
Fixpoint select {A} (mask : list bool) (xs : list A) : list A :=
  match mask, xs with
  | b :: mask', x :: xs' => if b then x :: select mask' xs' else select mask' xs'
  | _, _ => []
  end.

Definition select_series (mask : list bool) (s : Series) : Series :=
  match s with
  | Numeric xs => Numeric (select mask xs)
  | Boolean bs => Boolean (select mask bs)
  | Integer zs => Integer (select mask zs)
  | Datetime ts => Datetime (select mask ts)
  | Object ss => Object (select mask ss)
  end.

(** [df[mask]]: the mask has one entry per row of [df]. *)
Definition select_rows (mask : list bool) (df : DataFrame) : DataFrame :=
  let mask := firstn (index df) mask in
  mkDataFrame (List.length (select mask (seq 0 (index df))))
              (map (fun '(name, s) => (name, select_series mask s)) (columns df)).

(** [pd.DataFrame()]: no rows, no columns. *)
Definition empty_frame : DataFrame := mkDataFrame 0 [].

(** Distinct values in order of first occurrence. *)
Fixpoint unique (l : list scalar) : list scalar :=
  match l with
  | [] => []
  | x :: rest => x :: filter (fun y => negb (scalar_eqb y x)) (unique rest)
  end.

Definition dropna (l : list (option scalar)) : list scalar :=
  flat_map (fun x => match x with Some v => [v] | None => [] end) l.

(** [Series.nunique()] *)
Definition nunique (s : Series) : nat :=
  List.length (unique (dropna (values s))).

Definition count_of (x : scalar) (l : list scalar) : nat :=
  List.length (filter (scalar_eqb x) l).

(** [Series.value_counts(normalize=True).iloc[0]]: the share of the most
    frequent value among the present ones; with no value present the
    positional access raises. *)
Definition top_share (s : Series) : result Q :=
  let vs := dropna (values s) in
  match unique vs with
  | [] => Raise (IndexError "single positional indexer is out-of-bounds")
  | keys =>
      let top := fold_right Nat.max 0%nat (map (fun k => count_of k vs) keys) in
      Ok (of_nat top / of_nat (List.length vs))
  end.

(** ** Feature engine: [create_advanced_wallet_features] *)

(** The dictionary [features] built for one wallet. *)
Record features : Type := mkFeatures {
  wallet_id : scalar;
  total_transactions : nat;
  sent_transactions : nat;
  received_transactions : nat;
  send_receive_ratio : Q;
  total_value_sent : float;
  total_value_received : float;
  avg_transaction_value : float;
  max_transaction_value : float;
  value_std : float;
  zero_value_ratio : float;
  avg_gas_used : float;
  total_gas_cost : float;
  error_rate : float;
  avg_time_between_txns_hr : float;
  activity_span_days : float;
  transaction_frequency : float;
  unique_recipients : nat;
  unique_senders : nat;
  recipient_concentration : Q;
  unique_functions : nat;
  contract_complexity : Q
}.

(** [len(df)] *)
Definition len (df : DataFrame) : nat := index df.

(** [df[name]] read as numbers. *)
Definition numbers (df : DataFrame) (name : string) : result (list float) :=
  s <- getitem df name ;; to_floats s.

(** The finite values of a list, when all of them are finite. *)
Fixpoint all_finite (xs : list float) : option (list Q) :=
  match xs with
  | [] => Some []
  | Fin q :: rest => option_map (cons q) (all_finite rest)
  | _ :: _ => None
  end.

Fixpoint insert_sorted (x : Q) (l : list Q) : list Q :=
  match l with
  | [] => [x]
  | y :: rest => if Qle_bool x y then x :: l else y :: insert_sorted x rest
  end.

Definition sort_values (l : list Q) : list Q := fold_right insert_sorted [] l.

(** [Series.diff()] without its first, missing entry. *)
Fixpoint diff (l : list Q) : list Q :=
  match l with
  | a :: (b :: _) as rest => (b - a) :: diff rest
  | _ => []
  end.

(** The column of wallet identifiers: ['wallet_address'] when the column
    exists and has a value, ['from'] otherwise. *)
Definition wallet_column (df : DataFrame) : string :=
  match lookup "wallet_address" (columns df) with
  | Some s => if existsb notna (values s) then "wallet_address" else "from"
  | None => "from"
  end.

Section FeatureEngine.

Variable sqrt : Q -> Q.

(** [Series.std()]: the sample deviation (one degree of freedom removed)
    of the present values; NaN with fewer than two of them, or with an
    infinity among them. *)
Definition series_std (xs : list float) : float :=
  match all_finite (dropna_floats xs) with
  | Some qs =>
      if Nat.leb (List.length qs) 1 then NaN
      else
        let n := of_nat (List.length qs) in
        let mean := Qsum qs / n in
        Fin (sqrt (Qsum (map (fun x => (x - mean) * (x - mean)) qs) / (n - 1)))
  | None => NaN
  end.

(** Lines 63-68: the value features. *)
Definition value_features (wallet_txns sent_txns received_txns : DataFrame)
  : result (float * float * float * float * float * float) :=
  sent_value <- numbers sent_txns "value" ;;
  received_value <- numbers received_txns "value" ;;
  value <- numbers wallet_txns "value" ;;
  Ok (series_sum sent_value,
      series_sum received_value,
      series_mean value,
      series_max value,
      series_std value,
      series_mean (map (fun v => bool_to_float (float_eqb v (Fin 0))) value)).

(** Lines 69-75: the gas features. *)
Definition gas_features (wallet_txns : DataFrame) : result (float * float * float) :=
  if has_column "gasUsed" wallet_txns && has_column "gasPrice" wallet_txns then
    gasUsed <- numbers wallet_txns "gasUsed" ;;
    gasPrice <- numbers wallet_txns "gasPrice" ;;
    let gas_costs := zip_with fmul gasUsed gasPrice in
    error_rate <-
      (if has_column "isError" wallet_txns
       then isError <- numbers wallet_txns "isError" ;; Ok (series_mean isError)
       else Ok (Fin 0)) ;;
    Ok (series_mean gasUsed, series_sum gas_costs, error_rate)
  else Ok (Fin 0, Fin 0, Fin 0).

(** [df['timeStamp']] as points in time; the [.dt] accessor needs a
    datetime column. *)
Definition timestamps (df : DataFrame) : result (list (option Q)) :=
  s <- getitem df "timeStamp" ;;
  match s with
  | Datetime ts => Ok ts
  | _ => Raise (AttributeError "Can only use .dt accessor with datetimelike values")
  end.

(** Python's [max(activity_span_days, 1)]; the day count of a missing
    span is NaN, and [max(nan, 1)] is NaN. *)
Definition span_days (ts : list (option Q)) : float :=
  match nanmax ts, nanmin ts with
  | Some last, Some first =>
      Fin (inject_Z (Z.max (Qfloor ((last - first) / 86400)) 1))
  | _, _ => NaN
  end.

(** Lines 76-86: the temporal features. *)
Definition temporal_features (wallet_txns : DataFrame) : result (float * float * float) :=
  if Nat.ltb 1 (len wallet_txns) then
    ts <- timestamps wallet_txns ;;
    let time_sorted := sort_values (present ts) in
    let time_diffs := diff time_sorted in
    let activity_span_days := span_days ts in
    Ok (fdiv (series_mean (map Fin time_diffs)) (Fin 3600),
        activity_span_days,
        fdiv (Fin (of_nat (len wallet_txns))) activity_span_days)
  else Ok (Fin 0, Fin 1, Fin 1).

(** Lines 87-88: distinct counterparties. *)
Definition nunique_if_any (txns : DataFrame) (name : string) : result nat :=
  if Nat.ltb 0 (len txns)
  then s <- getitem txns name ;; Ok (nunique s)
  else Ok 0%nat.

(** Lines 90-99: the function-name features. *)
Definition function_features (wallet_txns : DataFrame) : result (nat * Q) :=
  if has_column "functionName" wallet_txns then
    s <- getitem wallet_txns "functionName" ;;
    if Nat.eqb (series_length s) 0 then Ok (nunique s, 0)
    else
      dominant_func_ratio <- top_share s ;;
      Ok (nunique s, 1 - dominant_func_ratio)
  else Ok (0%nat, 0).

(** The body of the loop for one wallet; [None] is the [continue] of
    line 56. *)
Definition wallet_features (df : DataFrame) (wallet_col : string) (wallet : scalar)
  : result (option features) :=
  key <- getitem df wallet_col ;;
  let wallet_txns := select_rows (eq_mask key wallet) df in
  sent_txns <-
    (if has_column "from" wallet_txns
     then from <- getitem wallet_txns "from" ;;
          Ok (select_rows (eq_mask from wallet) wallet_txns)
     else Ok empty_frame) ;;
  received_txns <-
    (if has_column "to" df
     then to <- getitem df "to" ;; Ok (select_rows (eq_mask to wallet) df)
     else Ok empty_frame) ;;
  if Nat.eqb (len wallet_txns) 0 then Ok None
  else
    '(value_sent, value_received, avg_value, max_value, std_value, zero_ratio) <-
      value_features wallet_txns sent_txns received_txns ;;
    '(avg_gas, gas_cost, errors) <- gas_features wallet_txns ;;
    '(avg_time, span, frequency) <- temporal_features wallet_txns ;;
    recipients <- nunique_if_any sent_txns "to" ;;
    senders <- nunique_if_any received_txns "from" ;;
    '(functions, complexity) <- function_features wallet_txns ;;
    Ok (Some {|
      wallet_id := wallet;
      total_transactions := len wallet_txns;
      sent_transactions := len sent_txns;
      received_transactions := len received_txns;
      send_receive_ratio := of_nat (len sent_txns) / of_nat (Nat.max (len received_txns) 1);
      total_value_sent := value_sent;
      total_value_received := value_received;
      avg_transaction_value := avg_value;
      max_transaction_value := max_value;
      value_std := std_value;
      zero_value_ratio := zero_ratio;
      avg_gas_used := avg_gas;
      total_gas_cost := gas_cost;
      error_rate := errors;
      avg_time_between_txns_hr := avg_time;
      activity_span_days := span;
      transaction_frequency := frequency;
      unique_recipients := recipients;
      unique_senders := senders;
      recipient_concentration := of_nat (len sent_txns) / of_nat (Nat.max recipients 1);
      unique_functions := functions;
      contract_complexity := complexity
    |}).

(** The loop of lines 49-100: [wallet_features_list] when it ends. *)
Definition wallet_features_list (df : DataFrame) : result (list features) :=
  let wallet_col := wallet_column df in
  key <- getitem df wallet_col ;;
  let all_wallets := unique (dropna (values key)) in
  rows <- mapM (wallet_features df wallet_col) all_wallets ;;
  Ok (flat_map (fun r => match r with Some f => [f] | None => [] end) rows).

End FeatureEngine.

(** [pd.DataFrame(wallet_features_list)]: one column per key of the
    dictionaries, one row per wallet; no column at all for an empty list. *)
Definition count_column (f : features -> nat) (l : list features) : Series :=
  Integer (map (fun r => Z.of_nat (f r)) l).

Definition ratio_column (f : features -> Q) (l : list features) : Series :=
  Numeric (map (fun r => Fin (f r)) l).

Definition float_column (f : features -> float) (l : list features) : Series :=
  Numeric (map f l).

Definition DataFrame_of_records (l : list features) : DataFrame :=
  match l with
  | [] => empty_frame
  | _ =>
      mkDataFrame (List.length l)
        [ ("wallet_id", Object (map (fun r => Some (wallet_id r)) l));
          ("total_transactions", count_column total_transactions l);
          ("sent_transactions", count_column sent_transactions l);
          ("received_transactions", count_column received_transactions l);
          ("send_receive_ratio", ratio_column send_receive_ratio l);
          ("total_value_sent", float_column total_value_sent l);
          ("total_value_received", float_column total_value_received l);
          ("avg_transaction_value", float_column avg_transaction_value l);
          ("max_transaction_value", float_column max_transaction_value l);
          ("value_std", float_column value_std l);
          ("zero_value_ratio", float_column zero_value_ratio l);
          ("avg_gas_used", float_column avg_gas_used l);
          ("total_gas_cost", float_column total_gas_cost l);
          ("error_rate", float_column error_rate l);
          ("avg_time_between_txns_hr", float_column avg_time_between_txns_hr l);
          ("activity_span_days", float_column activity_span_days l);
          ("transaction_frequency", float_column transaction_frequency l);
          ("unique_recipients", count_column unique_recipients l);
          ("unique_senders", count_column unique_senders l);
          ("recipient_concentration", ratio_column recipient_concentration l);
          ("unique_functions", count_column unique_functions l);
          ("contract_complexity", ratio_column contract_complexity l) ]
  end.

Definition create_advanced_wallet_features (sqrt : Q -> Q) (df : DataFrame)
  : result DataFrame :=
  l <- wallet_features_list sqrt df ;;
  Ok (DataFrame_of_records l).

(** ** Data loader: [load_and_preprocess_data] *)

Definition relevant_columns : list string :=
  [ "from"; "to"; "value"; "gas"; "gasPrice"; "gasUsed";
    "timeStamp"; "isError"; "txreceipt_status"; "functionName";
    "wallet_address"; "protocol_version"; "methodId"; "blockNumber" ].

(** [df[names]] for names that are all columns of [df]. *)
Definition select_columns (names : list string) (df : DataFrame) : DataFrame :=
  mkDataFrame (index df)
    (flat_map (fun name => match lookup name (columns df) with
                           | Some s => [(name, s)]
                           | None => []
                           end) names).

(** [Series.fillna(text)]: a column with a missing entry becomes an object
    column in which the text replaces every missing entry. *)
Definition fillna (text : string) (s : Series) : Series :=
  let vs := values s in
  if forallb notna vs then s
  else Object (map (fun v => match v with Some x => Some x | None => Some (SStr text) end) vs).

(** [df.dropna(subset=[name])] *)
Definition dropna_subset (name : string) (df : DataFrame) : result DataFrame :=
  s <- getitem df name ;;
  Ok (select_rows (map notna (values s)) df).

(** [df[name] = f(df[name])] for a column that exists. *)
Definition update_column (name : string) (f : Series -> result Series) (df : DataFrame)
  : result DataFrame :=
  s <- getitem df name ;;
  s' <- f s ;;
  Ok (mkDataFrame (index df) (assign name s' (columns df))).

Definition when_column (name : string) (f : Series -> result Series) (df : DataFrame)
  : result DataFrame :=
  if has_column name df then update_column name f df else Ok df.

Section Loader.

(** [pd.read_csv]: the table stored at a path, [None] when there is no
    such file. *)
Variable read_csv : string -> option DataFrame.

(** The number a text denotes for pandas, if it denotes one. *)
Variable parse_float : string -> option float.

(** [pd.to_numeric(series, errors='coerce')] *)
Definition coerce_numeric (v : option scalar) : float :=
  match v with
  | Some (SNum x) => x
  | Some (SStr s) => match parse_float s with Some x => x | None => NaN end
  | Some (STime _) | None => NaN
  end.

Definition to_numeric (s : Series) : result Series :=
  Ok (Numeric (map coerce_numeric (values s))).

(** [pd.to_datetime(series, unit='s')]: a number is a count of seconds
    since the epoch, a missing entry stays missing, anything else raises.
    The finite range of pandas timestamps is not modelled. *)
Definition seconds_to_datetime (x : float) : result (option Q) :=
  match x with
  | Fin q => Ok (Some q)
  | NaN => Ok None
  | PInf | NInf => Raise (ValueError "cannot convert input with unit 's'")
  end.

Definition convert_datetime (v : option scalar) : result (option Q) :=
  match v with
  | None => Ok None
  | Some (SNum x) => seconds_to_datetime x
  | Some (STime t) => Ok (Some t)
  | Some (SStr s) =>
      match parse_float s with
      | Some x => seconds_to_datetime x
      | None => Raise (ValueError "non convertible value with the unit 's'")
      end
  end.

Definition to_datetime (s : Series) : result Series :=
  match s with
  | Boolean _ => Raise (TypeError "bool is not convertible to datetime")
  | _ => ts <- mapM convert_datetime (values s) ;; Ok (Datetime ts)
  end.

Definition fill_with (text : string) (s : Series) : result Series :=
  Ok (fillna text s).

Definition load_and_preprocess_data (filepath : string) : result DataFrame :=
  match read_csv filepath with
  | None => Ok empty_frame
  | Some df =>
      let existing_columns :=
        filter (fun col => has_column col df) relevant_columns in
      let df_clean := select_columns existing_columns df in
      df_clean <- when_column "timeStamp" to_datetime df_clean ;;
      df_clean <- when_column "value" to_numeric df_clean ;;
      df_clean <- when_column "functionName" (fill_with "unknown") df_clean ;;
      df_clean <- when_column "protocol_version" (fill_with "unknown") df_clean ;;
      df_clean <- when_column "methodId" (fill_with "0x00000000") df_clean ;;
      df_clean <- when_column "gas" to_numeric df_clean ;;
      df_clean <- when_column "gasPrice" to_numeric df_clean ;;
      df_clean <- when_column "gasUsed" to_numeric df_clean ;;
      df_clean <- when_column "blockNumber" to_numeric df_clean ;;
      dropna_subset "value" df_clean
  end.

End Loader.

(** ** Statements of the score combiner, in the words of the specification *)

Definition clamp (lo hi x : Q) : Q := Qmin (Qmax x lo) hi.

(** [base * (1.5 if anomaly else 1) * clusterAdj], clamped to [0, 1000]
    once, then rounded. *)
Definition spec_final_value (base : Q) (anomaly : bool) (adj : Q) : Q :=
  clamp 0 1000 (base * (if anomaly then 15 # 10 else 1) * adj).

Definition spec_final_score (base : Q) (anomaly : bool) (adj : Q) : Z :=
  round_half_even (spec_final_value base anomaly adj).


(** ** Statements of the base risk scorer *)


(** The multiplier one boost rule gives row [i]. *)
Definition boost (fs : Frame (option Q)) (name : string) (threshold factor : Q) (i : nat)
  : Q :=
  if in_frame name fs && exceeds (cell fs name i) threshold then factor else 1.

Definition error_boost fs i := boost fs "error_rate" (1 # 10) (13 # 10) i.
Definition zero_value_boost fs i := boost fs "zero_value_ratio" (5 # 10) (12 # 10) i.
Definition frequency_boost fs i := boost fs "transaction_frequency" (95 # 100) (14 # 10) i.

(** The columns the score is computed from. *)
Definition scored_columns : list string :=
  flat_map (fun c => fst (snd c)) risk_components ++ ["zero_value_ratio"].

(** A column scikit-learn accepts as numbers. *)
Definition is_numeric (s : Series) : bool :=
  match s with
  | Numeric _ | Boolean _ | Integer _ => true
  | Datetime _ | Object _ => false
  end.

(** A wallet feature table: every column except the identifier is numeric. *)
Definition feature_table (df : DataFrame) : bool :=
  forallb (fun '(col, s) => String.eqb col "wallet_id" || is_numeric s) (columns df).

(** An entry of a scaled column: missing, or between 0 and 1. *)
Definition unit_entry (x : option Q) : Prop :=
  match x with
  | Some v => 0 <= v <= 1
  | None => True
  end.

Definition scaled_frame (fs : Frame (option Q)) : Prop :=
  Forall (fun c => Forall unit_entry (snd c)) fs.

(** The numbers of a numeric column (nothing for the other columns). *)
Definition floats_of (s : Series) : list float :=
  match to_floats s with
  | Ok xs => xs
  | Raise _ => []
  end.

(** An entry as the scaler sees it, once the infinities are replaced. *)
Definition finite_entry (x : float) : option Q :=
  match replace_inf x with
  | Fin q => Some q
  | _ => None
  end.

(** The scaled column computed from one feature column. *)
Definition scaled_of (s : Series) : list (option Q) :=
  minmax_column (map finite_entry (floats_of s)).

Definition feature_columns (df : DataFrame) : list (string * Series) :=
  filter (fun '(col, _) => negb (String.eqb col "wallet_id")) (columns df).

(** ** Statements of the ML refiner *)

(** The mean of a list of finite numbers. *)
Definition Qmean (l : list Q) : Q := Qsum l / of_nat (List.length l).


(** A population of five wallets, one feature, and the base scores the
    scorer gives it (0, 50, 100, 150, 200). *)
Definition example_features : DataFrame :=
  mkDataFrame 5
    [ ("wallet_id",
        Object [Some (SStr "0xa1"); Some (SStr "0xb2"); Some (SStr "0xc3");
                Some (SStr "0xd4"); Some (SStr "0xe5")]);
      ("total_transactions", Integer [1; 2; 3; 4; 5]%Z) ].

Definition example_population : DataFrame :=
  mkDataFrame 5
    (columns example_features
     ++ [("base_risk_score", Numeric [Fin 0; Fin 50; Fin 100; Fin 150; Fin 200])]).

(** Stand-ins for the estimators on that population: five distinct points
    and five clusters leave every point in a cluster of its own; no point
    is flagged. *)
Definition rows_of_matrix (X : list (list Q)) : nat :=
  match X with
  | column :: _ => List.length column
  | [] => 0%nat
  end.

Definition singleton_clusters (n_clusters n_init : nat) (rng : unit) (X : list (list Q))
  : list Z :=
  map Z.of_nat (seq 0 (rows_of_matrix X)).

Definition no_outliers (contamination : Q) (n_estimators : nat) (rng : unit)
  (X : list (list Q)) : list Z :=
  repeat 1%Z (rows_of_matrix X).

(** A stand-in for the square root, exact on 0 and 1. *)
Definition sqrt_stand_in (q : Q) : Q := q.

Definition example_refined : result DataFrame :=
  apply_ml_refinements sqrt_stand_in unit (fun _ => tt) no_outliers singleton_clusters
    tt example_population.

(** ** Statements of the feature engine *)

(** The rows of the whole table whose entry in column [name] is [key]. *)
Definition rows_where (df : DataFrame) (name : string) (key : scalar) : list nat :=
  filter (fun i =>
            match lookup name (columns df) with
            | Some s => match nth i (values s) None with
                        | Some v => scalar_eqb v key
                        | None => false
                        end
            | None => false
            end)
         (seq 0 (index df)).



(** A cleaned table of four transactions: wallet [0xa1] sends twice,
    wallets [0xb2] and [0xc3] once each. *)
Definition addr (s : string) : option scalar := Some (SStr s).

Definition example_transactions : DataFrame :=
  mkDataFrame 4
    [ ("from", Object [addr "0xa1"; addr "0xa1"; addr "0xb2"; addr "0xc3"]);
      ("to", Object [addr "0xb2"; addr "0xc3"; addr "0xa1"; addr "0xb2"]);
      ("value", Numeric [Fin 0; Fin 10; Fin 5; Fin 7]);
      ("timeStamp", Datetime [Some 0; Some 200000; Some 5; Some 9]);
      ("functionName", Object [addr "mint"; addr "redeem"; addr "mint"; addr "unknown"]) ].

(** ** Statements of the loader *)

(** A raw table with no [value] column, and the file system that holds it. *)
Definition example_no_value : DataFrame :=
  mkDataFrame 2
    [ ("from", Object [addr "0xa1"; addr "0xb2"]);
      ("to", Object [addr "0xb2"; addr "0xa1"]);
      ("timeStamp", Integer [1600000000; 1600000100]%Z);
      ("gasUsed", Integer [21000; 52000]%Z) ].

Definition example_files (path : string) : option DataFrame :=
  if String.eqb path "data/transactions.csv" then Some example_no_value else None.

(** A parser that reads no text as a number: enough for tables whose
    numeric columns are already numbers. *)
Definition parse_nothing (text : string) : option float := None.

(** ** Example tables *)

(** Three scored wallets: the second is anomalous, the first sits in a
    cluster that halves its score. *)
Definition example_scored : DataFrame :=
  mkDataFrame 3
    [ ("base_risk_score", Numeric [Fin 100; Fin 900; Fin (5 # 2)]);
      ("is_anomaly", Boolean [false; true; false]);
      ("cluster_risk_adjustment", Numeric [Fin (1 # 2); Fin 1; Fin 1]) ].

(** Three wallets; the second exceeds both the error-rate and the
    zero-value thresholds after scaling. *)
Definition example_boosted : DataFrame :=
  mkDataFrame 3
    [ ("wallet_id", Object [addr "0xa1"; addr "0xb2"; addr "0xc3"]);
      ("total_transactions", Integer [2; 1; 1]%Z);
      ("error_rate", Numeric [Fin 0; Fin 1; Fin (1 # 2)]);
      ("zero_value_ratio", Numeric [Fin 0; Fin 1; NaN]);
      ("value_std", Numeric [Fin 3; NaN; PInf]) ].

(** The same three wallets with other values in [value_std], a column the
    score does not read. *)
Definition example_boosted_variant : DataFrame :=
  mkDataFrame 3
    [ ("wallet_id", Object [addr "0xa1"; addr "0xb2"; addr "0xc3"]);
      ("total_transactions", Integer [2; 1; 1]%Z);
      ("error_rate", Numeric [Fin 0; Fin 1; Fin (1 # 2)]);
      ("zero_value_ratio", Numeric [Fin 0; Fin 1; NaN]);
      ("value_std", Numeric [Fin 40; Fin 17; Fin 0]) ].

(** Transactions tagged with the wallet they were collected for: the
    transaction that pays [0xa1] is tagged [0xb2]. *)
Definition example_tagged : DataFrame :=
  mkDataFrame 2
    [ ("from", Object [addr "0xa1"; addr "0xb2"]);
      ("to", Object [addr "0xc0"; addr "0xa1"]);
      ("value", Numeric [Fin 3; Fin 4]);
      ("wallet_address", Object [addr "0xa1"; addr "0xb2"]) ].

Definition frame_or_empty (r : result DataFrame) : DataFrame :=
  match r with
  | Ok df => df
  | Raise _ => empty_frame
  end.

Definition example_tagged_features : DataFrame :=
  Eval vm_compute in
    frame_or_empty (create_advanced_wallet_features sqrt_stand_in example_tagged).

Definition example_transactions_features : DataFrame :=
  Eval vm_compute in
    frame_or_empty (create_advanced_wallet_features sqrt_stand_in example_transactions).

Definition example_refined_frame : DataFrame :=
  Eval vm_compute in frame_or_empty example_refined.

(** ** Cleaned tables *)

Definition is_datetime (s : Series) : bool :=
  match s with Datetime _ => true | _ => false end.

Definition no_missing (s : Series) : bool := forallb notna (values s).

(** Column [name] exists and satisfies [ok]. *)
Definition column_is (name : string) (ok : Series -> bool) (df : DataFrame) : bool :=
  match lookup name (columns df) with
  | Some s => ok s
  | None => false
  end.

(** Column [name] satisfies [ok] if it exists. *)
Definition column_if_any (name : string) (ok : Series -> bool) (df : DataFrame) : bool :=
  match lookup name (columns df) with
  | Some s => ok s
  | None => true
  end.

(** What the feature engine needs of a cleaned transaction table: the
    addresses, a numeric value, a datetime timestamp; numeric gas and error
    columns and function names without a missing entry, when present. *)
Definition cleaned_table (df : DataFrame) : bool :=
  column_is "from" (fun _ => true) df
  && column_is "to" (fun _ => true) df
  && column_is "value" is_numeric df
  && column_is "timeStamp" is_datetime df
  && column_if_any "gasUsed" is_numeric df
  && column_if_any "gasPrice" is_numeric df
  && column_if_any "isError" is_numeric df
  && column_if_any "functionName" no_missing df.

(** * The collector: [scripts/collect_data.py]

    The collector asks a block explorer for the transactions of every
    wallet, page by page, keeps those sent to a Compound contract, tags
    them and writes them to a file.  The network is the sequence of the
    replies it will give, each one a function of the request it answers. *)

(** A Python object, as [response.json()] returns it and as a transaction
    holds it: a string or a number, [None], a boolean, a list, or a
    dictionary with string keys. *)
#[local] Unset Elimination Schemes.
Inductive object : Type :=
| Scalar (s : scalar)
| PyNone
| PyBool (b : bool)
| PyList (items : list object)
| PyDict (members : list (string * object)).
#[local] Set Elimination Schemes.

Definition dict : Type := list (string * object).

(** What one request gives: a [RequestException] (connection, HTTP status,
    or a body that is not JSON), or the decoded body. *)
Inductive response : Type :=
| RequestFailed
| Body (data : object).

Definition network : Type := list (scalar -> nat -> response).

(** [data[key]] for a string key: only a dictionary that has the key
    gives a value. *)
Definition subscript (data : object) (key : string) : result object :=
  match data with
  | PyDict members =>
      match lookup key members with
      | Some v => Ok v
      | None => Raise (KeyError key)
      end
  | PyList _ => Raise (TypeError "list indices must be integers or slices, not str")
  | Scalar (SStr _) => Raise (TypeError "string indices must be integers, not 'str'")
  | _ => Raise (TypeError "object is not subscriptable")
  end.

(** [value == "1"] *)
Definition equals_one (value : object) : bool :=
  match value with
  | Scalar (SStr s) => String.eqb s "1"
  | _ => false
  end.

(** The loop of [fetch_all_transactions], from the page it is about to
    request; [None] when the network has no reply left to give.  The
    [try] catches a [RequestException] only: a [KeyError] or [TypeError]
    raised by line 47 leaves the function. *)
Fixpoint fetch_pages (wallet_address : scalar) (page : nat) (net : network)
  (all_transactions : list object) : option (result (list object * network)) :=
  match net with
  | [] => None
  | get :: net' =>
      match get wallet_address page with
      | RequestFailed => Some (Ok (all_transactions, net'))
      | Body data =>
          match subscript data "status" with
          | Raise e => Some (Raise e)
          | Ok status =>
              if equals_one status then
                match subscript data "result" with
                | Raise e => Some (Raise e)
                | Ok (PyList transactions) =>
                    let all_transactions := (all_transactions ++ transactions)%list in
                    if Nat.ltb (List.length transactions) 1000
                    then Some (Ok (all_transactions, net'))
                    else fetch_pages wallet_address (S page) net' all_transactions
                | Ok _ => Some (Ok (all_transactions, net'))
                end
              else Some (Ok (all_transactions, net'))
          end
      end
  end.

Definition fetch_all_transactions (wallet_address : scalar) (net : network)
  : option (result (list object * network)) :=
  fetch_pages wallet_address 1 net [].

(** [Series.tolist()]: a missing entry is the float NaN. *)
Definition tolist (s : Series) : list scalar :=
  map (fun v => match v with Some x => x | None => SNum NaN end) (values s).

Section Collector.

(** [str.lower] *)
Variable lower : string -> string.

Definition COMPOUND_V2_COMPTROLLER : string :=
  lower "0x3d9819210a31b4961b30ef54be2aed79b9c9cd3b".

Definition COMPOUND_CONTRACTS : list string :=
  [ COMPOUND_V2_COMPTROLLER;
    lower "0x5d3a536e4d6dbd6114cc1ead35777bab948e3643";
    lower "0x39aa39c021dfbae8fac545936693ac917d5e7563";
    lower "0xc3d688b66703497daa19211eedff47f25384cdc3" ].

(** [tx.get("to", "").lower()]: only a dictionary has [get], and only a
    string has [lower]. *)
Definition to_address (tx : object) : result string :=
  match tx with
  | PyDict members =>
      match lookup "to" members with
      | None => Ok (lower "")
      | Some (Scalar (SStr s)) => Ok (lower s)
      | Some _ => Raise (AttributeError "object has no attribute 'lower'")
      end
  | _ => Raise (AttributeError "object has no attribute 'get'")
  end.

Definition is_compound (address : string) : bool :=
  existsb (String.eqb address) COMPOUND_CONTRACTS.

(** The body of the inner loop of [main]: the tagged transaction, or
    nothing when it is not sent to a Compound contract. *)
Definition tag (address : scalar) (tx : object) : result (option dict) :=
  to <- to_address tx ;;
  if is_compound to then
    match tx with
    | PyDict members =>
        let members := assign "wallet_address" (Scalar address) members in
        let members :=
          assign "protocol_version"
                 (Scalar (SStr (if String.eqb to COMPOUND_V2_COMPTROLLER
                                then "V2" else "V3")))
                 members in
        Ok (Some members)
    | _ => Raise (TypeError "object does not support item assignment")
    end
  else Ok None.

Fixpoint tag_all (address : scalar) (wallet_txs : list object) : result (list dict) :=
  match wallet_txs with
  | [] => Ok []
  | tx :: rest =>
      tagged <- tag address tx ;;
      others <- tag_all address rest ;;
      Ok (match tagged with Some t => t :: others | None => others end)
  end.

(** The outer loop of [main] over the wallets that are left; [None] when
    the network has no reply left to give. *)
Fixpoint collect (wallet_addresses : list scalar) (net : network)
  (all_compound_transactions : list dict) : option (result (list dict * network)) :=
  match wallet_addresses with
  | [] => Some (Ok (all_compound_transactions, net))
  | address :: rest =>
      match fetch_all_transactions address net with
      | None => None
      | Some (Raise e) => Some (Raise e)
      | Some (Ok (wallet_txs, net')) =>
          match tag_all address wallet_txs with
          | Raise e => Some (Raise e)
          | Ok tagged => collect rest net' (all_compound_transactions ++ tagged)%list
          end
      end
  end.

(** [pd.read_csv] of the wallets file. *)
Variable wallets_csv : string -> option DataFrame.

Definition INPUT_WALLETS_FILE : string := "data/wallets.csv".

(** [main]: the rows written to the output file, if it is written, and
    what is left of the network. *)
Definition main (net : network) : option (result (option (list dict) * network)) :=
  match wallets_csv INPUT_WALLETS_FILE with
  | None => Some (Ok (None, net))
  | Some wallets_df =>
      match getitem wallets_df "wallet_id" with
      | Raise _ => Some (Ok (None, net))
      | Ok s =>
          match collect (tolist s) net [] with
          | None => None
          | Some (Raise e) => Some (Raise e)
          | Some (Ok (all_compound_transactions, net')) =>
              match all_compound_transactions with
              | [] => Some (Ok (None, net'))
              | _ => Some (Ok (Some all_compound_transactions, net'))
              end
          end
      end
  end.

End Collector.

(** ** Statements of the collector *)

(** The list a reply carries when its status is ["1"]. *)
Definition page_of (r : response) : option (list object) :=
  match r with
  | Body (PyDict members) =>
      match lookup "status" members, lookup "result" members with
      | Some status, Some (PyList transactions) =>
          if equals_one status then Some transactions else None
      | _, _ => None
      end
  | _ => None
  end.

(** A page that makes the loop ask for the next one: status ["1"] and a
    list of at least 1000 transactions. *)
Definition full_page (r : response) : bool :=
  match page_of r with
  | Some transactions => negb (Nat.ltb (List.length transactions) 1000)
  | None => false
  end.

(** The transactions a reply contributes. *)
Definition page_transactions (r : response) : list object :=
  match page_of r with
  | Some transactions => transactions
  | None => []
  end.

(** The exception line 47 raises on a reply, if it raises one: the body
    is no dictionary, has no ["status"], or has the status ["1"] and no
    ["result"]. *)
Definition line_47_raises (r : response) : option exn :=
  match r with
  | RequestFailed => None
  | Body data =>
      match subscript data "status" with
      | Raise e => Some e
      | Ok status =>
          if equals_one status then
            match subscript data "result" with
            | Raise e => Some e
            | Ok _ => None
            end
          else None
      end
  end.

(** The replies to the requests for the pages [page], [page + 1], ... of
    one wallet. *)
Fixpoint replies_from (wallet_address : scalar) (page : nat) (net : network)
  : list response :=
  match net with
  | [] => []
  | get :: net' => get wallet_address page :: replies_from wallet_address (S page) net'
  end.

(** The first reply that is not a full page, if there is one. *)
Definition first_short (replies : list response) : option response :=
  find (fun r => negb (full_page r)) replies.

(** An explorer whose pages 1 and 2 are full and whose page 3 holds one
    transaction, and replies that end the loop in the other ways. *)
Definition example_tx (to : string) : object :=
  PyDict [("hash", Scalar (SStr "0x01")); ("to", Scalar (SStr to))].

Definition reply (status : string) (result : object) : response :=
  Body (PyDict [("status", Scalar (SStr status)); ("message", Scalar (SStr "OK"));
                ("result", result)]).

Definition full_reply : scalar -> nat -> response :=
  fun _ _ => reply "1" (PyList (repeat (example_tx "0xc0") 1000)).

Definition last_reply : scalar -> nat -> response :=
  fun _ page =>
    reply "1" (PyList (if Nat.eqb page 3
                       then [example_tx "0x3d9819210a31b4961b30ef54be2aed79b9c9cd3b"]
                       else [])).

Definition failing_reply : scalar -> nat -> response := fun _ _ => RequestFailed.

(** The explorer's answer over its rate limit: status ["0"] and a text. *)
Definition limit_reply : scalar -> nat -> response :=
  fun _ _ => reply "0" (Scalar (SStr "Max rate limit reached")).

(** A body with the status ["1"] and no result. *)
Definition truncated_reply : scalar -> nat -> response :=
  fun _ _ => Body (PyDict [("status", Scalar (SStr "1"))]).

Definition example_network : network := [full_reply; full_reply; last_reply; full_reply].

Definition example_truncated_network : network := [full_reply; truncated_reply; full_reply].

(** A wallets file with one wallet, and a network that answers its only
    request with two transactions, one of them sent to the comptroller. *)
Definition example_wallets (path : string) : option DataFrame :=
  if String.eqb path "data/wallets.csv"
  then Some (mkDataFrame 1 [("wallet_id", Object [addr "0xa1"])])
  else None.

Definition example_explorer : network :=
  [ fun _ _ =>
      reply "1" (PyList [ example_tx "0x3D9819210A31B4961B30EF54BE2AED79B9C9CD3B";
                          example_tx "0xdead" ]) ].

(** Lower case of the letters A to F, enough for addresses. *)
Definition lower_hex_char (c : Ascii.ascii) : Ascii.ascii :=
  let n := Ascii.nat_of_ascii c in
  if Nat.leb 65 n && Nat.leb n 70 then Ascii.ascii_of_nat (n + 32) else c.

Fixpoint lower_hex (s : string) : string :=
  match s with
  | EmptyString => EmptyString
  | String c rest => String (lower_hex_char c) (lower_hex rest)
  end.

(** What a written row carries: a recipient among the Compound contracts,
    the wallet it was fetched for, and the protocol version read off the
    recipient. *)
Definition tagged_row (lower : string -> string) (address : scalar) (row : dict) : Prop :=
  exists to,
    to_address lower (PyDict row) = Ok to
    /\ In to (COMPOUND_CONTRACTS lower)
    /\ lookup "wallet_address" row = Some (Scalar address)
    /\ lookup "protocol_version" row
       = Some (Scalar (SStr (if String.eqb to (COMPOUND_V2_COMPTROLLER lower)
                             then "V2" else "V3"))).

(** * Further statements about [scripts/risk_utils.py] *)

(** A column whose present entries are all the same number. *)
Definition constant_column (xs : list (option Q)) : Prop :=
  forall a b, In (Some a) xs -> In (Some b) xs -> a == b.

(** A population in which every feature has the same value for every
    wallet that has one. *)
Definition identical_wallets (df : DataFrame) : Prop :=
  forall name s, In (name, s) (feature_columns df) ->
                 constant_column (map finite_entry (floats_of s)).

Definition zero_entry (x : option Q) : Prop :=
  match x with
  | Some v => v == 0
  | None => True
  end.

Definition zero_frame (fs : Frame (option Q)) : Prop :=
  Forall (fun c => Forall zero_entry (snd c)) fs.

(** The products the combiner clamps and rounds. *)
Definition final_products (bases : list float) (anomalies : list bool) (adjs : list float)
  : list float :=
  zip_with fmul (zip_with anomaly_boost bases anomalies) adjs.

(** Five wallets with the same features. *)
Definition example_identical : DataFrame :=
  mkDataFrame 5
    [ ("wallet_id", Object [addr "0xa1"; addr "0xb2"; addr "0xc3"; addr "0xd4"; addr "0xe5"]);
      ("total_transactions", Integer [3; 3; 3; 3; 3]%Z);
      ("error_rate", Numeric [Fin (1 # 2); Fin (1 # 2); Fin (1 # 2); Fin (1 # 2); Fin (1 # 2)]);
      ("value_std", Numeric [NaN; NaN; NaN; NaN; NaN]) ].

(** The same five wallets with the base score the scorer gives them. *)
Definition example_identical_scored : DataFrame :=
  mkDataFrame 5
    (columns example_identical
     ++ [("base_risk_score", Numeric [Fin 0; Fin 0; Fin 0; Fin 0; Fin 0])])%list.

Definition example_identical_refined : result DataFrame :=
  apply_ml_refinements sqrt_stand_in unit (fun _ => tt) no_outliers singleton_clusters
    tt example_identical_scored.

Definition example_identical_refined_frame : DataFrame :=
  Eval vm_compute in frame_or_empty example_identical_refined.



(** A raw table as read from a file: one row has no value, one function
    name is missing, and one column is unknown to the loader. *)
Definition example_raw : DataFrame :=
  mkDataFrame 3
    [ ("blockHash", Object [addr "0x0a"; addr "0x0b"; addr "0x0c"]);
      ("timeStamp", Integer [1600000000; 1600086400; 1600090000]%Z);
      ("from", Object [addr "0xa1"; addr "0xa1"; addr "0xb2"]);
      ("to", Object [addr "0xc0"; addr "0xc0"; addr "0xa1"]);
      ("value", Numeric [Fin 10; NaN; Fin 0]);
      ("functionName", Object [addr "mint"; addr "redeem"; None]);
      ("gasUsed", Integer [21000; 52000; 30000]%Z) ].

Definition example_raw_files (path : string) : option DataFrame :=
  if String.eqb path "data/compound.csv" then Some example_raw else None.

Definition example_loaded : DataFrame :=
  Eval vm_compute in
    frame_or_empty (load_and_preprocess_data example_raw_files parse_nothing
                      "data/compound.csv").




(** * Binary64 arithmetic

    The definitions above compute with exact rationals, which is enough
    for what rounding preserves: ranges, orderings, and which calls raise.
    The value a function returns depends on the rounding of every
    operation: a product that is a tie between two integers before its
    rounding may not be one after it, and a scaled feature may be above a
    threshold only because of it.  This part gives the arithmetic of the
    machine: [binary64 q] is the IEEE 754 double nearest to [q], ties to
    the even significand, an infinity beyond the largest double.  The sign
    of zero is not represented. *)

(** [2 ^ e] for an integer exponent. *)
Definition pow2 (e : Z) : Q := Qpower 2 e.

(** [floor (log2 |q|)] for [q] other than 0. *)
Definition ilog2 (q : Q) : Z :=
  let k := (Z.log2 (Z.abs (Qnum q)) - Z.log2 (Zpos (Qden q)))%Z in
  if Qle_bool (pow2 k) (Qabs q) then k else (k - 1)%Z.

(** The exponent of the last place of the doubles around [q]: 53
    significant bits, and no exponent below that of the subnormals. *)
Definition ulp_exponent (q : Q) : Z := Z.max (ilog2 q - 52) (-1074).

(** The multiple of the last place nearest to [q], ties to the even
    multiple. *)
Definition nearest (q : Q) : Q :=
  let e := ulp_exponent q in
  Qred (inject_Z (round_half_even (q / pow2 e)) * pow2 e).

Definition binary64 (q : Q) : float :=
  if Qeq_bool q 0 then Fin 0
  else
    let r := nearest q in
    if Qle_bool (pow2 1024) (Qabs r)
    then (if Qle_bool 0 r then PInf else NInf)
    else Fin r.

(** The result of an operation, rounded. *)
Definition fl (x : float) : float :=
  match x with
  | Fin q => binary64 q
  | other => other
  end.

Definition fopp (x : float) : float :=
  match x with
  | Fin q => Fin (- q)
  | PInf => NInf
  | NInf => PInf
  | NaN => NaN
  end.

(** [x < y] on floats; any comparison with NaN is false. *)
Definition flt (x y : float) : bool := fgt y x.

Module Binary64.

Definition mul (x y : float) : float := fl (fmul x y).
Definition add (x y : float) : float := fl (fadd x y).
Definition sub (x y : float) : float := fl (fadd x (fopp y)).
Definition div (x y : float) : float := fl (fdiv x y).

(** A decimal literal of the source is the double nearest to it. *)
Definition literal (q : Q) : float := binary64 q.

(** A column read as doubles: an [int64] entry is converted, and a number
    that is not a double stands for the double nearest to it. *)
Definition to_floats (s : Series) : result (list float) :=
  xs <- to_floats s ;; Ok (map fl xs).

(** ** Score combiner: [calculate_final_risk_score] *)

(** [final_scores[df['is_anomaly']] *= 1.5] *)
Definition anomaly_boost (score : float) (is_anomaly : bool) : float :=
  if is_anomaly then mul score (literal (15 # 10)) else score.

Definition calculate_final_risk_score (df : DataFrame) : result (list Z) :=
  base <- getitem df "base_risk_score" ;;
  final_scores <- to_floats base ;;
  anomaly <- getitem df "is_anomaly" ;;
  mask <- to_mask anomaly ;;
  let final_scores := zip_with anomaly_boost final_scores mask in
  adj <- getitem df "cluster_risk_adjustment" ;;
  adjs <- to_floats adj ;;
  let final_scores := zip_with mul final_scores adjs in
  mapM (fun x => astype_int (clamp_round x)) final_scores.

(** ** Base risk scorer: [calculate_advanced_risk_score] *)

(** [np.nanmin] and [np.nanmax] of a column: NaN when no value is present. *)
Definition nanmin (xs : list float) : float :=
  match dropna_floats xs with
  | [] => NaN
  | x :: rest => fold_left np_minimum rest x
  end.

Definition nanmax (xs : list float) : float :=
  match dropna_floats xs with
  | [] => NaN
  | x :: rest => fold_left np_maximum rest x
  end.

(** The machine epsilon of a double. *)
Definition eps : Q := pow2 (-52).

(** scikit-learn's [_handle_zeros_in_scale]: a range below [10 * eps]
    counts as constant and is replaced by 1. *)
Definition handle_zeros_in_scale (scale : float) : float :=
  if flt scale (Fin (10 * eps)) then Fin 1 else scale.

(** [MinMaxScaler] on one column, with the default feature range (0, 1):
    [scale_ = (1 - 0) / _handle_zeros_in_scale(data_max - data_min)],
    [min_ = 0 - data_min * scale_], and the transform is [X *= scale_]
    followed by [X += min_]. *)
Definition minmax_column (xs : list float) : list float :=
  let data_min := nanmin xs in
  let data_max := nanmax xs in
  let data_range := sub data_max data_min in
  let scale_ := div (Fin 1) (handle_zeros_in_scale data_range) in
  let min_ := sub (Fin 0) (mul data_min scale_) in
  map (fun x => add (mul x scale_) min_) xs.

(** scikit-learn validates its input: NaN is allowed, an infinity is not. *)
Definition check_finite (x : float) : result float :=
  match x with
  | PInf | NInf => Raise (ValueError "Input contains infinity")
  | other => Ok other
  end.

Definition MinMaxScaler_fit_transform (n_samples : nat) (X : Frame float)
  : result (Frame float) :=
  X <- mapM (fun '(name, xs) => ys <- mapM check_finite xs ;; Ok (name, ys)) X ;;
  if Nat.eqb n_samples 0 then Raise (ValueError "Found array with 0 sample(s)")
  else match X with
       | [] => Raise (ValueError "Found array with 0 feature(s)")
       | _ => Ok (map (fun '(name, xs) => (name, minmax_column xs)) X)
       end.

Definition scorer_features (df : DataFrame) : result (Frame float) :=
  let feature_cols := filter (fun '(col, _) => negb (String.eqb col "wallet_id")) (columns df) in
  mapM (fun '(col, s) => xs <- to_floats s ;; Ok (col, map replace_inf xs)) feature_cols.

Definition features_scaled (df : DataFrame) : result (Frame float) :=
  features <- scorer_features df ;;
  MinMaxScaler_fit_transform (index df) features.

(** The entry of column [name] in row [i]. *)
Definition cell (fs : Frame float) (name : string) (i : nat) : float :=
  match lookup name fs with
  | Some xs => nth i xs NaN
  | None => NaN
  end.

(** A sum along a row: the entries are added from left to right, a
    missing entry counting as 0. *)
Definition row_sum (xs : list float) : float :=
  fold_left add (dropna_floats xs) (Fin 0).

(** [DataFrame.mean(axis=1)] at one row: the sum over the count of the
    entries that are present. *)
Definition row_mean (xs : list float) : float :=
  match dropna_floats xs with
  | [] => NaN
  | present => div (row_sum xs) (Fin (of_nat (List.length present)))
  end.

(** One entry of [risk_scores[component]]. *)
Definition risk_score (fs : Frame float) (config : list string * Q) (i : nat) : float :=
  let available_features := filter (fun f => in_frame f fs) (fst config) in
  match available_features with
  | [] => Fin 0
  | _ =>
      let component_score := row_mean (map (fun f => cell fs f i) available_features) in
      mul component_score (literal (snd config))
  end.

(** [risk_scores.sum(axis=1)] at row [i]. *)
Definition base_score (fs : Frame float) (i : nat) : float :=
  row_sum (map (fun '(_, config) => risk_score fs config i) risk_components).

(** [features_scaled[name] > threshold] at row [i], when the column exists. *)
Definition exceeds (fs : Frame float) (name : string) (threshold : Q) (i : nat) : bool :=
  in_frame name fs && fgt (cell fs name i) (literal threshold).

(** [if name in features_scaled: base_score[features_scaled[name] > threshold] *= factor] *)
Definition adjust (fs : Frame float) (name : string) (threshold factor : Q)
  (i : nat) (score : float) : float :=
  if exceeds fs name threshold i then mul score (literal factor) else score.

Definition adjusted_score (fs : Frame float) (i : nat) : float :=
  let s := base_score fs i in
  let s := adjust fs "error_rate" (1 # 10) (13 # 10) i s in
  let s := adjust fs "zero_value_ratio" (5 # 10) (12 # 10) i s in
  let s := adjust fs "transaction_frequency" (95 # 100) (14 # 10) i s in
  s.

Definition calculate_advanced_risk_score (df : DataFrame) : result (list float) :=
  fs <- features_scaled df ;;
  Ok (map (fun i => np_minimum (mul (adjusted_score fs i) (Fin 1000)) (Fin 1000))
          (seq 0 (index df))).

(** ** Statements of the score combiner *)

(** A float that is a double: rounding leaves it as it is. *)
Definition double (x : float) : Prop := fl x = x.

(** [base * (1.5 if anomaly else 1) * clusterAdj], each product rounded. *)
Definition final_product (base : float) (anomaly : bool) (adj : float) : float :=
  mul (mul base (if anomaly then literal (15 # 10) else Fin 1)) adj.

(** A value clamped to [0, 1000]; NaN has no clamped value. *)
Definition clamped (x : float) : option Q :=
  match x with
  | Fin q => Some (clamp 0 1000 q)
  | PInf => Some 1000
  | NInf => Some 0
  | NaN => None
  end.

(** A populated entry: a number of ordinary magnitude. *)
Definition populated (x : float) : Prop :=
  exists q, x = Fin q /\ Qabs q <= pow2 1000.

(** The scores of the rows of three columns. *)
Definition final_scores (bases : list float) (anomalies : list bool) (adjs : list float)
  : list (option Z) :=
  zip_with (fun '(b, f) a =>
              option_map round_half_even (clamped (final_product (fl b) f (fl a))))
           (combine bases anomalies) adjs.

(** ** Statements of the base risk scorer *)

(** The multiplier one boost rule gives row [i]. *)
Definition boost (fs : Frame float) (name : string) (threshold factor : Q) (i : nat)
  : float :=
  if exceeds fs name threshold i then literal factor else Fin 1.

Definition error_boost fs i := boost fs "error_rate" (1 # 10) (13 # 10) i.
Definition zero_value_boost fs i := boost fs "zero_value_ratio" (5 # 10) (12 # 10) i.
Definition frequency_boost fs i := boost fs "transaction_frequency" (95 # 100) (14 # 10) i.

(** The three rules taken in the opposite order, for comparison. *)
Definition adjusted_score_reversed (fs : Frame float) (i : nat) : float :=
  let s := base_score fs i in
  let s := adjust fs "transaction_frequency" (95 # 100) (14 # 10) i s in
  let s := adjust fs "zero_value_ratio" (5 # 10) (12 # 10) i s in
  let s := adjust fs "error_rate" (1 # 10) (13 # 10) i s in
  s.

End Binary64.

(** ** Example tables for the binary64 statements *)

(** Two scored wallets whose products are, or are not, ties only once
    they are rounded: [0.1 * 1.5 * 30] and [12.5 * 0.2]. *)
Definition example_ties : DataFrame :=
  mkDataFrame 2
    [ ("base_risk_score", Numeric [Fin (1 # 10); Fin (25 # 2)]);
      ("is_anomaly", Boolean [true; false]);
      ("cluster_risk_adjustment", Numeric [Fin 30; Fin (2 # 10)]) ].

(** Three wallets with error rates 1, 3 and 21: the second is scaled to
    the double next above [0.1]. *)
Definition example_threshold : DataFrame :=
  mkDataFrame 3
    [ ("wallet_id", Object [addr "0xa1"; addr "0xb2"; addr "0xc3"]);
      ("error_rate", Numeric [Fin 1; Fin 3; Fin 21]) ].

(** Three wallets; the third exceeds the error-rate and the zero-value
    thresholds with a base value of a third of the weight. *)
Definition example_order : DataFrame :=
  mkDataFrame 3
    [ ("wallet_id", Object [addr "0xa1"; addr "0xb2"; addr "0xc3"]);
      ("error_rate", Numeric [Fin 0; Fin 3; Fin 2]);
      ("zero_value_ratio", Numeric [Fin 0; Fin 1; Fin 1]) ].

Definition scaled_or_empty (r : result (Frame float)) : Frame float :=
  match r with
  | Ok fs => fs
  | Raise _ => []
  end.

Definition example_order_scaled : Frame float :=
  Eval vm_compute in scaled_or_empty (Binary64.features_scaled example_order).

(** ** A table with missing timestamps *)




(** * Properties *)

(** ** The error monad *)

Lemma bind_Ok {A B} (c : result A) (k : A -> result B) (b : B) :
  bind c k = Ok b -> exists a, c = Ok a /\ k a = Ok b.
Proof.
  destruct c as [a|e]; simpl; intros H; [eauto | discriminate].
Qed.

Ltac inv_bind H :=
  let a := fresh "v" in
  let Ha := fresh "Hv" in
  apply bind_Ok in H; destruct H as (a & Ha & H).

Tactic Notation "bind_inv" hyp(H) "as" ident(a) ident(Ha) :=
  apply bind_Ok in H; destruct H as (a & Ha & H).

(** ** Rounding *)

Lemma round_half_even_comp (p q : Q) :
  p == q -> round_half_even p = round_half_even q.
Proof.
  intros E. unfold round_half_even.
  rewrite (Qfloor_comp _ _ E).
  assert (E' : p - inject_Z (Qfloor q) == q - inject_Z (Qfloor q)) by (rewrite E; reflexivity).
  rewrite (Qcompare_comp _ _ E' (1 # 2) (1 # 2) (Qeq_refl _)).
  reflexivity.
Qed.

Lemma floor_bounds (q : Q) :
  inject_Z (Qfloor q) <= q /\ q < inject_Z (Qfloor q) + 1.
Proof.
  split; [apply Qfloor_le|].
  generalize (Qlt_floor q). rewrite inject_Z_plus.
  change (inject_Z 1) with 1. trivial.
Qed.

(** The rounded value is a nearest integer. *)
Lemma round_half_even_nearest (q : Q) :
  Qabs (inject_Z (round_half_even q) - q) <= 1 # 2.
Proof.
  unfold round_half_even.
  destruct (floor_bounds q) as [Hlo Hhi].
  apply Qabs_Qle_condition.
  destruct (Qcompare_spec (q - inject_Z (Qfloor q)) (1 # 2)) as [E|L|G].
  - destruct (Z.even (Qfloor q)).
    + lra.
    + rewrite inject_Z_plus. change (inject_Z 1) with 1. lra.
  - lra.
  - rewrite inject_Z_plus. change (inject_Z 1) with 1. lra.
Qed.

Lemma round_half_even_range (q : Q) (lo hi : Z) :
  inject_Z lo <= q -> q <= inject_Z hi ->
  (lo <= round_half_even q <= hi)%Z.
Proof.
  intros Hlo Hhi.
  destruct (floor_bounds q) as [Fl Fh].
  assert (Llo : (lo <= Qfloor q)%Z).
  { apply Z.lt_succ_r. rewrite Zlt_Qlt. unfold Z.succ.
    rewrite inject_Z_plus. change (inject_Z 1) with 1. lra. }
  assert (Lhi : (Qfloor q <= hi)%Z).
  { rewrite Zle_Qle. lra. }
  assert (Up : 1 # 2 <= q - inject_Z (Qfloor q) -> (Qfloor q + 1 <= hi)%Z).
  { intros H. apply Z.lt_succ_r. unfold Z.succ. apply Z.add_lt_mono_r.
    rewrite Zlt_Qlt. lra. }
  unfold round_half_even.
  destruct (Qcompare_spec (q - inject_Z (Qfloor q)) (1 # 2)) as [E|L|G].
  - destruct (Z.even (Qfloor q)); [lia|].
    split; [lia|]. apply Up. lra.
  - lia.
  - split; [lia|]. apply Up. lra.
Qed.

Lemma clamp_range (lo hi x : Q) : lo <= hi -> lo <= clamp lo hi x <= hi.
Proof.
  intros H. unfold clamp. split.
  - apply Q.min_glb_iff. split; [apply Q.le_max_r | exact H].
  - apply Q.le_min_r.
Qed.

Lemma astype_int_integer (z : Z) : astype_int (Fin (inject_Z z)) = Ok z.
Proof.
  unfold astype_int, inject_Z. simpl. now rewrite Z.quot_1_r.
Qed.

(** ** Score combiner *)

Lemma spec_final_score_range (b : Q) (f : bool) (a : Q) :
  (0 <= spec_final_score b f a <= 1000)%Z.
Proof.
  unfold spec_final_score, spec_final_value.
  set (x := b * _ * a).
  assert (R : 0 <= clamp 0 1000 x <= 1000) by (apply clamp_range; lra).
  apply round_half_even_range.
  - change (inject_Z 0) with 0. tauto.
  - change (inject_Z 1000) with 1000. tauto.
Qed.



(** ** Sums, means and extrema *)

Lemma of_nat_S (n : nat) : of_nat (S n) == of_nat n + 1.
Proof.
  unfold of_nat. rewrite Nat2Z.inj_succ. unfold Z.succ.
  rewrite inject_Z_plus. reflexivity.
Qed.

Lemma of_nat_nonneg (n : nat) : 0 <= of_nat n.
Proof.
  unfold of_nat. change 0 with (inject_Z 0). rewrite <- Zle_Qle. lia.
Qed.

Lemma of_nat_pos (n : nat) : (0 < n)%nat -> 0 < of_nat n.
Proof.
  intros H. unfold of_nat. change 0 with (inject_Z 0). rewrite <- Zlt_Qlt. lia.
Qed.

Lemma Qsum_unit (l : list Q) :
  Forall (fun v => 0 <= v <= 1) l -> 0 <= Qsum l <= of_nat (List.length l).
Proof.
  induction 1 as [|v l Hv _ IH].
  - change (0 <= 0 <= 0). lra.
  - cbn [List.length]. rewrite of_nat_S.
    change (Qsum (v :: l)) with (v + Qsum l). lra.
Qed.

Lemma Qdiv_unit (s n : Q) : 0 < n -> 0 <= s <= n -> 0 <= s / n <= 1.
Proof.
  intros Hn [H0 H1]. split.
  - apply Qle_shift_div_l; lra.
  - apply Qle_shift_div_r; lra.
Qed.

Lemma present_In (xs : list (option Q)) (v : Q) :
  In v (present xs) <-> In (Some v) xs.
Proof.
  unfold present. rewrite in_flat_map. split.
  - intros ([w|] & Hin & Hv); simpl in Hv; [|tauto].
    destruct Hv as [->|[]]. exact Hin.
  - intros H. exists (Some v). simpl. auto.
Qed.

Lemma present_unit (xs : list (option Q)) :
  Forall unit_entry xs -> Forall (fun v => 0 <= v <= 1) (present xs).
Proof.
  intros H. apply Forall_forall. intros v Hv.
  apply present_In in Hv. rewrite Forall_forall in H. exact (H _ Hv).
Qed.

Lemma nanmean_unit (xs : list (option Q)) :
  Forall unit_entry xs -> unit_entry (nanmean xs).
Proof.
  intros H. apply present_unit in H. unfold nanmean.
  destruct (present xs) as [|q rest] eqn:E; simpl; [exact I|].
  apply Qdiv_unit.
  - apply of_nat_pos. simpl. lia.
  - apply (Qsum_unit (q :: rest)). exact H.
Qed.

Lemma fold_left_Qmin_le (l : list Q) (a : Q) :
  fold_left Qmin l a <= a /\ forall x, In x l -> fold_left Qmin l a <= x.
Proof.
  revert a. induction l as [|y l IH]; intros a; simpl.
  - split; [lra | tauto].
  - destruct (IH (Qmin a y)) as [H1 H2].
    assert (La := Q.le_min_l a y). assert (Ly := Q.le_min_r a y).
    split; [lra|]. intros x [<-|Hx]; [lra | auto].
Qed.

Lemma fold_left_Qmax_ge (l : list Q) (a : Q) :
  a <= fold_left Qmax l a /\ forall x, In x l -> x <= fold_left Qmax l a.
Proof.
  revert a. induction l as [|y l IH]; intros a; simpl.
  - split; [lra | tauto].
  - destruct (IH (Qmax a y)) as [H1 H2].
    assert (La := Q.le_max_l a y). assert (Ly := Q.le_max_r a y).
    split; [lra|]. intros x [<-|Hx]; [lra | auto].
Qed.

Lemma nanmin_le (xs : list (option Q)) (lo v : Q) :
  nanmin xs = Some lo -> In (Some v) xs -> lo <= v.
Proof.
  unfold nanmin. intros H Hv. apply present_In in Hv.
  destruct (present xs) as [|q rest]; [discriminate|].
  injection H as <-. destruct (fold_left_Qmin_le rest q) as [H1 H2].
  destruct Hv as [<-|Hv]; auto.
Qed.

Lemma nanmax_ge (xs : list (option Q)) (hi v : Q) :
  nanmax xs = Some hi -> In (Some v) xs -> v <= hi.
Proof.
  unfold nanmax. intros H Hv. apply present_In in Hv.
  destruct (present xs) as [|q rest]; [discriminate|].
  injection H as <-. destruct (fold_left_Qmax_ge rest q) as [H1 H2].
  destruct Hv as [<-|Hv]; auto.
Qed.

(** ** Min-max scaling *)

Lemma minmax_value_unit (lo hi x : Q) :
  lo <= x <= hi ->
  let data_range := hi - lo in
  let scale_ := 1 / (if Qeq_bool data_range 0 then 1 else data_range) in
  0 <= x * scale_ + (0 - lo * scale_) <= 1.
Proof.
  intros [Hlo Hhi]. cbv zeta.
  destruct (Qeq_bool (hi - lo) 0) eqn:E.
  - apply Qeq_bool_iff in E.
    assert (R : x * (1 / 1) + (0 - lo * (1 / 1)) == x - lo) by field.
    rewrite R. lra.
  - apply Qeq_bool_neq in E.
    assert (P : 0 < hi - lo) by lra.
    assert (R : x * (1 / (hi - lo)) + (0 - lo * (1 / (hi - lo))) == (x - lo) / (hi - lo))
      by (field; lra).
    rewrite R. apply Qdiv_unit; lra.
Qed.

Lemma minmax_column_unit (xs : list (option Q)) :
  Forall unit_entry (minmax_column xs).
Proof.
  unfold minmax_column.
  destruct (nanmin xs) as [lo|] eqn:Elo;
    [destruct (nanmax xs) as [hi|] eqn:Ehi|];
    apply Forall_forall; intros y Hy; apply in_map_iff in Hy;
    destruct Hy as (x & <- & Hx); try exact I.
  destruct x as [x|]; simpl; [|exact I].
  apply minmax_value_unit. split.
  - eapply nanmin_le; eauto.
  - eapply nanmax_ge; eauto.
Qed.

Lemma minmax_frame_scaled (X : Frame (option Q)) :
  scaled_frame (map (fun '(name, xs) => (name, minmax_column xs)) X).
Proof.
  unfold scaled_frame.
  apply Forall_forall. intros [name ys] Hin.
  apply in_map_iff in Hin. destruct Hin as ([name' xs] & E & _).
  injection E as _ <-. simpl. apply minmax_column_unit.
Qed.

Lemma MinMaxScaler_scaled (n : nat) (X : Frame float) (fs : Frame (option Q)) :
  MinMaxScaler_fit_transform n X = Ok fs -> scaled_frame fs.
Proof.
  unfold MinMaxScaler_fit_transform. intros H. inv_bind H.
  destruct (Nat.eqb n 0); [discriminate|].
  destruct v as [|c X'] eqn:Ev; [discriminate|].
  injection H as <-. exact (minmax_frame_scaled (c :: X')).
Qed.

Lemma features_scaled_scaled (df : DataFrame) (fs : Frame (option Q)) :
  features_scaled df = Ok fs -> scaled_frame fs.
Proof.
  unfold features_scaled. intros H. inv_bind H.
  eapply MinMaxScaler_scaled; eauto.
Qed.

Lemma lookup_In {A} (name : string) (cols : list (string * A)) (c : A) :
  lookup name cols = Some c -> In (name, c) cols.
Proof.
  induction cols as [|[n x] cols IH]; simpl; [discriminate|].
  destruct (String.eqb_spec name n) as [->|_].
  - intros [= ->]. auto.
  - auto.
Qed.

Lemma cell_unit (fs : Frame (option Q)) (name : string) (i : nat) :
  scaled_frame fs -> unit_entry (cell fs name i).
Proof.
  intros H. unfold cell.
  destruct (lookup name fs) as [xs|] eqn:E; [|exact I].
  apply lookup_In in E. unfold scaled_frame in H. rewrite Forall_forall in H.
  specialize (H _ E). simpl in H.
  destruct (nth_in_or_default i xs None) as [Hin| ->]; [|exact I].
  rewrite Forall_forall in H. auto.
Qed.

(** ** Base risk scorer: the weighted sum *)

Lemma unit_entries_of_cells (fs : Frame (option Q)) (names : list string) (i : nat) :
  scaled_frame fs -> Forall unit_entry (map (fun f => cell fs f i) names).
Proof.
  intros H. apply Forall_forall. intros x Hx.
  apply in_map_iff in Hx. destruct Hx as (f & <- & _). now apply cell_unit.
Qed.

(** A component contributes between 0 and its weight. *)
Lemma risk_score_bound (fs : Frame (option Q)) (config : list string * Q) (i : nat) :
  scaled_frame fs -> 0 <= snd config ->
  match risk_score fs config i with
  | Some c => 0 <= c <= snd config
  | None => True
  end.
Proof.
  intros Hfs Hw. unfold risk_score.
  destruct (filter (fun f => in_frame f fs) (fst config)) as [|f rest] eqn:E.
  - simpl. lra.
  - assert (U := nanmean_unit _ (unit_entries_of_cells fs (f :: rest) i Hfs)).
    destruct (nanmean (map (fun f0 => cell fs f0 i) (f :: rest))) as [m|]; simpl; [|exact I].
    simpl in U. nra.
Qed.


Lemma weighted_sum_bound (fs : Frame (option Q)) (i : nat)
  (components : list (string * (list string * Q))) :
  scaled_frame fs ->
  Forall (fun c => 0 <= snd (snd c)) components ->
  0 <= nansum (map (fun '(_, config) => risk_score fs config i) components)
    <= Qsum (map (fun c => snd (snd c)) components).
Proof.
  intros Hfs. unfold nansum. induction 1 as [|[name config] l Hw _ IH]; simpl.
  - lra.
  - simpl in Hw. assert (B := risk_score_bound fs config i Hfs Hw).
    destruct (risk_score fs config i) as [c|]; simpl; lra.
Qed.

Lemma weights_nonneg : Forall (fun c => 0 <= snd (snd c)) risk_components.
Proof.
  unfold risk_components. repeat constructor; simpl; lra.
Qed.



(** ** Base risk scorer: the boosts *)

Lemma adjust_boost (fs : Frame (option Q)) (name : string) (threshold factor : Q)
  (i : nat) (score : Q) :
  adjust fs name threshold factor i score == score * boost fs name threshold factor i.
Proof.
  unfold adjust, boost.
  destruct (in_frame name fs && exceeds (cell fs name i) threshold); ring.
Qed.

Lemma adjusted_score_product (fs : Frame (option Q)) (i : nat) :
  adjusted_score fs i
  == base_score fs i * error_boost fs i * zero_value_boost fs i * frequency_boost fs i.
Proof.
  unfold adjusted_score, error_boost, zero_value_boost, frequency_boost.
  rewrite !adjust_boost. reflexivity.
Qed.

Lemma exceeds_in_frame (fs : Frame (option Q)) (name : string) (threshold : Q) (i : nat) :
  exceeds (cell fs name i) threshold = true -> in_frame name fs = true.
Proof.
  unfold cell, in_frame. destruct (lookup name fs); [reflexivity | discriminate].
Qed.

Lemma boost_applies (fs : Frame (option Q)) (name : string) (threshold factor : Q) (i : nat) :
  exceeds (cell fs name i) threshold = true -> boost fs name threshold factor i = factor.
Proof.
  intros H. unfold boost. now rewrite (exceeds_in_frame _ _ _ _ H), H.
Qed.

Lemma nth_error_map_seq {A} (f : nat -> A) (n i : nat) :
  (i < n)%nat -> nth_error (map f (seq 0 n)) i = Some (f i).
Proof.
  intros H. rewrite nth_error_map, nth_error_seq.
  destruct (Nat.ltb_spec i n); [reflexivity | lia].
Qed.

(** ** Base risk scorer: which columns the score reads *)

Lemma check_finite_replace_inf (xs : list float) :
  mapM check_finite (map replace_inf xs) = Ok (map finite_entry xs).
Proof.
  induction xs as [|x xs IH]; simpl; [reflexivity|].
  rewrite IH. unfold finite_entry. destruct x; reflexivity.
Qed.

Lemma to_floats_numeric (s : Series) :
  is_numeric s = true -> to_floats s = Ok (floats_of s).
Proof.
  unfold floats_of. destruct s; simpl; intros H; try reflexivity; discriminate.
Qed.

Lemma feature_columns_numeric (df : DataFrame) :
  feature_table df = true ->
  Forall (fun c => is_numeric (snd c) = true) (feature_columns df).
Proof.
  unfold feature_table, feature_columns. intros H.
  rewrite forallb_forall in H. apply Forall_forall. intros [col s] Hin.
  apply filter_In in Hin. destruct Hin as [Hin Hne].
  specialize (H _ Hin). simpl in *.
  destruct (String.eqb col "wallet_id"); [discriminate | exact H].
Qed.

Lemma scorer_features_numeric (cols : list (string * Series)) :
  Forall (fun c => is_numeric (snd c) = true) cols ->
  mapM (fun '(col, s) => xs <- to_floats s ;; Ok (col, map replace_inf xs)) cols
  = Ok (map (fun '(col, s) => (col, map replace_inf (floats_of s))) cols).
Proof.
  induction 1 as [|[col s] cols Hs _ IH]; simpl; [reflexivity|].
  rewrite (to_floats_numeric s Hs). simpl. rewrite IH. reflexivity.
Qed.

Lemma check_columns (cols : list (string * Series)) :
  mapM (fun '(name, xs) => ys <- mapM check_finite xs ;; Ok (name, ys))
       (map (fun '(col, s) => (col, map replace_inf (floats_of s))) cols)
  = Ok (map (fun '(col, s) => (col, map finite_entry (floats_of s))) cols).
Proof.
  induction cols as [|[col s] cols IH]; simpl; [reflexivity|].
  rewrite check_finite_replace_inf. simpl. rewrite IH. reflexivity.
Qed.

(** On a feature table the scaled frame has a closed form. *)
Lemma features_scaled_feature_table (df : DataFrame) :
  feature_table df = true ->
  features_scaled df =
    if Nat.eqb (index df) 0 then Raise (ValueError "Found array with 0 sample(s)")
    else match feature_columns df with
         | [] => Raise (ValueError "Found array with 0 feature(s)")
         | cols => Ok (map (fun '(col, s) => (col, scaled_of s)) cols)
         end.
Proof.
  intros H. apply feature_columns_numeric in H.
  unfold features_scaled, scorer_features. fold (feature_columns df).
  rewrite (scorer_features_numeric _ H). cbn [bind].
  unfold MinMaxScaler_fit_transform. rewrite check_columns. cbn [bind].
  destruct (Nat.eqb (index df) 0); [reflexivity|].
  destruct (feature_columns df) as [|[col s] cols]; [reflexivity|].
  cbn [map]. f_equal. f_equal.
  rewrite map_map. apply map_ext. intros [c t]. reflexivity.
Qed.

Lemma lookup_map {A B} (f : A -> B) (name : string) (cols : list (string * A)) :
  lookup name (map (fun '(col, s) => (col, f s)) cols)
  = option_map f (lookup name cols).
Proof.
  induction cols as [|[n c] cols IH]; simpl; [reflexivity|].
  destruct (String.eqb name n); [reflexivity | exact IH].
Qed.

Lemma lookup_feature_columns (df : DataFrame) (name : string) :
  lookup name (feature_columns df)
  = if String.eqb name "wallet_id" then None else lookup name (columns df).
Proof.
  unfold feature_columns. induction (columns df) as [|[n c] cols IH]; simpl.
  - now destruct (String.eqb name "wallet_id").
  - destruct (String.eqb_spec n "wallet_id") as [->|Hn]; simpl.
    + rewrite IH. destruct (String.eqb_spec name "wallet_id"); reflexivity.
    + destruct (String.eqb_spec name n) as [->|Hne].
      * destruct (String.eqb_spec n "wallet_id"); [contradiction | reflexivity].
      * exact IH.
Qed.

Lemma feature_column_names (df1 df2 : DataFrame) :
  column_names df1 = column_names df2 ->
  map fst (feature_columns df1) = map fst (feature_columns df2).
Proof.
  unfold column_names, feature_columns.
  generalize (columns df1) (columns df2).
  induction l as [|[n c] l IH]; intros [|[n' c'] l']; simpl; try discriminate; auto.
  intros [= -> H]. destruct (String.eqb n' "wallet_id"); simpl; [|f_equal]; auto.
Qed.

Section Agreement.

Variables fs1 fs2 : Frame (option Q).
Hypothesis agree : forall name, In name scored_columns -> lookup name fs1 = lookup name fs2.

Lemma in_frame_agree (name : string) :
  In name scored_columns -> in_frame name fs1 = in_frame name fs2.
Proof. intros H. unfold in_frame. now rewrite (agree _ H). Qed.

Lemma cell_agree (name : string) (i : nat) :
  In name scored_columns -> cell fs1 name i = cell fs2 name i.
Proof. intros H. unfold cell. now rewrite (agree _ H). Qed.

Lemma risk_score_agree (config : list string * Q) (i : nat) :
  (forall f, In f (fst config) -> In f scored_columns) ->
  risk_score fs1 config i = risk_score fs2 config i.
Proof.
  intros H. unfold risk_score.
  assert (E : filter (fun f => in_frame f fs1) (fst config)
              = filter (fun f => in_frame f fs2) (fst config)).
  { apply filter_ext_in. intros f Hf. apply in_frame_agree. auto. }
  rewrite E.
  destruct (filter (fun f => in_frame f fs2) (fst config)) as [|f rest] eqn:F;
    [reflexivity|].
  assert (M : map (fun g => cell fs1 g i) (f :: rest)
              = map (fun g => cell fs2 g i) (f :: rest)).
  { apply map_ext_in. intros g Hg. apply cell_agree. apply H.
    rewrite <- F in Hg. apply filter_In in Hg. tauto. }
  now rewrite M.
Qed.

Lemma base_score_agree (i : nat) : base_score fs1 i = base_score fs2 i.
Proof.
  unfold base_score. f_equal. apply map_ext_in. intros [name config] Hin.
  apply risk_score_agree. intros f Hf.
  unfold scored_columns. apply in_or_app. left.
  apply in_flat_map. exists (name, config). auto.
Qed.

Lemma adjust_agree (name : string) (threshold factor : Q) (i : nat) (score : Q) :
  In name scored_columns ->
  adjust fs1 name threshold factor i score = adjust fs2 name threshold factor i score.
Proof.
  intros H. unfold adjust. now rewrite (in_frame_agree _ H), (cell_agree _ _ H).
Qed.

Lemma adjusted_score_agree (i : nat) : adjusted_score fs1 i = adjusted_score fs2 i.
Proof.
  unfold adjusted_score. rewrite base_score_agree.
  rewrite !adjust_agree; [reflexivity | | |]; unfold scored_columns; simpl; tauto.
Qed.

End Agreement.

(** On a feature table with a row and a feature column the scorer returns
    one score per row. *)
Lemma calculate_advanced_risk_score_total (df : DataFrame) :
  feature_table df = true ->
  index df <> 0%nat ->
  feature_columns df <> [] ->
  exists scores,
    calculate_advanced_risk_score df = Ok scores
    /\ List.length scores = index df.
Proof.
  intros T Hn Hc. unfold calculate_advanced_risk_score.
  rewrite (features_scaled_feature_table df T).
  destruct (Nat.eqb_spec (index df) 0); [contradiction|].
  destruct (feature_columns df) as [|c cols]; [contradiction|].
  cbn [bind]. eexists. split; [reflexivity|].
  now rewrite length_map, length_seq.
Qed.

(** C10. Two feature tables with the same rows and the same column names
    that agree on the columns named in the five component lists and on
    [zero_value_ratio] get the same result from the base risk scorer,
    whatever their other columns hold. *)
Theorem score_reads_scored_columns_only (df1 df2 : DataFrame) :
  feature_table df1 = true ->
  feature_table df2 = true ->
  index df1 = index df2 ->
  column_names df1 = column_names df2 ->
  (forall name, In name scored_columns ->
                lookup name (columns df1) = lookup name (columns df2)) ->
  calculate_advanced_risk_score df1 = calculate_advanced_risk_score df2.
Proof.
  intros T1 T2 Hn Hnames Hagree.
  unfold calculate_advanced_risk_score.
  rewrite (features_scaled_feature_table df1 T1), (features_scaled_feature_table df2 T2).
  rewrite <- Hn. destruct (Nat.eqb (index df1) 0); [reflexivity|].
  assert (Hf := feature_column_names df1 df2 Hnames).
  assert (A : forall name, In name scored_columns ->
            lookup name (map (fun '(col, s) => (col, scaled_of s)) (feature_columns df1))
            = lookup name (map (fun '(col, s) => (col, scaled_of s)) (feature_columns df2))).
  { intros name Hin. rewrite !lookup_map, !lookup_feature_columns.
    destruct (String.eqb name "wallet_id"); [reflexivity|]. now rewrite (Hagree _ Hin). }
  destruct (feature_columns df1) as [|c1 l1] eqn:E1;
    destruct (feature_columns df2) as [|c2 l2] eqn:E2; try discriminate; [reflexivity|].
  cbn [bind]. f_equal. apply map_ext. intros i.
  now rewrite (adjusted_score_agree _ _ A i).
Qed.

(** ** ML refiner *)

Lemma lookup_assign_same {A} (name : string) (s : A) (cols : list (string * A)) :
  lookup name (assign name s cols) = Some s.
Proof.
  induction cols as [|[n c] cols IH]; simpl.
  - now rewrite String.eqb_refl.
  - destruct (String.eqb name n) eqn:E; simpl; rewrite E; [reflexivity | exact IH].
Qed.

Lemma lookup_assign_other {A} (name other : string) (s : A) (cols : list (string * A)) :
  name <> other -> lookup other (assign name s cols) = lookup other cols.
Proof.
  intros Hne. induction cols as [|[n c] cols IH]; simpl.
  - destruct (String.eqb_spec other name); [congruence | reflexivity].
  - destruct (String.eqb_spec name n) as [->|Hn]; simpl.
    + destruct (String.eqb_spec other n); [congruence | reflexivity].
    + destruct (String.eqb other n); [reflexivity | exact IH].
Qed.

Lemma setitem_Ok (df df' : DataFrame) (name : string) (s : Series) :
  setitem df name s = Ok df' ->
  series_length s = index df
  /\ index df' = index df
  /\ columns df' = assign name s (columns df).
Proof.
  unfold setitem. destruct (Nat.eqb_spec (series_length s) (index df)); [|discriminate].
  intros [= <-]. auto.
Qed.

Lemma dropna_floats_finite (qs : list Q) : dropna_floats (map Fin qs) = map Fin qs.
Proof.
  unfold dropna_floats. induction qs as [|q qs IH]; simpl; [reflexivity | now rewrite IH].
Qed.

Lemma fsum_finite (qs : list Q) (acc : Q) :
  exists s, fold_left fadd (map Fin qs) (Fin acc) = Fin s /\ s == acc + Qsum qs.
Proof.
  revert acc. induction qs as [|q qs IH]; intros acc; simpl.
  - exists acc. split; [reflexivity | ring].
  - destruct (IH (acc + q)) as (s & E & Hs). exists s. split; [exact E|].
    rewrite Hs. ring.
Qed.

(** The mean of a non-empty column of finite numbers is their mean. *)
Lemma series_mean_finite (qs : list Q) :
  qs <> [] -> exists m, series_mean (map Fin qs) = Fin m /\ m == Qmean qs.
Proof.
  intros Hne. unfold series_mean. rewrite dropna_floats_finite.
  destruct qs as [|q qs]; [contradiction|].
  destruct (fsum_finite (q :: qs) 0) as (s & E & Hs).
  cbn [map]. cbv zeta iota.
  change (Fin q :: map Fin qs) with (map Fin (q :: qs)).
  unfold fsum. rewrite E. rewrite length_map.
  unfold fdiv.
  assert (P : 0 < of_nat (List.length (q :: qs))) by (apply of_nat_pos; simpl; lia).
  destruct (Qeq_bool (of_nat (List.length (q :: qs))) 0) eqn:Z.
  - apply Qeq_bool_iff in Z. lra.
  - eexists. split; [reflexivity|]. unfold Qmean. rewrite Hs.
    assert (R : 0 + Qsum (q :: qs) == Qsum (q :: qs)) by ring. now rewrite R.
Qed.

Lemma group_values_map {A B} (f : A -> B) (labels : list Z) (xs : list A) (k : Z) :
  group_values labels (map f xs) k = map f (group_values labels xs k).
Proof.
  unfold group_values. revert xs.
  induction labels as [|l labels IH]; intros [|x xs]; simpl; try reflexivity.
  rewrite IH. destruct (Z.eqb l k); reflexivity.
Qed.

Lemma group_values_nonempty {A} (labels : list Z) (xs : list A) (k : Z) :
  (List.length labels <= List.length xs)%nat -> In k labels ->
  group_values labels xs k <> [].
Proof.
  unfold group_values. revert xs.
  induction labels as [|l labels IH]; intros [|x xs]; simpl; try tauto; try lia.
  intros Hlen [->|Hin].
  - rewrite Z.eqb_refl. discriminate.
  - destruct (Z.eqb l k); [discriminate|]. simpl. apply IH; [lia | exact Hin].
Qed.

Lemma group_values_In {A} (labels : list Z) (xs : list A) (k : Z) (x : A) :
  In x (group_values labels xs k) -> In x xs.
Proof.
  unfold group_values. revert xs.
  induction labels as [|l labels IH]; intros [|y xs]; simpl; try tauto.
  destruct (Z.eqb l k); simpl; intros H.
  - destruct H as [->|H]; auto.
  - auto.
Qed.




Section RefinerProperties.

Variable sqrt : Q -> Q.
Variable RandomState : Type.
Variable seed : Z -> RandomState.
Variable isolation_forest : Q -> nat -> RandomState -> list (list Q) -> list Z.
Variable kmeans : nat -> nat -> RandomState -> list (list Q) -> list Z.

(** The columns the refiner appends. *)
Lemma apply_ml_refinements_columns (g : RandomState) (df out : DataFrame) :
  apply_ml_refinements sqrt RandomState seed isolation_forest kmeans g df = Ok out ->
  exists labels base,
    numbers df "base_risk_score" = Ok base
    /\ List.length labels = index df
    /\ lookup "cluster" (columns out) = Some (Integer labels)
    /\ lookup "cluster_risk_adjustment" (columns out)
       = Some (Numeric (map (cluster_risk_adj labels base) labels)).
Proof.
  unfold apply_ml_refinements. intros H.
  bind_inv H as X HX. bind_inv H as X_scaled HXs. bind_inv H as df1 Hv1.
  bind_inv H as labels Hl. bind_inv H as df2 Hv3. bind_inv H as s Hv4.
  bind_inv H as base Hv5.
  apply setitem_Ok in Hv1. destruct Hv1 as (_ & I1 & C1).
  apply setitem_Ok in Hv3. destruct Hv3 as (L3 & I3 & C3).
  apply setitem_Ok in H. destruct H as (_ & _ & C).
  exists labels, base. split; [|split; [|split]].
  - unfold numbers, getitem. unfold getitem in Hv4.
    rewrite C3, C1 in Hv4.
    rewrite !lookup_assign_other in Hv4 by discriminate.
    destruct (lookup "base_risk_score" (columns df)); [|discriminate].
    injection Hv4 as ->. exact Hv5.
  - simpl in L3. rewrite L3, I1. reflexivity.
  - rewrite C, C3. rewrite lookup_assign_other by discriminate.
    apply lookup_assign_same.
  - rewrite C. apply lookup_assign_same.
Qed.


(** With a population mean of zero the quotient is 0/0: no number. *)
Lemma cluster_risk_adj_zero_population (labels : list Z) (bs : list Q) (k : Z) :
  Forall (fun b => b == 0) bs ->
  (List.length labels <= List.length bs)%nat ->
  In k labels ->
  cluster_risk_adj labels (map Fin bs) k = NaN.
Proof.
  intros Hz Hlen Hin. unfold cluster_risk_adj. rewrite group_values_map.
  assert (Z0 : forall l, Forall (fun b => b == 0) l -> Qsum l == 0).
  { induction 1 as [|b l Hb _ IH]; simpl; [reflexivity|]. rewrite Hb, IH. ring. }
  destruct (series_mean_finite (group_values labels bs k)) as (c & Ec & Hc).
  { now apply group_values_nonempty. }
  destruct (series_mean_finite bs) as (p & Ep & Hp).
  { intros ->. destruct labels; simpl in *; [tauto | lia]. }
  rewrite Ec, Ep. unfold fdiv.
  assert (P0 : p == 0).
  { rewrite Hp. unfold Qmean. rewrite (Z0 _ Hz). unfold Qdiv. ring. }
  assert (C0 : c == 0).
  { rewrite Hc. unfold Qmean. rewrite Z0; [unfold Qdiv; ring|].
    apply Forall_forall. intros x Hx. rewrite Forall_forall in Hz.
    apply Hz. eapply group_values_In; eauto. }
  apply Qeq_bool_iff in P0. rewrite P0.
  apply Qeq_alt in C0. now rewrite C0.
Qed.

End RefinerProperties.


(** ** Feature engine *)

Lemma mapM_In {A B} (f : A -> result B) (l : list A) (l' : list B) (y : B) :
  mapM f l = Ok l' -> In y l' -> exists x, In x l /\ f x = Ok y.
Proof.
  revert l'. induction l as [|a l IH]; intros l' H Hy; simpl in H.
  - injection H as <-. destruct Hy.
  - bind_inv H as b Hb. bind_inv H as bs Hbs. injection H as <-.
    destruct Hy as [<-|Hy].
    + exists a. split; [now left | exact Hb].
    + destruct (IH _ Hbs Hy) as (x & Hx & E). exists x. split; [now right | exact E].
Qed.

Lemma select_length_le {A} (mask : list bool) (xs : list A) (n : nat) :
  (List.length mask <= n)%nat ->
  (List.length (select mask xs) <= List.length (select mask (seq 0 n)))%nat.
Proof.
  generalize 0%nat as a. revert xs n.
  induction mask as [|b mask IH]; intros xs n a Hlen; simpl; [lia|].
  destruct n as [|n]; simpl in *; [lia|].
  destruct xs as [|x xs]; [destruct b; simpl; lia|].
  specialize (IH xs n (S a)). destruct b; simpl; lia.
Qed.

Lemma select_seq_filter (mask : list bool) (a n : nat) :
  select mask (seq a n) = filter (fun i => nth (i - a) mask false) (seq a n).
Proof.
  revert a n. induction mask as [|b mask IH]; intros a n.
  - simpl. induction (seq a n) as [|i l IHl]; simpl; [reflexivity|].
    destruct (i - a)%nat; exact IHl.
  - destruct n as [|n]; [reflexivity|].
    cbn [seq select filter]. rewrite Nat.sub_diag. cbn [nth].
    destruct b; [f_equal|]; rewrite IH; apply filter_ext_in; intros i Hi;
      apply in_seq in Hi; replace (i - a)%nat with (S (i - S a)) by lia; reflexivity.
Qed.

Lemma nth_firstn {A} (l : list A) (n i : nat) (d : A) :
  (i < n)%nat -> nth i (firstn n l) d = nth i l d.
Proof.
  revert n i. induction l as [|x l IH]; intros [|n] [|i] H; simpl; try lia; auto.
  apply IH. lia.
Qed.

Lemma nth_map_default {A B} (f : A -> B) (l : list A) (i : nat) (d : A) (e : B) :
  f d = e -> nth i (map f l) e = f (nth i l d).
Proof.
  intros <-. apply map_nth.
Qed.

(** The number of rows [df[df[name] == key]] selects. *)
Lemma len_select_rows (df : DataFrame) (name : string) (s : Series) (key : scalar) :
  lookup name (columns df) = Some s ->
  len (select_rows (eq_mask s key) df) = List.length (rows_where df name key).
Proof.
  intros Hs. unfold len, select_rows, rows_where. cbn [index].
  rewrite select_seq_filter, Hs. f_equal.
  apply filter_ext_in. intros i Hi. apply in_seq in Hi.
  rewrite Nat.sub_0_r, nth_firstn by lia.
  unfold eq_mask. now rewrite (nth_map_default _ _ _ None).
Qed.

Lemma lookup_has_column (name : string) (df : DataFrame) :
  has_column name df = match lookup name (columns df) with Some _ => true | None => false end.
Proof.
  unfold has_column, column_names.
  induction (columns df) as [|[n c] cols IH]; simpl; [reflexivity|].
  destruct (String.eqb name n); [reflexivity | exact IH].
Qed.

Lemma lookup_select_rows (mask : list bool) (df : DataFrame) (name : string) :
  lookup name (columns (select_rows mask df))
  = option_map (select_series (firstn (index df) mask)) (lookup name (columns df)).
Proof.
  unfold select_rows. cbn [columns]. apply lookup_map.
Qed.

Lemma rows_where_absent (df : DataFrame) (name : string) (key : scalar) :
  lookup name (columns df) = None -> rows_where df name key = [].
Proof.
  intros H. unfold rows_where. rewrite H.
  induction (seq 0 (index df)) as [|i l IH]; simpl; auto.
Qed.

Section FeatureEngineProperties.

Variable sqrt : Q -> Q.

(** What one round of the loop computes, read off its result. *)
Lemma wallet_features_inv (df : DataFrame) (col : string) (wallet : scalar) (f : features) :
  wallet_features sqrt df col wallet = Ok (Some f) ->
  exists key sent_txns received_txns,
    getitem df col = Ok key
    /\ received_txns
       = match lookup "to" (columns df) with
         | Some to => select_rows (eq_mask to wallet) df
         | None => empty_frame
         end
    /\ len (select_rows (eq_mask key wallet) df) <> 0%nat
    /\ wallet_id f = wallet
    /\ total_transactions f = len (select_rows (eq_mask key wallet) df)
    /\ sent_transactions f = len sent_txns
    /\ received_transactions f = len received_txns
    /\ send_receive_ratio f
       = of_nat (len sent_txns) / of_nat (Nat.max (len received_txns) 1)
    /\ (exists a b c d e,
          value_features sqrt (select_rows (eq_mask key wallet) df) sent_txns received_txns
          = Ok (a, b, c, d, value_std f, e))
    /\ temporal_features (select_rows (eq_mask key wallet) df)
       = Ok (avg_time_between_txns_hr f, activity_span_days f, transaction_frequency f).
Proof.
  unfold wallet_features. intros H.
  bind_inv H as key Hkey. bind_inv H as sent_txns Hsent.
  bind_inv H as received_txns Hrecv.
  destruct (Nat.eqb_spec (len (select_rows (eq_mask key wallet) df)) 0) as [|Hlen];
    [discriminate|].
  bind_inv H as vf Hvf. destruct vf as [[[[[a b] c] d] e] z].
  bind_inv H as gf Hgf. destruct gf as [[g1 g2] g3].
  bind_inv H as tf Htf. destruct tf as [[t1 t2] t3].
  bind_inv H as recipients Hr. bind_inv H as senders Hs.
  bind_inv H as ff Hff. destruct ff as [u1 u2].
  injection H as <-. cbn.
  exists key, sent_txns, received_txns.
  repeat split; try assumption; try reflexivity.
  - rewrite lookup_has_column in Hrecv. unfold getitem in Hrecv.
    destruct (lookup "to" (columns df)); cbn in Hrecv; congruence.
  - exists a, b, c, d, z. exact Hvf.
Qed.

Lemma wallet_features_list_In (df : DataFrame) (feats : list features) (f : features) :
  wallet_features_list sqrt df = Ok feats -> In f feats ->
  exists wallet, wallet_features sqrt df (wallet_column df) wallet = Ok (Some f).
Proof.
  unfold wallet_features_list. intros H Hin.
  bind_inv H as key Hkey. bind_inv H as rows Hrows. injection H as <-.
  apply in_flat_map in Hin. destruct Hin as ([g|] & Hg & Hf); simpl in Hf; [|tauto].
  destruct Hf as [->|[]].
  destruct (mapM_In _ _ _ _ Hrows Hg) as (wallet & _ & E). eauto.
Qed.

Lemma create_advanced_wallet_features_Ok (df out : DataFrame) :
  create_advanced_wallet_features sqrt df = Ok out ->
  exists feats, wallet_features_list sqrt df = Ok feats /\ out = DataFrame_of_records feats.
Proof.
  unfold create_advanced_wallet_features. intros H.
  bind_inv H as feats Hf. injection H as <-. eauto.
Qed.

End FeatureEngineProperties.

Lemma select_length_eq {A B} (mask : list bool) (xs : list A) (ys : list B) :
  List.length xs = List.length ys ->
  List.length (select mask xs) = List.length (select mask ys).
Proof.
  revert xs ys. induction mask as [|b mask IH]; intros [|x xs] [|y ys] H;
    simpl in *; try reflexivity; try discriminate.
  injection H as H. specialize (IH xs ys H). destruct b; simpl; lia.
Qed.

Lemma select_In {A} (mask : list bool) (xs : list A) (x : A) :
  In x (select mask xs) -> In x xs.
Proof.
  revert xs. induction mask as [|b mask IH]; intros [|y xs]; simpl; try tauto.
  destruct b; simpl; intros H.
  - destruct H as [->|H]; auto.
  - auto.
Qed.

Lemma series_length_select (mask : list bool) (s : Series) (n : nat) :
  (List.length mask <= n)%nat ->
  (series_length (select_series mask s) <= List.length (select mask (seq 0 n)))%nat.
Proof.
  intros H. destruct s; simpl; now apply select_length_le.
Qed.

Lemma to_floats_length (s : Series) (xs : list float) :
  to_floats s = Ok xs -> List.length xs = series_length s.
Proof.
  destruct s; simpl; intros [= <-]; try reflexivity; now rewrite length_map.
Qed.

(** A column of the selected rows has at most as many entries as rows. *)
Lemma numbers_select_rows_length (mask : list bool) (df : DataFrame) (name : string)
  (xs : list float) :
  numbers (select_rows mask df) name = Ok xs ->
  (List.length xs <= len (select_rows mask df))%nat.
Proof.
  unfold numbers, getitem. rewrite lookup_select_rows. intros H.
  destruct (lookup name (columns df)) as [s|]; [|discriminate].
  cbn in H. apply to_floats_length in H. rewrite H.
  unfold len, select_rows. cbn [index].
  apply series_length_select. rewrite length_firstn. lia.
Qed.

Lemma dropna_floats_length (xs : list float) :
  (List.length (dropna_floats xs) <= List.length xs)%nat.
Proof.
  unfold dropna_floats. induction xs as [|x xs IH]; simpl; [lia|].
  destruct (negb (isnan x)); simpl; lia.
Qed.

Lemma all_finite_length (xs : list float) (qs : list Q) :
  all_finite xs = Some qs -> List.length qs = List.length xs.
Proof.
  revert qs. induction xs as [|x xs IH]; intros qs; simpl.
  - intros [= <-]. reflexivity.
  - destruct x; try discriminate.
    destruct (all_finite xs) as [qs'|]; [|discriminate].
    intros [= <-]. simpl. f_equal. now apply IH.
Qed.

Section FeatureEngineDefaults.

Variable sqrt : Q -> Q.

(** The sample deviation of at most one value is missing. *)
Lemma series_std_single (xs : list float) :
  (List.length xs <= 1)%nat -> series_std sqrt xs = NaN.
Proof.
  intros H. unfold series_std.
  destruct (all_finite (dropna_floats xs)) as [qs|] eqn:E; [|reflexivity].
  apply all_finite_length in E.
  assert (L := dropna_floats_length xs).
  destruct (Nat.leb_spec (List.length qs) 1); [reflexivity | lia].
Qed.

(** C3 (code at the failing input). For a wallet with exactly one
    transaction the feature engine leaves [value_std] missing: the sample
    deviation of a single value is NaN, and no default is applied. *)
Theorem value_std_single_transaction (df out : DataFrame) :
  create_advanced_wallet_features sqrt df = Ok out ->
  exists feats,
    wallet_features_list sqrt df = Ok feats
    /\ out = DataFrame_of_records feats
    /\ forall f, In f feats -> total_transactions f = 1%nat -> value_std f = NaN.
Proof.
  intros H. destruct (create_advanced_wallet_features_Ok _ _ _ H) as (feats & Hl & ->).
  exists feats. split; [exact Hl|]. split; [reflexivity|].
  intros f Hin Hone. destruct (wallet_features_list_In _ _ _ _ Hl Hin) as (wallet & Hw).
  destruct (wallet_features_inv _ _ _ _ _ Hw)
    as (key & sent & recv & _ & _ & _ & _ & Et & _ & _ & _ & (a & b & c & d & e & Hv) & _).
  unfold value_features in Hv.
  bind_inv Hv as sv Hsv. bind_inv Hv as rv Hrv. bind_inv Hv as value Hvalue.
  injection Hv as _ _ _ _ <- _.
  apply series_std_single.
  apply numbers_select_rows_length in Hvalue. lia.
Qed.



End FeatureEngineDefaults.

(** ** Loader *)

Lemma assign_names {A} (name : string) (s : A) (cols : list (string * A)) :
  lookup name cols <> None -> map fst (assign name s cols) = map fst cols.
Proof.
  induction cols as [|[n c] cols IH]; simpl; [congruence|].
  destruct (String.eqb name n); simpl; [reflexivity|].
  intros H. f_equal. now apply IH.
Qed.

Lemma when_column_names (name : string) (f : Series -> result Series) (df df' : DataFrame) :
  when_column name f df = Ok df' -> column_names df' = column_names df.
Proof.
  unfold when_column, update_column, getitem.
  destruct (has_column name df); [|now intros [= <-]].
  destruct (lookup name (columns df)) eqn:E; cbn; [|discriminate].
  intros H. bind_inv H as s' Hs. injection H as <-.
  unfold column_names. cbn [columns]. apply assign_names. congruence.
Qed.

Lemma has_column_names (name : string) (df df' : DataFrame) :
  column_names df' = column_names df -> has_column name df' = has_column name df.
Proof.
  unfold has_column. now intros ->.
Qed.

Lemma lookup_select_columns (names : list string) (df : DataFrame) (name : string) :
  lookup name (columns (select_columns names df))
  = if existsb (String.eqb name) names then lookup name (columns df) else None.
Proof.
  unfold select_columns. cbn [columns].
  induction names as [|n names IH]; simpl; [reflexivity|].
  destruct (String.eqb_spec name n) as [->|Hne]; simpl.
  - destruct (lookup n (columns df)) as [s|] eqn:E; simpl.
    + now rewrite String.eqb_refl.
    + rewrite IH. now destruct (existsb (String.eqb n) names).
  - destruct (lookup n (columns df)) as [s|]; simpl; [|exact IH].
    destruct (String.eqb_spec name n); [contradiction | exact IH].
Qed.

Lemma dropna_subset_absent (name : string) (df : DataFrame) :
  has_column name df = false -> dropna_subset name df = Raise (KeyError name).
Proof.
  rewrite lookup_has_column. unfold dropna_subset, getitem.
  destruct (lookup name (columns df)); [discriminate | reflexivity].
Qed.

Section LoaderProperties.

Variable read_csv : string -> option DataFrame.
Variable parse_float : string -> option float.

(** Without a [value] column the loader raises on every table: the final
    [dropna(subset=['value'])] is not guarded. *)
Lemma load_without_value_raises (filepath : string) (df : DataFrame) :
  read_csv filepath = Some df ->
  has_column "value" df = false ->
  exists e, load_and_preprocess_data read_csv parse_float filepath = Raise e.
Proof.
  intros Hfile Hno. unfold load_and_preprocess_data. rewrite Hfile.
  set (df0 := select_columns _ df).
  assert (H0 : has_column "value" df0 = false).
  { rewrite lookup_has_column. unfold df0. rewrite lookup_select_columns.
    rewrite lookup_has_column in Hno.
    destruct (lookup "value" (columns df)); [discriminate|].
    now destruct (existsb _ _). }
  clearbody df0.
  repeat match goal with
  | |- exists e, bind (when_column ?n ?f ?d) _ = Raise e =>
      let E := fresh "E" in
      let d' := fresh "df" in
      destruct (when_column n f d) as [d'|err] eqn:E;
        [ cbn [bind];
          apply when_column_names in E;
          rewrite <- (has_column_names "value" _ _ E) in H0;
          clear E
        | cbn [bind]; eauto ]
  end.
  rewrite (dropna_subset_absent _ _ H0). eauto.
Qed.

Lemma when_column_total (name : string) (f : Series -> result Series) (df : DataFrame) :
  (forall s, lookup name (columns df) = Some s -> exists s', f s = Ok s') ->
  exists df', when_column name f df = Ok df'.
Proof.
  intros Hf. unfold when_column, update_column, getitem.
  destruct (has_column name df) eqn:Hc; [|eauto].
  rewrite lookup_has_column in Hc.
  destruct (lookup name (columns df)) as [s|]; [|discriminate].
  destruct (Hf s eq_refl) as (s' & E). cbn [bind]. rewrite E. cbn [bind]. eauto.
Qed.

(** With a [value] column, and timestamps that convert, the loader
    returns a table whatever other columns are absent. *)
Lemma load_with_value_returns (filepath : string) (df : DataFrame) :
  read_csv filepath = Some df ->
  has_column "value" df = true ->
  (forall s, lookup "timeStamp" (columns df) = Some s ->
             exists s', to_datetime parse_float s = Ok s') ->
  exists out, load_and_preprocess_data read_csv parse_float filepath = Ok out.
Proof.
  intros Hfile Hval Htime. unfold load_and_preprocess_data. rewrite Hfile.
  set (names := filter (fun col => has_column col df) relevant_columns).
  assert (Hin : forall name, existsb (String.eqb name) names = true ->
                             lookup name (columns (select_columns names df))
                             = lookup name (columns df)).
  { intros name E. now rewrite lookup_select_columns, E. }
  assert (H0 : has_column "value" (select_columns names df) = true).
  { rewrite lookup_has_column, lookup_select_columns.
    replace (existsb (String.eqb "value") names) with true.
    - now rewrite <- lookup_has_column.
    - symmetry. apply existsb_exists. exists "value". split; [|reflexivity].
      apply filter_In. split; [simpl; tauto | exact Hval]. }
  assert (T : exists df1,
             when_column "timeStamp" (to_datetime parse_float) (select_columns names df)
             = Ok df1).
  { apply when_column_total. intros s Hs. apply Htime.
    rewrite lookup_select_columns in Hs.
    destruct (existsb (String.eqb "timeStamp") names); [exact Hs | discriminate]. }
  generalize dependent (select_columns names df). intros df0 _ H0 (df1 & E).
  rewrite E. cbn [bind].
  apply when_column_names in E. rewrite <- (has_column_names "value" _ _ E) in H0.
  clear E df0.
  repeat match goal with
  | |- exists out, bind (when_column ?n ?f ?d) _ = Ok out =>
      let E := fresh "E" in
      let d' := fresh "df" in
      destruct (when_column_total n f d) as (d' & E);
        [ intros; unfold to_numeric, fill_with; eauto
        | rewrite E; cbn [bind];
          apply when_column_names in E;
          rewrite <- (has_column_names "value" _ _ E) in H0;
          clear E ]
  end.
  unfold dropna_subset, getitem. rewrite lookup_has_column in H0.
  destruct (lookup "value" (columns _)); [cbn; eauto | discriminate].
Qed.

End LoaderProperties.

(** C2 (code at the failing input). A stored table that has no [value]
    column makes the loader raise [KeyError('value')]: the conversion of
    the column is guarded by a test for its presence, the removal of the
    rows without a value is not. *)
Theorem load_without_value_column :
  has_column "value" example_no_value = false
  /\ load_and_preprocess_data example_files parse_nothing "data/transactions.csv"
     = Raise (KeyError "value").
Proof.
  split; vm_compute; reflexivity.
Qed.

(** ** The feature engine returns on cleaned tables *)

Lemma mapM_total {A B} (f : A -> result B) (l : list A) :
  (forall x, In x l -> exists y, f x = Ok y) -> exists l', mapM f l = Ok l'.
Proof.
  induction l as [|a l IH]; intros H; simpl; [eauto|].
  destruct (H a (or_introl eq_refl)) as (b & ->).
  destruct IH as (bs & ->); [intros x Hx; apply H; now right|].
  cbn. eauto.
Qed.

Lemma is_numeric_select (mask : list bool) (s : Series) :
  is_numeric (select_series mask s) = is_numeric s.
Proof. now destruct s. Qed.

Lemma is_datetime_select (mask : list bool) (s : Series) :
  is_datetime (select_series mask s) = is_datetime s.
Proof. now destruct s. Qed.

Lemma select_map {A B} (f : A -> B) (mask : list bool) (xs : list A) :
  select mask (map f xs) = map f (select mask xs).
Proof.
  revert xs. induction mask as [|b mask IH]; intros [|x xs]; simpl; try reflexivity.
  rewrite IH. now destruct b.
Qed.

Lemma values_select (mask : list bool) (s : Series) :
  values (select_series mask s) = select mask (values s).
Proof.
  destruct s; simpl; try reflexivity; now rewrite select_map.
Qed.

Lemma no_missing_select (mask : list bool) (s : Series) :
  no_missing s = true -> no_missing (select_series mask s) = true.
Proof.
  unfold no_missing. rewrite values_select, !forallb_forall.
  intros H x Hx. apply H. eapply select_In; eauto.
Qed.

Lemma series_length_values (s : Series) : series_length s = List.length (values s).
Proof.
  destruct s; simpl; try reflexivity; now rewrite length_map.
Qed.

Lemma column_is_select (name : string) (ok : Series -> bool) (mask : list bool)
  (df : DataFrame) :
  (forall m s, ok s = true -> ok (select_series m s) = true) ->
  column_is name ok df = true -> column_is name ok (select_rows mask df) = true.
Proof.
  intros Hok. unfold column_is. rewrite lookup_select_rows.
  destruct (lookup name (columns df)); simpl; [apply Hok | discriminate].
Qed.

Lemma column_if_any_select (name : string) (ok : Series -> bool) (mask : list bool)
  (df : DataFrame) :
  (forall m s, ok s = true -> ok (select_series m s) = true) ->
  column_if_any name ok df = true -> column_if_any name ok (select_rows mask df) = true.
Proof.
  intros Hok. unfold column_if_any. rewrite lookup_select_rows.
  destruct (lookup name (columns df)); simpl; [apply Hok | reflexivity].
Qed.

Lemma numeric_stable (m : list bool) (s : Series) :
  is_numeric s = true -> is_numeric (select_series m s) = true.
Proof. now rewrite is_numeric_select. Qed.

Lemma datetime_stable (m : list bool) (s : Series) :
  is_datetime s = true -> is_datetime (select_series m s) = true.
Proof. now rewrite is_datetime_select. Qed.

Lemma any_stable (m : list bool) (s : Series) :
  (fun _ : Series => true) s = true -> (fun _ : Series => true) (select_series m s) = true.
Proof. reflexivity. Qed.

(** Selecting rows of a cleaned table gives a cleaned table. *)
Lemma cleaned_select_rows (mask : list bool) (df : DataFrame) :
  cleaned_table df = true -> cleaned_table (select_rows mask df) = true.
Proof.
  unfold cleaned_table. rewrite !andb_true_iff.
  intros (((((((H1 & H2) & H3) & H4) & H5) & H6) & H7) & H8).
  repeat split.
  - now apply column_is_select.
  - now apply column_is_select.
  - apply column_is_select; [apply numeric_stable | exact H3].
  - apply column_is_select; [apply datetime_stable | exact H4].
  - apply column_if_any_select; [apply numeric_stable | exact H5].
  - apply column_if_any_select; [apply numeric_stable | exact H6].
  - apply column_if_any_select; [apply numeric_stable | exact H7].
  - apply column_if_any_select; [apply no_missing_select | exact H8].
Qed.

Lemma column_is_getitem (name : string) (ok : Series -> bool) (df : DataFrame) :
  column_is name ok df = true ->
  exists s, getitem df name = Ok s /\ ok s = true /\ has_column name df = true.
Proof.
  unfold column_is, getitem. rewrite lookup_has_column.
  destruct (lookup name (columns df)) as [s|]; [eauto | discriminate].
Qed.

Lemma numbers_numeric (name : string) (df : DataFrame) :
  column_is name is_numeric df = true -> exists xs, numbers df name = Ok xs.
Proof.
  intros H. destruct (column_is_getitem _ _ _ H) as (s & Hs & Hn & _).
  unfold numbers. rewrite Hs. cbn [bind]. rewrite (to_floats_numeric s Hn). eauto.
Qed.

Lemma numbers_if_any (name : string) (df : DataFrame) :
  column_if_any name is_numeric df = true ->
  has_column name df = true ->
  exists xs, numbers df name = Ok xs.
Proof.
  unfold column_if_any. rewrite lookup_has_column. intros H Hc.
  apply numbers_numeric. unfold column_is.
  destruct (lookup name (columns df)); [exact H | discriminate].
Qed.

Lemma cleaned_parts (df : DataFrame) :
  cleaned_table df = true ->
  column_is "from" (fun _ => true) df = true
  /\ column_is "to" (fun _ => true) df = true
  /\ column_is "value" is_numeric df = true
  /\ column_is "timeStamp" is_datetime df = true
  /\ column_if_any "gasUsed" is_numeric df = true
  /\ column_if_any "gasPrice" is_numeric df = true
  /\ column_if_any "isError" is_numeric df = true
  /\ column_if_any "functionName" no_missing df = true.
Proof.
  unfold cleaned_table. rewrite !andb_true_iff. tauto.
Qed.

Lemma gas_features_total (df : DataFrame) :
  cleaned_table df = true -> exists r, gas_features df = Ok r.
Proof.
  intros H. destruct (cleaned_parts _ H) as (_ & _ & _ & _ & G1 & G2 & G3 & _).
  unfold gas_features.
  destruct (has_column "gasUsed" df) eqn:E1; [|cbn; eauto].
  destruct (has_column "gasPrice" df) eqn:E2; [|cbn; eauto].
  cbn [andb].
  destruct (numbers_if_any _ _ G1 E1) as (gu & ->).
  destruct (numbers_if_any _ _ G2 E2) as (gp & ->). cbn [bind].
  destruct (has_column "isError" df) eqn:E3.
  - destruct (numbers_if_any _ _ G3 E3) as (ie & ->). cbn. eauto.
  - cbn. eauto.
Qed.

Lemma temporal_features_total (df : DataFrame) :
  cleaned_table df = true -> exists r, temporal_features df = Ok r.
Proof.
  intros H. destruct (cleaned_parts _ H) as (_ & _ & _ & T & _).
  unfold temporal_features. destruct (Nat.ltb 1 (len df)); [|eauto].
  destruct (column_is_getitem _ _ _ T) as (s & Hs & Hd & _).
  unfold timestamps. rewrite Hs. cbn [bind].
  destruct s; try discriminate. cbn. eauto.
Qed.

Lemma nunique_if_any_total (df : DataFrame) (name : string) :
  has_column name df = true \/ len df = 0%nat ->
  exists n, nunique_if_any df name = Ok n.
Proof.
  unfold nunique_if_any, getitem. rewrite lookup_has_column. intros [H|H].
  - destruct (Nat.ltb 0 (len df)); [|eauto].
    destruct (lookup name (columns df)); [cbn; eauto | discriminate].
  - rewrite H. cbn. eauto.
Qed.

Lemma unique_nonempty (l : list scalar) : l <> [] -> unique l <> [].
Proof.
  destruct l; [contradiction | discriminate].
Qed.

Lemma dropna_present (l : list (option scalar)) :
  forallb notna l = true -> l <> [] -> dropna l <> [].
Proof.
  destruct l as [|[x|] l]; simpl; try discriminate; contradiction.
Qed.

Lemma top_share_total (s : Series) :
  no_missing s = true -> series_length s <> 0%nat -> exists q, top_share s = Ok q.
Proof.
  intros Hn Hl. unfold top_share.
  assert (N : unique (dropna (values s)) <> []).
  { apply unique_nonempty, dropna_present; [exact Hn|].
    rewrite series_length_values in Hl. now destruct (values s). }
  destruct (unique (dropna (values s))); [contradiction | eauto].
Qed.

Lemma function_features_total (df : DataFrame) :
  cleaned_table df = true -> exists r, function_features df = Ok r.
Proof.
  intros H. destruct (cleaned_parts _ H) as (_ & _ & _ & _ & _ & _ & _ & F).
  unfold function_features, getitem. rewrite lookup_has_column.
  unfold column_if_any in F.
  destruct (lookup "functionName" (columns df)) as [s|]; [|eauto].
  cbn [bind]. destruct (Nat.eqb_spec (series_length s) 0); [eauto|].
  destruct (top_share_total s F) as (q & ->); [assumption|]. cbn. eauto.
Qed.

Section FeatureEngineTotal.

Variable sqrt : Q -> Q.

Lemma value_features_total (wallet_txns sent_txns received_txns : DataFrame) :
  cleaned_table wallet_txns = true ->
  cleaned_table sent_txns = true ->
  cleaned_table received_txns = true ->
  exists r, value_features sqrt wallet_txns sent_txns received_txns = Ok r.
Proof.
  intros H1 H2 H3. unfold value_features.
  destruct (cleaned_parts _ H1) as (_ & _ & V1 & _).
  destruct (cleaned_parts _ H2) as (_ & _ & V2 & _).
  destruct (cleaned_parts _ H3) as (_ & _ & V3 & _).
  destruct (numbers_numeric _ _ V2) as (sv & ->).
  destruct (numbers_numeric _ _ V3) as (rv & ->).
  destruct (numbers_numeric _ _ V1) as (v & ->).
  cbn. eauto.
Qed.

Lemma wallet_features_total (df : DataFrame) (col : string) (wallet : scalar) :
  cleaned_table df = true ->
  has_column col df = true ->
  exists r, wallet_features sqrt df col wallet = Ok r.
Proof.
  intros Hc Hcol. unfold wallet_features, getitem.
  rewrite lookup_has_column in Hcol.
  destruct (lookup col (columns df)) as [key|]; [|discriminate]. cbn [bind].
  set (wallet_txns := select_rows (eq_mask key wallet) df).
  assert (Hw : cleaned_table wallet_txns = true) by now apply cleaned_select_rows.
  destruct (cleaned_parts _ Hw) as (Fw & _).
  destruct (column_is_getitem _ _ _ Fw) as (from & Hfrom & _ & Hhas).
  rewrite Hhas. unfold getitem in Hfrom.
  destruct (lookup "from" (columns wallet_txns)) as [from'|]; [|discriminate].
  cbn [bind]. injection Hfrom as ->.
  set (sent_txns := select_rows (eq_mask from wallet) wallet_txns).
  assert (Hs : cleaned_table sent_txns = true) by now apply cleaned_select_rows.
  destruct (cleaned_parts _ Hc) as (_ & Tdf & _).
  destruct (column_is_getitem _ _ _ Tdf) as (to & Hto & _ & Hhasto).
  rewrite Hhasto. unfold getitem in Hto.
  destruct (lookup "to" (columns df)) as [to'|]; [|discriminate].
  cbn [bind]. injection Hto as ->.
  set (received_txns := select_rows (eq_mask to wallet) df).
  assert (Hr : cleaned_table received_txns = true) by now apply cleaned_select_rows.
  destruct (Nat.eqb (len wallet_txns) 0); [eauto|].
  destruct (value_features_total _ _ _ Hw Hs Hr) as ([[[[[a b] c] d] e] z] & ->).
  cbn [bind].
  destruct (gas_features_total _ Hw) as ([[g1 g2] g3] & ->). cbn [bind].
  destruct (temporal_features_total _ Hw) as ([[t1 t2] t3] & ->). cbn [bind].
  destruct (nunique_if_any_total sent_txns "to") as (n1 & ->).
  { left. destruct (cleaned_parts _ Hs) as (_ & T & _).
    destruct (column_is_getitem _ _ _ T) as (? & _ & _ & E). exact E. }
  cbn [bind].
  destruct (nunique_if_any_total received_txns "from") as (n2 & ->).
  { left. destruct (cleaned_parts _ Hr) as (T & _).
    destruct (column_is_getitem _ _ _ T) as (? & _ & _ & E). exact E. }
  cbn [bind].
  destruct (function_features_total _ Hw) as ([u1 u2] & ->). cbn [bind].
  eauto.
Qed.

(** On a cleaned table the feature engine returns a feature table. *)
Lemma create_advanced_wallet_features_total (df : DataFrame) :
  cleaned_table df = true ->
  exists out, create_advanced_wallet_features sqrt df = Ok out.
Proof.
  intros Hc. unfold create_advanced_wallet_features, wallet_features_list.
  assert (Hcol : has_column (wallet_column df) df = true).
  { unfold wallet_column. rewrite lookup_has_column.
    destruct (lookup "wallet_address" (columns df)) as [s|] eqn:E.
    - destruct (existsb notna (values s)); [now rewrite E|].
      destruct (cleaned_parts _ Hc) as (F & _). unfold column_is in F.
      now destruct (lookup "from" (columns df)).
    - destruct (cleaned_parts _ Hc) as (F & _). unfold column_is in F.
      now destruct (lookup "from" (columns df)). }
  unfold getitem. pose proof Hcol as Hcol'. rewrite lookup_has_column in Hcol'.
  destruct (lookup (wallet_column df) (columns df)) as [key|]; [|discriminate].
  cbn [bind].
  destruct (mapM_total (wallet_features sqrt df (wallet_column df))
              (unique (dropna (values key)))) as (rows & ->).
  { intros wallet _. now apply wallet_features_total. }
  cbn. eauto.
Qed.

End FeatureEngineTotal.

(** ** The theorems at the example tables *)


Lemma score_reads_scored_columns_only_witness :
  calculate_advanced_risk_score example_boosted
  = calculate_advanced_risk_score example_boosted_variant.
Proof.
  apply score_reads_scored_columns_only; try reflexivity.
  intros name Hin. simpl in Hin.
  repeat (destruct Hin as [<-|Hin]; [reflexivity|]). contradiction.
Defined.


Lemma value_std_single_transaction_witness :
  create_advanced_wallet_features sqrt_stand_in example_transactions
  = Ok example_transactions_features
  /\ lookup "total_transactions" (columns example_transactions_features)
     = Some (Integer [2; 1; 1]%Z)
  /\ (exists v, lookup "value_std" (columns example_transactions_features)
                = Some (Numeric [Fin v; NaN; NaN]))
  /\ exists feats,
       wallet_features_list sqrt_stand_in example_transactions = Ok feats
       /\ forall f, In f feats -> total_transactions f = 1%nat -> value_std f = NaN.
Proof.
  assert (E : create_advanced_wallet_features sqrt_stand_in example_transactions
              = Ok example_transactions_features) by (vm_compute; reflexivity).
  split; [exact E|]. split; [reflexivity|]. split; [eexists; reflexivity|].
  destruct (value_std_single_transaction sqrt_stand_in example_transactions _ E)
    as (feats & Hl & _ & Hall).
  exists feats. split; [exact Hl | exact Hall].
Defined.

(** The wallet [0xa1] of the tagged table has no incoming transaction in
    its own partition, and one in the whole table. *)
Example received_counts_other_partitions :
  lookup "received_transactions" (columns example_tagged_features)
  = Some (Integer [1; 0]%Z)
  /\ lookup "send_receive_ratio" (columns example_tagged_features)
     = Some (Numeric [Fin 1; Fin 1]).
Proof.
  split; reflexivity.
Qed.

(** A population whose base scores are all 0 gets no number at all as
    cluster adjustment, whatever the clusters are. *)
Example zero_population_adjustment :
  map (cluster_risk_adj [0; 1; 1; 2; 0]%Z (map Fin [0; 0; 0; 0; 0])) [0; 1; 1; 2; 0]%Z
  = [NaN; NaN; NaN; NaN; NaN].
Proof.
  reflexivity.
Qed.

(** The base scores of the example population are those the scorer gives
    its feature table. *)
Example example_population_scores :
  exists scores,
    calculate_advanced_risk_score example_features = Ok scores
    /\ Forall2 Qeq scores [0; 50; 100; 150; 200].
Proof.
  eexists. split; [vm_compute; reflexivity|].
  repeat constructor; reflexivity.
Qed.

(** * Further properties *)

(** ** The collector *)

(** What the loop does with one reply, by the kind of reply. *)
Lemma full_page_step (wallet_address : scalar) (page : nat)
  (get : scalar -> nat -> response) (net : network) (acc : list object) :
  full_page (get wallet_address page) = true ->
  fetch_pages wallet_address page (get :: net) acc
  = fetch_pages wallet_address (S page) net
      (acc ++ page_transactions (get wallet_address page))%list.
Proof.
  cbn [fetch_pages]. unfold full_page, page_transactions, page_of.
  destruct (get wallet_address page) as [|[| | | |members]]; try discriminate.
  cbn [subscript].
  destruct (lookup "status" members) as [status|]; [|discriminate].
  destruct (lookup "result" members) as [[| | |transactions|]|];
    try discriminate; try (destruct (equals_one status); discriminate).
  destruct (equals_one status); [|discriminate].
  intros H. apply negb_true_iff in H. now rewrite H.
Qed.

Lemma short_page_step (wallet_address : scalar) (page : nat)
  (get : scalar -> nat -> response) (net : network) (acc : list object) :
  full_page (get wallet_address page) = false ->
  fetch_pages wallet_address page (get :: net) acc
  = Some (match line_47_raises (get wallet_address page) with
          | Some e => Raise e
          | None => Ok ((acc ++ page_transactions (get wallet_address page))%list, net)
          end).
Proof.
  cbn [fetch_pages]. unfold full_page, page_transactions, page_of, line_47_raises.
  destruct (get wallet_address page) as [|data];
    [intros _; cbn; now rewrite app_nil_r|].
  destruct data as [[s|x|t]| |b|items|members]; cbn [subscript]; try reflexivity.
  destruct (lookup "status" members) as [status|]; [|reflexivity].
  destruct (equals_one status);
    [|intros _; destruct (lookup "result" members) as [[| | | |]|]; now rewrite app_nil_r].
  destruct (lookup "result" members) as [[| | |transactions|]|];
    try (intros _; now rewrite ?app_nil_r).
  intros H. apply negb_false_iff in H. now rewrite H.
Qed.

Lemma fetch_pages_full_prefix (wallet_address : scalar) (prefix : network)
  (last : scalar -> nat -> response) (rest : network) :
  forall (page : nat) (acc : list object),
    forallb full_page (replies_from wallet_address page prefix) = true ->
    full_page (last wallet_address (page + List.length prefix)%nat) = false ->
    fetch_pages wallet_address page (prefix ++ last :: rest)%list acc
    = Some (match line_47_raises (last wallet_address (page + List.length prefix)%nat) with
            | Some e => Raise e
            | None =>
                Ok ((acc ++ flat_map page_transactions
                              (replies_from wallet_address page (prefix ++ [last])))%list,
                    rest)
            end).
Proof.
  induction prefix as [|get prefix IH]; intros page acc Hfull Hlast.
  - cbn [List.length] in *. rewrite Nat.add_0_r in *.
    cbn [app replies_from flat_map]. rewrite app_nil_r.
    now apply short_page_step.
  - cbn [replies_from forallb] in Hfull. apply andb_true_iff in Hfull.
    destruct Hfull as [Hget Hfull].
    cbn [List.length] in *. rewrite Nat.add_succ_r in *.
    cbn [app replies_from flat_map].
    rewrite (full_page_step _ _ _ _ _ Hget).
    rewrite (IH (S page) _ Hfull Hlast).
    destruct (line_47_raises _); [reflexivity|]. now rewrite app_assoc.
Qed.

(** X1. [fetch_all_transactions] asks for the pages 1, 2, ... in turn as
    long as the replies are full pages and stops at the first reply that
    is not, without a further request.  If line 47 raises on that reply
    (a body that is no dictionary, that has no status, or that has the
    status ["1"] and no result) the exception leaves the function;
    otherwise (a short page, another status, a result that is no list, a
    failed request) it returns the transactions of all the pages it
    received. *)
Theorem fetch_all_transactions_pages (wallet_address : scalar) (prefix : network)
  (last : scalar -> nat -> response) (rest : network) :
  forallb full_page (replies_from wallet_address 1 prefix) = true ->
  full_page (last wallet_address (S (List.length prefix))) = false ->
  fetch_all_transactions wallet_address (prefix ++ last :: rest)%list
  = Some (match line_47_raises (last wallet_address (S (List.length prefix))) with
          | Some e => Raise e
          | None =>
              Ok (flat_map page_transactions
                    (replies_from wallet_address 1 (prefix ++ [last])%list),
                  rest)
          end).
Proof.
  intros Hfull Hlast. unfold fetch_all_transactions.
  now rewrite (fetch_pages_full_prefix wallet_address prefix last rest 1 [] Hfull Hlast).
Qed.

Lemma fetch_pages_ends (wallet_address : scalar) (net : network) :
  forall (page : nat) (acc : list object),
    match first_short (replies_from wallet_address page net) with
    | None => fetch_pages wallet_address page net acc = None
    | Some r =>
        match line_47_raises r with
        | Some e => fetch_pages wallet_address page net acc = Some (Raise e)
        | None => exists txs net', fetch_pages wallet_address page net acc = Some (Ok (txs, net'))
        end
    end.
Proof.
  unfold first_short.
  induction net as [|get net IH]; intros page acc; cbn [replies_from find]; [reflexivity|].
  destruct (full_page (get wallet_address page)) eqn:Hfull; cbn [negb].
  - rewrite (full_page_step _ _ _ _ _ Hfull). apply IH.
  - rewrite (short_page_step _ _ _ _ _ Hfull).
    destruct (line_47_raises (get wallet_address page)); [reflexivity | eauto].
Qed.

Lemma first_short_none (replies : list response) :
  first_short replies = None <-> forallb full_page replies = true.
Proof.
  unfold first_short. induction replies as [|r replies IH]; cbn [find forallb]; [tauto|].
  destruct (full_page r); cbn [negb andb]; [exact IH | split; discriminate].
Qed.

(** X2. [fetch_all_transactions] ends at the first reply that is not a
    full page: it is left waiting for the network exactly when every reply
    the network has to give is a full page; it raises exactly when line 47
    raises on the first reply that is not a full page, and that exception;
    and it returns exactly when line 47 does not raise on that reply. *)
Theorem fetch_all_transactions_returns (wallet_address : scalar) (net : network) :
  (fetch_all_transactions wallet_address net = None
   <-> forallb full_page (replies_from wallet_address 1 net) = true)
  /\ (forall e,
        fetch_all_transactions wallet_address net = Some (Raise e)
        <-> exists r, first_short (replies_from wallet_address 1 net) = Some r
                      /\ line_47_raises r = Some e)
  /\ ((exists txs net', fetch_all_transactions wallet_address net = Some (Ok (txs, net')))
      <-> exists r, first_short (replies_from wallet_address 1 net) = Some r
                    /\ line_47_raises r = None).
Proof.
  unfold fetch_all_transactions.
  pose proof (fetch_pages_ends wallet_address net 1 []) as H.
  rewrite <- first_short_none.
  destruct (first_short (replies_from wallet_address 1 net)) as [r|].
  - destruct (line_47_raises r) as [e|] eqn:Hr.
    + rewrite H. split; [split; discriminate|]. split.
      * intros e'. split.
        -- intros E. injection E as <-. eauto.
        -- intros (r' & E & Hr'). injection E as <-. congruence.
      * split.
        -- intros (txs & net' & E). discriminate.
        -- intros (r' & E & Hr'). injection E as <-. congruence.
    + destruct H as (txs & net' & H). rewrite H. split; [split; discriminate|]. split.
      * intros e'. split; [discriminate|].
        intros (r' & E & Hr'). injection E as <-. congruence.
      * split; eauto.
  - rewrite H. split; [tauto|]. split.
    + intros e. split; [discriminate | intros (r & E & _); discriminate].
    + split; [intros (txs & net' & E); discriminate | intros (r & E & _); discriminate].
Qed.

Section CollectorProperties.

Variable lower : string -> string.
Variable wallets_csv : string -> option DataFrame.

Lemma tag_tagged (address : scalar) (tx : object) (row : dict) :
  tag lower address tx = Ok (Some row) ->
  tagged_row lower address row
  /\ exists members,
       tx = PyDict members
       /\ forall key, key <> "wallet_address" -> key <> "protocol_version" ->
                      lookup key row = lookup key members.
Proof.
  unfold tag. intros H. bind_inv H as to Hto.
  destruct (is_compound lower to) eqn:Hc; [|discriminate].
  destruct tx as [| | | |members]; try discriminate.
  injection H as <-. split.
  - exists to. split; [|split; [|split]].
    + unfold to_address in *.
      rewrite !lookup_assign_other by discriminate. exact Hto.
    + unfold is_compound in Hc. apply existsb_exists in Hc.
      destruct Hc as (c & Hin & E). apply String.eqb_eq in E. now subst.
    + rewrite lookup_assign_other by discriminate. apply lookup_assign_same.
    + apply lookup_assign_same.
  - exists members. split; [reflexivity|].
    intros key H1 H2. rewrite !lookup_assign_other by congruence. reflexivity.
Qed.

Lemma tag_all_tagged (address : scalar) (wallet_txs : list object) (rows : list dict) :
  tag_all lower address wallet_txs = Ok rows ->
  Forall (tagged_row lower address) rows.
Proof.
  revert rows. induction wallet_txs as [|tx rest IH]; intros rows H; simpl in H.
  - injection H as <-. constructor.
  - bind_inv H as tagged Ht. bind_inv H as others Ho. injection H as <-.
    specialize (IH _ Ho). destruct tagged as [row|]; [|exact IH].
    constructor; [|exact IH]. now apply (tag_tagged address tx).
Qed.

Lemma collect_tagged (all : list scalar) (wallet_addresses : list scalar) :
  forall (net net' : network) (acc rows : list dict),
    (forall a, In a wallet_addresses -> In a all) ->
    collect lower wallet_addresses net acc = Some (Ok (rows, net')) ->
    Forall (fun row => exists a, In a all /\ tagged_row lower a row) acc ->
    Forall (fun row => exists a, In a all /\ tagged_row lower a row) rows.
Proof.
  induction wallet_addresses as [|address rest IH]; intros net net' acc rows Hsub H Hacc;
    simpl in H.
  - injection H as <- _. exact Hacc.
  - destruct (fetch_all_transactions address net) as [[[wallet_txs net1]|e]|];
      try discriminate.
    destruct (tag_all lower address wallet_txs) as [tagged|e] eqn:Ht; [|discriminate].
    apply tag_all_tagged in Ht.
    apply (IH net1 net' (acc ++ tagged)%list rows); [| exact H |].
    + intros a Ha. apply Hsub. now right.
    + apply Forall_app. split; [exact Hacc|].
      eapply Forall_impl; [|exact Ht].
      intros row Hr. exists address. split; [apply Hsub; now left | exact Hr].
Qed.

(** X3. When [main] writes its output file, the file is not empty and
    every row in it was sent to one of the four Compound contracts (by its
    lower-cased [to]), carries in [wallet_address] one of the wallets of the
    input file, and carries the protocol version ["V2"] when the recipient
    is the comptroller and ["V3"] otherwise. *)
Theorem main_rows_tagged (net net' : network) (rows : list dict) :
  main lower wallets_csv net = Some (Ok (Some rows, net')) ->
  rows <> []
  /\ exists wallets_df ids,
       wallets_csv INPUT_WALLETS_FILE = Some wallets_df
       /\ getitem wallets_df "wallet_id" = Ok ids
       /\ Forall (fun row => exists address,
                              In address (tolist ids) /\ tagged_row lower address row)
                  rows.
Proof.
  unfold main. intros H.
  destruct (wallets_csv INPUT_WALLETS_FILE) as [wallets_df|] eqn:Hf; [|discriminate].
  destruct (getitem wallets_df "wallet_id") as [ids|e] eqn:Hg; [|discriminate].
  destruct (collect lower (tolist ids) net []) as [[[all net1]|e]|] eqn:Hc;
    try discriminate.
  destruct all as [|row all]; [discriminate|].
  injection H as <- <-. split; [discriminate|].
  exists wallets_df, ids. split; [reflexivity|]. split; [exact Hg|].
  apply (collect_tagged (tolist ids) (tolist ids) net net1 [] (row :: all));
    [auto | exact Hc | constructor].
Qed.

End CollectorProperties.

(** ** Base risk scorer: range of the scores *)

Lemma boost_ge_1 (fs : Frame (option Q)) (name : string) (threshold factor : Q) (i : nat) :
  1 <= factor -> 1 <= boost fs name threshold factor i.
Proof.
  intros H. unfold boost.
  destruct (in_frame name fs && exceeds (cell fs name i) threshold); lra.
Qed.

Lemma adjusted_score_nonneg (fs : Frame (option Q)) (i : nat) :
  scaled_frame fs -> 0 <= adjusted_score fs i.
Proof.
  intros H. rewrite adjusted_score_product.
  assert (B := weighted_sum_bound fs i risk_components H weights_nonneg).
  fold (base_score fs i) in B.
  assert (E := boost_ge_1 fs "error_rate" (1 # 10) (13 # 10) i ltac:(lra)).
  assert (Z := boost_ge_1 fs "zero_value_ratio" (5 # 10) (12 # 10) i ltac:(lra)).
  assert (F := boost_ge_1 fs "transaction_frequency" (95 # 100) (14 # 10) i ltac:(lra)).
  fold (error_boost fs i) in E. fold (zero_value_boost fs i) in Z.
  fold (frequency_boost fs i) in F.
  repeat apply Qmult_le_0_compat; lra.
Qed.

Lemma scores_in_range (df : DataFrame) (scores : list Q) :
  calculate_advanced_risk_score df = Ok scores ->
  List.length scores = index df
  /\ Forall (fun s => 0 <= s <= 1000) scores.
Proof.
  unfold calculate_advanced_risk_score. intros H. bind_inv H as fs Hfs.
  injection H as <-. split; [now rewrite length_map, length_seq|].
  apply features_scaled_scaled in Hfs.
  apply Forall_forall. intros s Hs. apply in_map_iff in Hs.
  destruct Hs as (i & <- & _).
  assert (N := adjusted_score_nonneg fs i Hfs).
  split.
  - apply Q.min_glb_iff. split; [|lra].
    apply Qmult_le_0_compat; lra.
  - apply Q.le_min_r.
Qed.

(** X4. Every base risk score the scorer returns lies between 0 and 1000,
    and there is one score per row of the table. *)
Theorem base_risk_scores_bounded (df : DataFrame) (scores : list Q) :
  calculate_advanced_risk_score df = Ok scores ->
  List.length scores = index df
  /\ Forall (fun s => 0 <= s <= 1000) scores.
Proof.
  exact (scores_in_range df scores).
Qed.

(** ** Base risk scorer: a population of identical wallets *)

Lemma fold_left_Qmin_constant (l : list Q) (q : Q) :
  (forall x, In x l -> x == q) -> fold_left Qmin l q == q.
Proof.
  intros H. destruct (fold_left_Qmin_le l q) as [Hle _].
  assert (G : forall l a, (forall x, In x l -> q <= x) -> q <= a -> q <= fold_left Qmin l a).
  { clear. induction l as [|y l IH]; intros a Hl Ha; simpl; [exact Ha|].
    apply IH; [intros x Hx; apply Hl; now right|].
    apply Q.min_glb_iff. split; [exact Ha | apply Hl; now left]. }
  assert (Hge : q <= fold_left Qmin l q).
  { apply G; [|lra]. intros x Hx. rewrite (H x Hx). lra. }
  lra.
Qed.

Lemma fold_left_Qmax_constant (l : list Q) (q : Q) :
  (forall x, In x l -> x == q) -> fold_left Qmax l q == q.
Proof.
  intros H. destruct (fold_left_Qmax_ge l q) as [Hge _].
  assert (G : forall l a, (forall x, In x l -> x <= q) -> a <= q -> fold_left Qmax l a <= q).
  { clear. induction l as [|y l IH]; intros a Hl Ha; simpl; [exact Ha|].
    apply IH; [intros x Hx; apply Hl; now right|].
    apply Q.max_lub_iff. split; [exact Ha | apply Hl; now left]. }
  assert (Hle : fold_left Qmax l q <= q).
  { apply G; [|lra]. intros x Hx. rewrite (H x Hx). lra. }
  lra.
Qed.

(** Scaling a constant column gives zeros. *)
Lemma minmax_column_constant (xs : list (option Q)) :
  constant_column xs -> Forall zero_entry (minmax_column xs).
Proof.
  intros Hc. unfold minmax_column, nanmin, nanmax.
  destruct (present xs) as [|q rest] eqn:Ep.
  - apply Forall_forall. intros y Hy. apply in_map_iff in Hy.
    destruct Hy as (x & <- & _). exact I.
  - assert (Hall : forall x, In (Some x) xs -> x == q).
    { intros x Hx. apply Hc; [exact Hx|]. apply present_In. rewrite Ep. now left. }
    assert (Hrest : forall x, In x rest -> x == q).
    { intros x Hx. apply Hall. apply present_In. rewrite Ep. now right. }
    assert (Lo := fold_left_Qmin_constant rest q Hrest).
    assert (Hi := fold_left_Qmax_constant rest q Hrest).
    set (lo := fold_left Qmin rest q) in *. set (hi := fold_left Qmax rest q) in *.
    assert (R : Qeq_bool (hi - lo) 0 = true) by (apply Qeq_bool_iff; lra).
    rewrite R. apply Forall_forall. intros y Hy. apply in_map_iff in Hy.
    destruct Hy as ([x|] & <- & Hx); simpl; [|exact I].
    rewrite (Hall x Hx), Lo. field.
Qed.

Lemma zero_cell (fs : Frame (option Q)) (name : string) (i : nat) :
  zero_frame fs -> zero_entry (cell fs name i).
Proof.
  intros H. unfold cell.
  destruct (lookup name fs) as [xs|] eqn:E; [|exact I].
  apply lookup_In in E. unfold zero_frame in H. rewrite Forall_forall in H.
  specialize (H _ E). simpl in H.
  destruct (nth_in_or_default i xs None) as [Hin| ->]; [|exact I].
  rewrite Forall_forall in H. auto.
Qed.

Lemma Qsum_zero (l : list Q) : Forall (fun v => v == 0) l -> Qsum l == 0.
Proof.
  induction 1 as [|v l Hv _ IH]; simpl; [reflexivity|]. rewrite Hv, IH. ring.
Qed.

Lemma nanmean_zero (xs : list (option Q)) :
  Forall zero_entry xs -> zero_entry (nanmean xs).
Proof.
  intros H. unfold nanmean.
  assert (P : Forall (fun v => v == 0) (present xs)).
  { apply Forall_forall. intros v Hv. apply present_In in Hv.
    rewrite Forall_forall in H. exact (H _ Hv). }
  destruct (present xs) as [|q rest]; simpl; [exact I|].
  rewrite (Qsum_zero (q :: rest) P). unfold Qdiv. ring.
Qed.

Lemma risk_score_zero (fs : Frame (option Q)) (config : list string * Q) (i : nat) :
  zero_frame fs -> zero_entry (risk_score fs config i).
Proof.
  intros H. unfold risk_score.
  destruct (filter (fun f => in_frame f fs) (fst config)) as [|f rest]; [simpl; reflexivity|].
  assert (Z : Forall zero_entry (map (fun g => cell fs g i) (f :: rest))).
  { apply Forall_forall. intros x Hx. apply in_map_iff in Hx.
    destruct Hx as (g & <- & _). now apply zero_cell. }
  apply nanmean_zero in Z.
  destruct (nanmean (map (fun g => cell fs g i) (f :: rest))) as [m|]; simpl; [|exact I].
  simpl in Z. rewrite Z. ring.
Qed.

Lemma base_score_zero (fs : Frame (option Q)) (i : nat) :
  zero_frame fs -> base_score fs i == 0.
Proof.
  intros H. unfold base_score, nansum. apply Qsum_zero.
  apply Forall_forall. intros v Hv. apply present_In in Hv.
  apply in_map_iff in Hv. destruct Hv as ([name config] & E & _).
  assert (Z := risk_score_zero fs config i H). rewrite E in Z. exact Z.
Qed.

Lemma adjust_zero (fs : Frame (option Q)) (name : string) (threshold factor : Q)
  (i : nat) (score : Q) :
  zero_frame fs -> 0 < threshold -> adjust fs name threshold factor i score = score.
Proof.
  intros H Ht. unfold adjust.
  assert (Z := zero_cell fs name i H).
  destruct (cell fs name i) as [v|]; simpl; [|now rewrite andb_false_r].
  simpl in Z.
  assert (L : Qle_bool v threshold = true) by (apply Qle_bool_iff; lra).
  rewrite L. simpl. now rewrite andb_false_r.
Qed.

(** X5. In a population of identical wallets (every feature column is
    constant; a population of one wallet is the simplest case) min-max
    scaling maps every feature to 0, and the scorer gives every wallet the
    base risk score 0. *)
Theorem identical_wallets_score_zero (df : DataFrame) (scores : list Q) :
  feature_table df = true ->
  identical_wallets df ->
  calculate_advanced_risk_score df = Ok scores ->
  Forall (fun s => s == 0) scores.
Proof.
  intros Ht Hid. unfold calculate_advanced_risk_score.
  rewrite (features_scaled_feature_table df Ht).
  destruct (Nat.eqb (index df) 0); [discriminate|].
  destruct (feature_columns df) as [|c cols] eqn:Ec; [discriminate|].
  rewrite <- Ec in *. cbn [bind]. intros [= <-].
  set (fs := map (fun '(col, s) => (col, scaled_of s)) (feature_columns df)).
  assert (Z : zero_frame fs).
  { unfold zero_frame, fs. apply Forall_forall. intros [name ys] Hin.
    apply in_map_iff in Hin. destruct Hin as ([name' s] & E & Hs).
    injection E as -> <-. simpl. apply minmax_column_constant.
    exact (Hid _ _ Hs). }
  apply Forall_forall. intros s Hs. apply in_map_iff in Hs.
  destruct Hs as (i & <- & _).
  unfold adjusted_score. rewrite !(adjust_zero fs) by (assumption || lra).
  rewrite (base_score_zero fs i Z).
  apply Q.min_l. lra.
Qed.

(** ** Score combiner: non-finite products *)

Lemma clamp_round_cases (x : float) :
  match x with
  | NaN => astype_int (clamp_round x)
           = Raise (ValueError "Cannot convert non-finite values (NA or inf) to integer")
  | PInf => astype_int (clamp_round x) = Ok 1000%Z
  | NInf => astype_int (clamp_round x) = Ok 0%Z
  | Fin q => exists z, astype_int (clamp_round x) = Ok z /\ (0 <= z <= 1000)%Z
  end.
Proof.
  destruct x as [q| | |]; try reflexivity.
  unfold clamp_round. cbn [np_maximum np_minimum np_round].
  rewrite astype_int_integer. eexists. split; [reflexivity|].
  assert (R : 0 <= clamp 0 1000 q <= 1000) by (apply clamp_range; lra).
  unfold clamp in R.
  apply round_half_even_range.
  - change (inject_Z 0) with 0. tauto.
  - change (inject_Z 1000) with 1000. tauto.
Qed.

Lemma final_scores_of_products (products : list float) :
  (In NaN products ->
   mapM (fun x => astype_int (clamp_round x)) products
   = Raise (ValueError "Cannot convert non-finite values (NA or inf) to integer"))
  /\ (~ In NaN products ->
      exists scores,
        mapM (fun x => astype_int (clamp_round x)) products = Ok scores
        /\ List.length scores = List.length products
        /\ Forall (fun z => (0 <= z <= 1000)%Z) scores).
Proof.
  induction products as [|x products [IHnan IHok]].
  - split; [intros [] | intros _; exists []; repeat split; constructor].
  - cbn [mapM]. assert (C := clamp_round_cases x). split.
    + intros [->|Hin]; [now rewrite C|].
      destruct x as [q| | |].
      * destruct C as (z & -> & _). cbn [bind]. now rewrite (IHnan Hin).
      * rewrite C. cbn [bind]. now rewrite (IHnan Hin).
      * rewrite C. cbn [bind]. now rewrite (IHnan Hin).
      * now rewrite C.
    + intros Hno.
      destruct IHok as (scores & E & L & R); [intros H; apply Hno; now right|].
      rewrite E.
      destruct x as [q| | |].
      * destruct C as (z & -> & Hz). cbn [bind]. exists (z :: scores).
        repeat split; [simpl; now rewrite L | now constructor].
      * rewrite C. cbn [bind]. exists (1000%Z :: scores).
        repeat split; [simpl; now rewrite L | constructor; [lia | exact R]].
      * rewrite C. cbn [bind]. exists (0%Z :: scores).
        repeat split; [simpl; now rewrite L | constructor; [lia | exact R]].
      * exfalso. apply Hno. now left.
Qed.

Lemma calculate_final_risk_score_products
  (df : DataFrame) (bases : list float) (anomalies : list bool) (adjs : list float) :
  getitem df "base_risk_score" = Ok (Numeric bases) ->
  getitem df "is_anomaly" = Ok (Boolean anomalies) ->
  getitem df "cluster_risk_adjustment" = Ok (Numeric adjs) ->
  calculate_final_risk_score df
  = mapM (fun x => astype_int (clamp_round x)) (final_products bases anomalies adjs).
Proof.
  intros Hb Hf Ha. unfold calculate_final_risk_score. now rewrite Hb, Hf, Ha.
Qed.


(** ** ML refiner: what it appends, and when it raises *)

Section RefinerShape.

Variable sqrt : Q -> Q.
Variable RandomState : Type.
Variable seed : Z -> RandomState.
Variable isolation_forest : Q -> nat -> RandomState -> list (list Q) -> list Z.
Variable kmeans : nat -> nat -> RandomState -> list (list Q) -> list Z.

(** X7. With fewer than five wallets the refiner raises on every table:
    KMeans is asked for five clusters. *)
Theorem refiner_needs_five_wallets (g : RandomState) (df : DataFrame) :
  (index df < 5)%nat ->
  exists e,
    apply_ml_refinements sqrt RandomState seed isolation_forest kmeans g df = Raise e.
Proof.
  intros Hn. unfold apply_ml_refinements.
  destruct (mapM _ _) as [X|e]; [|cbn; eauto]. cbn [bind].
  destruct (StandardScaler_fit_transform sqrt (index df) X) as [X_scaled|e];
    [|cbn; eauto]. cbn [bind].
  destruct (setitem df "is_anomaly" _) as [df1|e] eqn:E1; [|cbn; eauto]. cbn [bind].
  apply setitem_Ok in E1. destruct E1 as (_ & I1 & _).
  unfold KMeans_fit_predict. rewrite I1.
  destruct (Nat.ltb_spec (index df) 5); [cbn; eauto | lia].
Qed.

Lemma apply_ml_refinements_shape (g : RandomState) (df out : DataFrame) :
  apply_ml_refinements sqrt RandomState seed isolation_forest kmeans g df = Ok out ->
  index out = index df
  /\ (5 <= index df)%nat
  /\ (forall name,
        name <> "is_anomaly" -> name <> "cluster" -> name <> "cluster_risk_adjustment" ->
        lookup name (columns out) = lookup name (columns df))
  /\ exists flags labels adjs,
       lookup "is_anomaly" (columns out) = Some (Boolean flags)
       /\ lookup "cluster" (columns out) = Some (Integer labels)
       /\ lookup "cluster_risk_adjustment" (columns out) = Some (Numeric adjs)
       /\ List.length flags = index df
       /\ List.length labels = index df
       /\ List.length adjs = index df.
Proof.
  unfold apply_ml_refinements. intros H.
  bind_inv H as X HX. bind_inv H as X_scaled HXs. bind_inv H as df1 Hv1.
  bind_inv H as labels Hl. bind_inv H as df2 Hv3. bind_inv H as s Hv4.
  bind_inv H as base Hv5.
  apply setitem_Ok in Hv1. destruct Hv1 as (L1 & I1 & C1).
  apply setitem_Ok in Hv3. destruct Hv3 as (L3 & I3 & C3).
  apply setitem_Ok in H. destruct H as (L & I & C).
  unfold KMeans_fit_predict in Hl.
  destruct (Nat.ltb_spec (index df1) 5) as [|Hfive]; [discriminate|].
  split; [congruence|]. split; [lia|]. split.
  - intros name N1 N2 N3. rewrite C, C3, C1.
    rewrite !lookup_assign_other by congruence. reflexivity.
  - eexists _, labels, _. split; [|split; [|split; [|split; [|split]]]].
    + rewrite C, C3. rewrite !lookup_assign_other by discriminate.
      rewrite C1. apply lookup_assign_same.
    + rewrite C. rewrite lookup_assign_other by discriminate.
      rewrite C3. apply lookup_assign_same.
    + rewrite C. apply lookup_assign_same.
    + simpl in L1. exact L1.
    + simpl in L3. congruence.
    + simpl in L. congruence.
Qed.

(** X8. When the refiner returns, the table has the same rows, at least
    five of them, every column it had under another name is unchanged, and
    the three appended columns hold one boolean flag, one integer label and
    one number per row. *)
Theorem refiner_appends_three_columns (g : RandomState) (df out : DataFrame) :
  apply_ml_refinements sqrt RandomState seed isolation_forest kmeans g df = Ok out ->
  index out = index df
  /\ (5 <= index df)%nat
  /\ (forall name,
        name <> "is_anomaly" -> name <> "cluster" -> name <> "cluster_risk_adjustment" ->
        lookup name (columns out) = lookup name (columns df))
  /\ exists flags labels adjs,
       lookup "is_anomaly" (columns out) = Some (Boolean flags)
       /\ lookup "cluster" (columns out) = Some (Integer labels)
       /\ lookup "cluster_risk_adjustment" (columns out) = Some (Numeric adjs)
       /\ List.length flags = index df
       /\ List.length labels = index df
       /\ List.length adjs = index df.
Proof.
  exact (apply_ml_refinements_shape g df out).
Qed.

(** X9. For a population whose base scores are all 0 (as the scorer gives
    to identical wallets) the refiner, when it returns, gives every wallet
    the adjustment NaN, the quotient 0/0, and the combiner then raises on
    the refined table instead of returning final scores. *)
Theorem zero_population_has_no_final_score
  (g : RandomState) (df out : DataFrame) (bs : list Q) :
  apply_ml_refinements sqrt RandomState seed isolation_forest kmeans g df = Ok out ->
  getitem df "base_risk_score" = Ok (Numeric (map Fin bs)) ->
  List.length bs = index df ->
  Forall (fun b => b == 0) bs ->
  lookup "cluster_risk_adjustment" (columns out)
  = Some (Numeric (repeat NaN (index df)))
  /\ calculate_final_risk_score out
     = Raise (ValueError "Cannot convert non-finite values (NA or inf) to integer").
Proof.
  intros H Hb Hlen Hz.
  destruct (apply_ml_refinements_columns sqrt RandomState seed isolation_forest kmeans
              g df out H)
    as (labels & base & Nb & L & Cl & Ca).
  unfold numbers in Nb. rewrite Hb in Nb. simpl in Nb. injection Nb as <-.
  assert (A : map (cluster_risk_adj labels (map Fin bs)) labels
              = repeat NaN (index df)).
  { rewrite <- L. rewrite <- (length_map (cluster_risk_adj labels (map Fin bs)) labels).
    apply Forall_eq_repeat. apply Forall_forall. intros x Hx.
    apply in_map_iff in Hx. destruct Hx as (k & <- & Hk). symmetry.
    apply (cluster_risk_adj_zero_population sqrt RandomState seed isolation_forest);
      [exact Hz | lia | exact Hk]. }
  rewrite A in Ca. split; [exact Ca|].
  destruct (apply_ml_refinements_shape g df out H)
    as (_ & Hfive & Hkeep & flags & labels' & adjs & Hflags & _ & _ & Lf & _ & _).
  assert (Hbase : getitem out "base_risk_score" = Ok (Numeric (map Fin bs))).
  { unfold getitem in *. rewrite Hkeep by discriminate. exact Hb. }
  rewrite (calculate_final_risk_score_products out (map Fin bs) flags
             (repeat NaN (index df)) Hbase).
  - apply final_scores_of_products.
    unfold final_products.
    destruct bs as [|b bs]; [simpl in Hlen; lia|].
    destruct flags as [|f flags]; [simpl in Lf; lia|].
    destruct (index df) as [|n]; [lia|].
    simpl. left. unfold anomaly_boost. destruct f; reflexivity.
  - unfold getitem. now rewrite Hflags.
  - unfold getitem. now rewrite Ca.
Qed.

End RefinerShape.

(** ** Feature engine: one row per wallet *)

Lemma ForallOrdPairs_filter {A} (R : A -> A -> Prop) (p : A -> bool) (l : list A) :
  ForallOrdPairs R l -> ForallOrdPairs R (filter p l).
Proof.
  induction 1 as [|a l Ha Hl IH]; simpl; [constructor|].
  destruct (p a); [|exact IH]. constructor; [|exact IH].
  apply Forall_forall. intros x Hx. apply filter_In in Hx.
  rewrite Forall_forall in Ha. apply Ha. tauto.
Qed.

(** [unique] leaves no two equal values. *)
Lemma unique_distinct (l : list scalar) :
  ForallOrdPairs (fun a b => scalar_eqb b a = false) (unique l).
Proof.
  induction l as [|x l IH]; simpl; constructor.
  - apply Forall_forall. intros y Hy. apply filter_In in Hy.
    destruct Hy as [_ Hy]. now apply negb_true_iff in Hy.
  - now apply ForallOrdPairs_filter.
Qed.

Section FeatureEngineRows.

Variable sqrt : Q -> Q.

Lemma wallet_features_wallet_id (df : DataFrame) (col : string) (wallet : scalar)
  (f : features) :
  wallet_features sqrt df col wallet = Ok (Some f) -> wallet_id f = wallet.
Proof.
  intros H. destruct (wallet_features_inv sqrt _ _ _ _ H) as (_ & _ & _ & _ & _ & _ & E & _).
  exact E.
Qed.

Lemma rows_distinct (df : DataFrame) (col : string) (wallets : list scalar) :
  forall rows,
    ForallOrdPairs (fun a b => scalar_eqb b a = false) wallets ->
    mapM (wallet_features sqrt df col) wallets = Ok rows ->
    let feats := flat_map (fun r => match r with Some f => [f] | None => [] end) rows in
    Forall (fun f => In (wallet_id f) wallets) feats
    /\ ForallOrdPairs (fun f g => scalar_eqb (wallet_id g) (wallet_id f) = false) feats.
Proof.
  induction wallets as [|w wallets IH]; intros rows Hd H; simpl in H.
  - injection H as <-. simpl. split; constructor.
  - bind_inv H as r Hr. bind_inv H as rs Hrs. injection H as <-.
    inversion Hd as [|a l Hw Hd']. subst.
    destruct (IH rs Hd' Hrs) as [Hin Hpair]. cbn zeta in *.
    assert (Hin' : Forall (fun f => In (wallet_id f) (w :: wallets))
                     (flat_map (fun r => match r with Some f => [f] | None => [] end) rs)).
    { eapply Forall_impl; [|exact Hin]. intros f Hf. now right. }
    destruct r as [f|]; simpl; [|split; assumption].
    apply wallet_features_wallet_id in Hr. split.
    + constructor; [left; now symmetry | exact Hin'].
    + constructor; [|exact Hpair].
      rewrite Hr. apply Forall_forall. intros g Hg.
      rewrite Forall_forall in Hin, Hw. apply Hw, Hin, Hg.
Qed.

(** X10. The feature table has one row per wallet: no two rows carry the
    same wallet identifier, and every identifier is an entry of the
    identifier column ([wallet_address] when it has a value, [from]
    otherwise). *)
Theorem wallet_ids_distinct (df out : DataFrame) :
  create_advanced_wallet_features sqrt df = Ok out ->
  exists feats key,
    wallet_features_list sqrt df = Ok feats
    /\ out = DataFrame_of_records feats
    /\ getitem df (wallet_column df) = Ok key
    /\ Forall (fun f => In (Some (wallet_id f)) (values key)) feats
    /\ ForallOrdPairs (fun f g => scalar_eqb (wallet_id g) (wallet_id f) = false) feats.
Proof.
  intros H. destruct (create_advanced_wallet_features_Ok sqrt _ _ H) as (feats & Hl & ->).
  pose proof Hl as Hl'. unfold wallet_features_list in Hl'.
  bind_inv Hl' as key Hkey. bind_inv Hl' as rows Hrows. injection Hl' as E.
  exists feats, key. split; [exact Hl|]. split; [reflexivity|]. split; [exact Hkey|].
  destruct (rows_distinct df (wallet_column df) _ rows
              (unique_distinct (dropna (values key))) Hrows) as [Hin Hpair].
  cbn zeta in *. rewrite E in Hin, Hpair. split; [|exact Hpair].
  eapply Forall_impl; [|exact Hin]. intros f Hf.
  assert (U : forall l x, In x (unique l) -> In x l).
  { clear. induction l as [|y l IH]; simpl; [tauto|].
    intros x [->|Hx]; [now left|]. apply filter_In in Hx. right. apply IH. tauto. }
  apply U in Hf. unfold dropna in Hf. apply in_flat_map in Hf.
  destruct Hf as ([v|] & Hv & Hx); simpl in Hx; [|tauto].
  destruct Hx as [<-|[]]. exact Hv.
Qed.

End FeatureEngineRows.

(** ** Feature engine: counts and ratios *)

Lemma select_length_bound {A} (mask : list bool) (xs : list A) :
  (List.length (select mask xs) <= List.length xs)%nat.
Proof.
  revert xs. induction mask as [|b mask IH]; intros [|x xs]; simpl; try lia.
  specialize (IH xs). destruct b; simpl; lia.
Qed.

Lemma len_select_rows_le (mask : list bool) (df : DataFrame) :
  (len (select_rows mask df) <= len df)%nat.
Proof.
  unfold len, select_rows. cbn [index].
  etransitivity; [apply select_length_bound|]. now rewrite length_seq.
Qed.

Lemma unique_length (l : list scalar) : (List.length (unique l) <= List.length l)%nat.
Proof.
  induction l as [|x l IH]; simpl; [lia|].
  assert (F := filter_length_le (fun y => negb (scalar_eqb y x)) (unique l)). lia.
Qed.

Lemma dropna_length (l : list (option scalar)) :
  (List.length (dropna l) <= List.length l)%nat.
Proof.
  unfold dropna. induction l as [|[x|] l IH]; simpl; lia.
Qed.

Lemma nunique_le_length (s : Series) : (nunique s <= series_length s)%nat.
Proof.
  unfold nunique. rewrite series_length_values.
  etransitivity; [apply unique_length | apply dropna_length].
Qed.

(** The distinct values of a column of selected rows are at most as many
    as the rows. *)
Lemma nunique_if_any_bound (mask : list bool) (df : DataFrame) (name : string) (n : nat) :
  nunique_if_any (select_rows mask df) name = Ok n ->
  (n <= len (select_rows mask df))%nat.
Proof.
  unfold nunique_if_any, getitem. rewrite lookup_select_rows.
  destruct (Nat.ltb 0 (len (select_rows mask df))); [|intros [= <-]; lia].
  destruct (lookup name (columns df)) as [s|]; [|discriminate].
  cbn. intros [= <-].
  etransitivity; [apply nunique_le_length|].
  unfold len, select_rows. cbn [index].
  apply series_length_select. rewrite length_firstn. lia.
Qed.

Lemma nunique_if_any_empty (name : string) (n : nat) :
  nunique_if_any empty_frame name = Ok n -> n = 0%nat.
Proof.
  unfold nunique_if_any. cbn. now intros [= <-].
Qed.

Section FeatureEngineBounds.

Variable sqrt : Q -> Q.

(** The frames and the blocks behind the features of one wallet. *)
Lemma wallet_features_blocks (df : DataFrame) (col : string) (wallet : scalar) (f : features) :
  wallet_features sqrt df col wallet = Ok (Some f) ->
  exists key wallet_txns sent_txns received_txns,
    getitem df col = Ok key
    /\ wallet_txns = select_rows (eq_mask key wallet) df
    /\ (exists from, lookup "from" (columns wallet_txns) = Some from
                     /\ sent_txns = select_rows (eq_mask from wallet) wallet_txns)
    /\ (exists to, lookup "to" (columns df) = Some to
                   /\ received_txns = select_rows (eq_mask to wallet) df)
    /\ total_transactions f = len wallet_txns
    /\ sent_transactions f = len sent_txns
    /\ received_transactions f = len received_txns
    /\ (exists a b c d e z,
          value_features sqrt wallet_txns sent_txns received_txns = Ok (a, b, c, d, e, z)
          /\ zero_value_ratio f = z)
    /\ nunique_if_any sent_txns "to" = Ok (unique_recipients f)
    /\ nunique_if_any received_txns "from" = Ok (unique_senders f)
    /\ recipient_concentration f
       = of_nat (sent_transactions f) / of_nat (Nat.max (unique_recipients f) 1)
    /\ function_features wallet_txns = Ok (unique_functions f, contract_complexity f).
Proof.
  unfold wallet_features. intros H.
  bind_inv H as key Hkey. bind_inv H as sent_txns Hsent.
  bind_inv H as received_txns Hrecv.
  destruct (Nat.eqb_spec (len (select_rows (eq_mask key wallet) df)) 0) as [|Hlen];
    [discriminate|].
  bind_inv H as vf Hvf. destruct vf as [[[[[a b] c] d] e] z].
  bind_inv H as gf Hgf. destruct gf as [[g1 g2] g3].
  bind_inv H as tf Htf. destruct tf as [[t1 t2] t3].
  bind_inv H as recipients Hr. bind_inv H as senders Hs.
  bind_inv H as ff Hff. destruct ff as [u1 u2].
  injection H as <-. cbn.
  assert (Vs : exists xs, numbers sent_txns "value" = Ok xs).
  { unfold value_features in Hvf. bind_inv Hvf as xs Hxs. eauto. }
  assert (Vr : exists xs, numbers received_txns "value" = Ok xs).
  { unfold value_features in Hvf. bind_inv Hvf as xs Hxs. bind_inv Hvf as ys Hys. eauto. }
  exists key, (select_rows (eq_mask key wallet) df), sent_txns, received_txns.
  split; [exact Hkey|]. split; [reflexivity|]. split; [|split].
  - rewrite lookup_has_column in Hsent. unfold getitem in Hsent.
    destruct (lookup "from" (columns (select_rows (eq_mask key wallet) df))) as [from|].
    + cbn in Hsent. injection Hsent as <-. eauto.
    + injection Hsent as <-. destruct Vs as (xs & Hxs). discriminate.
  - rewrite lookup_has_column in Hrecv. unfold getitem in Hrecv.
    destruct (lookup "to" (columns df)) as [to|].
    + cbn in Hrecv. injection Hrecv as <-. eauto.
    + injection Hrecv as <-. destruct Vr as (xs & Hxs). discriminate.
  - repeat split; try assumption; try reflexivity.
    exists a, b, c, d, e, z. split; [exact Hvf | reflexivity].
Qed.

(** X11. Counts of one wallet: its sent transactions are at most its
    transactions, its distinct recipients are at most its sent
    transactions, and its distinct senders are at most its received
    transactions. *)
Theorem wallet_counts_bounded (df out : DataFrame) :
  create_advanced_wallet_features sqrt df = Ok out ->
  exists feats,
    wallet_features_list sqrt df = Ok feats
    /\ out = DataFrame_of_records feats
    /\ forall f, In f feats ->
         (sent_transactions f <= total_transactions f)%nat
         /\ (unique_recipients f <= sent_transactions f)%nat
         /\ (unique_senders f <= received_transactions f)%nat.
Proof.
  intros H. destruct (create_advanced_wallet_features_Ok sqrt _ _ H) as (feats & Hl & ->).
  exists feats. split; [exact Hl|]. split; [reflexivity|].
  intros f Hin. destruct (wallet_features_list_In sqrt _ _ _ Hl Hin) as (wallet & Hw).
  destruct (wallet_features_blocks _ _ _ _ Hw)
    as (key & wt & st & rt & _ & _ & (from & _ & Est) & (to & _ & Ert)
        & Et & Es & Er & _ & Hur & Hus & _).
  rewrite Et, Es, Er. subst st rt. split; [|split].
  - apply len_select_rows_le.
  - now apply nunique_if_any_bound in Hur.
  - now apply nunique_if_any_bound in Hus.
Qed.

(** X12. The feature engine produces a feature row only for a table that
    has the columns [from], [to] and [value]: the empty tables it
    substitutes for an absent [from] or [to] column have no [value] column
    to sum, so the guards on these two columns never lead to a row. *)
Theorem feature_rows_need_columns (df : DataFrame) (feats : list features) :
  wallet_features_list sqrt df = Ok feats ->
  feats <> [] ->
  has_column "from" df = true
  /\ has_column "to" df = true
  /\ has_column "value" df = true.
Proof.
  intros Hl Hne. destruct feats as [|f feats]; [contradiction|].
  destruct (wallet_features_list_In sqrt _ _ f Hl (or_introl eq_refl)) as (wallet & Hw).
  destruct (wallet_features_blocks _ _ _ _ Hw)
    as (key & wt & st & rt & _ & Ewt & (from & Hfrom & _) & (to & Hto & _)
        & _ & _ & _ & (a & b & c & d & e & z & Hv & _) & _).
  rewrite !lookup_has_column. rewrite Hto. subst wt.
  rewrite lookup_select_rows in Hfrom.
  destruct (lookup "from" (columns df)); [|discriminate].
  unfold value_features in Hv.
  bind_inv Hv as sv Hsv. bind_inv Hv as rv Hrv. bind_inv Hv as v Hvalue.
  unfold numbers, getitem in Hvalue. rewrite lookup_select_rows in Hvalue.
  destruct (lookup "value" (columns df)); [auto | discriminate].
Qed.

End FeatureEngineBounds.

Lemma of_nat_le (a b : nat) : (a <= b)%nat -> of_nat a <= of_nat b.
Proof.
  intros H. unfold of_nat. rewrite <- Zle_Qle. lia.
Qed.

Lemma count_of_le (k : scalar) (l : list scalar) : (count_of k l <= List.length l)%nat.
Proof.
  unfold count_of. apply filter_length_le.
Qed.

Lemma fold_max_bound (counts : list nat) (n : nat) :
  Forall (fun c => (c <= n)%nat) counts -> (fold_right Nat.max 0%nat counts <= n)%nat.
Proof.
  induction 1 as [|c l Hc _ IH]; simpl; lia.
Qed.

(** The share of the most frequent value is a share. *)
Lemma top_share_unit (s : Series) (q : Q) : top_share s = Ok q -> 0 <= q <= 1.
Proof.
  unfold top_share.
  destruct (unique (dropna (values s))) as [|k keys] eqn:E; [discriminate|].
  intros [= <-].
  set (vs := dropna (values s)) in *.
  assert (Hn : (0 < List.length vs)%nat).
  { destruct vs; [discriminate | simpl; lia]. }
  set (top := fold_right Nat.max 0%nat (map (fun k0 => count_of k0 vs) (k :: keys))).
  assert (Ht : (top <= List.length vs)%nat).
  { apply fold_max_bound. apply Forall_forall. intros c Hc.
    apply in_map_iff in Hc. destruct Hc as (k0 & <- & _). apply count_of_le. }
  apply Qdiv_unit.
  - now apply of_nat_pos.
  - split; [apply of_nat_nonneg | now apply of_nat_le].
Qed.

Section FeatureEngineRatios.

Variable sqrt : Q -> Q.

(** X13. Ratios of one wallet: [recipient_concentration] is 0 for a
    wallet that sent nothing and at least 1 otherwise,
    [send_receive_ratio] lies between 0 and the count of sent
    transactions, and [contract_complexity] lies between 0 and 1. *)
Theorem wallet_ratios_bounded (df out : DataFrame) :
  create_advanced_wallet_features sqrt df = Ok out ->
  exists feats,
    wallet_features_list sqrt df = Ok feats
    /\ out = DataFrame_of_records feats
    /\ forall f, In f feats ->
         (sent_transactions f = 0%nat -> recipient_concentration f == 0)
         /\ ((1 <= sent_transactions f)%nat -> 1 <= recipient_concentration f)
         /\ 0 <= send_receive_ratio f <= of_nat (sent_transactions f)
         /\ 0 <= contract_complexity f <= 1.
Proof.
  intros H. destruct (create_advanced_wallet_features_Ok sqrt _ _ H) as (feats & Hl & ->).
  exists feats. split; [exact Hl|]. split; [reflexivity|].
  intros f Hin. destruct (wallet_features_list_In sqrt _ _ _ Hl Hin) as (wallet & Hw).
  destruct (wallet_features_inv sqrt _ _ _ _ Hw)
    as (key0 & sent0 & recv0 & _ & _ & _ & _ & _ & Es0 & Er0 & Eratio & _).
  destruct (wallet_features_blocks sqrt _ _ _ _ Hw)
    as (key & wt & st & rt & _ & _ & (from & _ & Est) & _
        & _ & Es & _ & _ & Hur & _ & Erc & Hff).
  assert (Hu : (unique_recipients f <= sent_transactions f)%nat).
  { rewrite Es. subst st. now apply nunique_if_any_bound in Hur. }
  assert (Pm : forall n, 0 < of_nat (Nat.max n 1)) by (intros n; apply of_nat_pos; lia).
  split; [|split; [|split]].
  - intros Hz. rewrite Erc, Hz. unfold Qdiv. change (of_nat 0) with 0. ring.
  - intros Hs. rewrite Erc. apply Qle_shift_div_l; [apply Pm|].
    rewrite Qmult_1_l. apply of_nat_le. lia.
  - rewrite Eratio, <- Es0. split.
    + apply Qle_shift_div_l; [apply Pm|]. rewrite Qmult_0_l. apply of_nat_nonneg.
    + apply Qle_shift_div_r; [apply Pm|].
      assert (One : 1 <= of_nat (Nat.max (len recv0) 1)).
      { change 1 with (of_nat 1). apply of_nat_le. lia. }
      assert (N := of_nat_nonneg (sent_transactions f)). nra.
  - unfold function_features in Hff.
    destruct (has_column "functionName" wt); [|injection Hff as _ <-; lra].
    bind_inv Hff as s Hs.
    destruct (Nat.eqb (series_length s) 0); [injection Hff as _ <-; lra|].
    bind_inv Hff as q Hq. injection Hff as _ <-.
    apply top_share_unit in Hq. lra.
Qed.

(** X14. The feature table of a table with at least one wallet is
    accepted by the base risk scorer, which returns one score per wallet,
    each between 0 and 1000. *)
Theorem feature_table_is_scored (df out : DataFrame) :
  create_advanced_wallet_features sqrt df = Ok out ->
  index out <> 0%nat ->
  exists scores,
    calculate_advanced_risk_score out = Ok scores
    /\ List.length scores = index out
    /\ Forall (fun s => 0 <= s <= 1000) scores.
Proof.
  intros H Hn. destruct (create_advanced_wallet_features_Ok sqrt _ _ H) as (feats & _ & ->).
  destruct feats as [|f feats]; [simpl in Hn; contradiction|].
  destruct (calculate_advanced_risk_score_total (DataFrame_of_records (f :: feats)))
    as (scores & Hs & Hlen); [reflexivity | exact Hn | discriminate |].
  exists scores. split; [exact Hs|]. split; [exact Hlen|].
  exact (proj2 (scores_in_range _ _ Hs)).
Qed.

End FeatureEngineRatios.

(** ** Loader: what the cleaned table holds *)

Lemma when_column_other (n : string) (f : Series -> result Series) (df df' : DataFrame)
  (name : string) :
  when_column n f df = Ok df' -> n <> name ->
  lookup name (columns df') = lookup name (columns df).
Proof.
  unfold when_column, update_column. intros H Hne.
  destruct (has_column n df); [|now injection H as <-].
  bind_inv H as s Hs. bind_inv H as s' Hs'. injection H as <-.
  cbn [columns]. now apply lookup_assign_other.
Qed.

Lemma when_column_same (n : string) (f : Series -> result Series) (df df' : DataFrame) :
  when_column n f df = Ok df' ->
  match lookup n (columns df) with
  | Some s => exists s', f s = Ok s' /\ lookup n (columns df') = Some s'
  | None => lookup n (columns df') = None
  end.
Proof.
  unfold when_column, update_column, getitem. rewrite lookup_has_column.
  destruct (lookup n (columns df)) as [s|] eqn:E.
  - cbn [bind]. intros H. bind_inv H as s' Hs'. injection H as <-.
    exists s'. split; [exact Hs'|]. cbn [columns]. apply lookup_assign_same.
  - intros [= <-]. exact E.
Qed.

Lemma when_column_index (n : string) (f : Series -> result Series) (df df' : DataFrame) :
  when_column n f df = Ok df' -> index df' = index df.
Proof.
  unfold when_column, update_column. intros H.
  destruct (has_column n df); [|now injection H as <-].
  bind_inv H as s Hs. bind_inv H as s' Hs'. now injection H as <-.
Qed.

Lemma select_columns_names (names : list string) (df : DataFrame) :
  (forall name, In name names -> has_column name df = true) ->
  column_names (select_columns names df) = names.
Proof.
  unfold column_names, select_columns. cbn [columns].
  induction names as [|n names IH]; intros H; simpl; [reflexivity|].
  assert (Hn := H n (or_introl eq_refl)). rewrite lookup_has_column in Hn.
  destruct (lookup n (columns df)); [|discriminate].
  simpl. f_equal. apply IH. intros name Hin. apply H. now right.
Qed.

Lemma select_rows_names (mask : list bool) (df : DataFrame) :
  column_names (select_rows mask df) = column_names df.
Proof.
  unfold column_names, select_rows. cbn [columns].
  rewrite map_map. apply map_ext. now intros [n s].
Qed.

(** The entries a mask computed from the column itself selects. *)
Lemma select_own_mask {A} (p : A -> bool) (xs : list A) (n : nat) :
  Forall (fun x => p x = true) (select (firstn n (map p xs)) xs).
Proof.
  revert n. induction xs as [|x xs IH]; intros [|n]; simpl; try constructor.
  destruct (p x) eqn:E; [constructor; [exact E | apply IH] | apply IH].
Qed.

Lemma fillna_no_missing (text : string) (s : Series) : no_missing (fillna text s) = true.
Proof.
  unfold fillna, no_missing.
  destruct (forallb notna (values s)) eqn:E; [exact E|].
  cbn [values]. apply forallb_forall. intros x Hx. apply in_map_iff in Hx.
  destruct Hx as ([v|] & <- & _); reflexivity.
Qed.

Lemma existsb_filter_eqb (p : string -> bool) (l : list string) (name : string) :
  In name l -> existsb (String.eqb name) (filter p l) = p name.
Proof.
  intros Hin. destruct (p name) eqn:E.
  - apply existsb_exists. exists name. split; [|apply String.eqb_refl].
    apply filter_In. auto.
  - apply not_true_is_false. intros H. apply existsb_exists in H.
    destruct H as (x & Hx & Heq). apply String.eqb_eq in Heq. subst x.
    apply filter_In in Hx. destruct Hx as [_ Hx]. congruence.
Qed.

Section LoaderInvariants.

Variable read_csv : string -> option DataFrame.
Variable parse_float : string -> option float.

(** The table before the rows without a value are dropped. *)
Lemma load_steps (filepath : string) (df out : DataFrame) :
  read_csv filepath = Some df ->
  load_and_preprocess_data read_csv parse_float filepath = Ok out ->
  exists df9 v,
    lookup "value" (columns df9) = Some (Numeric v)
    /\ out = select_rows (map notna (map float_value v)) df9
    /\ index df9 = index df
    /\ column_names df9 = filter (fun col => has_column col df) relevant_columns
    /\ (forall name, In name ["from"; "to"; "isError"; "txreceipt_status"; "wallet_address"] ->
                     lookup name (columns df9)
                     = if has_column name df then lookup name (columns df) else None)
    /\ column_if_any "timeStamp" is_datetime df9 = true
    /\ column_if_any "functionName" no_missing df9 = true
    /\ column_if_any "protocol_version" no_missing df9 = true
    /\ column_if_any "methodId" no_missing df9 = true
    /\ column_if_any "gas" is_numeric df9 = true
    /\ column_if_any "gasPrice" is_numeric df9 = true
    /\ column_if_any "gasUsed" is_numeric df9 = true
    /\ column_if_any "blockNumber" is_numeric df9 = true.
Proof.
  intros Hfile H. unfold load_and_preprocess_data in H. rewrite Hfile in H.
  set (names := filter (fun col => has_column col df) relevant_columns) in *.
  set (df0 := select_columns names df) in *.
  bind_inv H as df1 H1. bind_inv H as df2 H2. bind_inv H as df3 H3.
  bind_inv H as df4 H4. bind_inv H as df5 H5. bind_inv H as df6 H6.
  bind_inv H as df7 H7. bind_inv H as df8 H8. bind_inv H as df9 H9.
  unfold dropna_subset in H. bind_inv H as vs Hvs. injection H as <-.
  assert (S1 := when_column_same _ _ _ _ H1). assert (S2 := when_column_same _ _ _ _ H2).
  assert (S3 := when_column_same _ _ _ _ H3). assert (S4 := when_column_same _ _ _ _ H4).
  assert (S5 := when_column_same _ _ _ _ H5). assert (S6 := when_column_same _ _ _ _ H6).
  assert (S7 := when_column_same _ _ _ _ H7). assert (S8 := when_column_same _ _ _ _ H8).
  assert (S9 := when_column_same _ _ _ _ H9).
  (* the value column *)
  unfold getitem in Hvs.
  assert (V : exists v, lookup "value" (columns df9) = Some (Numeric v)).
  { rewrite (when_column_other _ _ _ _ "value" H9), (when_column_other _ _ _ _ "value" H8),
      (when_column_other _ _ _ _ "value" H7), (when_column_other _ _ _ _ "value" H6),
      (when_column_other _ _ _ _ "value" H5), (when_column_other _ _ _ _ "value" H4),
      (when_column_other _ _ _ _ "value" H3) in * by discriminate.
    destruct (lookup "value" (columns df1)) as [s|].
    - destruct S2 as (s' & E & ->). unfold to_numeric in E. injection E as <-. eauto.
    - rewrite S2 in Hvs. discriminate. }
  destruct V as (v & Hv). rewrite Hv in Hvs. injection Hvs as <-.
  exists df9, v. split; [exact Hv|]. split; [reflexivity|].
  split.
  { rewrite (when_column_index _ _ _ _ H9), (when_column_index _ _ _ _ H8),
      (when_column_index _ _ _ _ H7), (when_column_index _ _ _ _ H6),
      (when_column_index _ _ _ _ H5), (when_column_index _ _ _ _ H4),
      (when_column_index _ _ _ _ H3), (when_column_index _ _ _ _ H2),
      (when_column_index _ _ _ _ H1). reflexivity. }
  split.
  { rewrite (when_column_names _ _ _ _ H9), (when_column_names _ _ _ _ H8),
      (when_column_names _ _ _ _ H7), (when_column_names _ _ _ _ H6),
      (when_column_names _ _ _ _ H5), (when_column_names _ _ _ _ H4),
      (when_column_names _ _ _ _ H3), (when_column_names _ _ _ _ H2),
      (when_column_names _ _ _ _ H1).
    apply select_columns_names. intros name Hin. apply filter_In in Hin. tauto. }
  assert (Other : forall name,
            "timeStamp" <> name -> "value" <> name -> "functionName" <> name ->
            "protocol_version" <> name -> "methodId" <> name -> "gas" <> name ->
            "gasPrice" <> name -> "gasUsed" <> name -> "blockNumber" <> name ->
            lookup name (columns df9) = lookup name (columns df0)).
  { intros name N1 N2 N3 N4 N5 N6 N7 N8 N9.
    rewrite (when_column_other _ _ _ _ name H9), (when_column_other _ _ _ _ name H8),
      (when_column_other _ _ _ _ name H7), (when_column_other _ _ _ _ name H6),
      (when_column_other _ _ _ _ name H5), (when_column_other _ _ _ _ name H4),
      (when_column_other _ _ _ _ name H3), (when_column_other _ _ _ _ name H2),
      (when_column_other _ _ _ _ name H1) by assumption. reflexivity. }
  split.
  { intros name Hin. rewrite Other by (simpl in Hin; intuition (subst; discriminate)).
    unfold df0. rewrite lookup_select_columns.
    assert (E : existsb (String.eqb name) names = has_column name df).
    { unfold names. apply existsb_filter_eqb.
      simpl in Hin. simpl. intuition. }
    now rewrite E. }
  unfold column_if_any.
  repeat split.
  - rewrite (when_column_other _ _ _ _ "timeStamp" H9),
      (when_column_other _ _ _ _ "timeStamp" H8), (when_column_other _ _ _ _ "timeStamp" H7),
      (when_column_other _ _ _ _ "timeStamp" H6), (when_column_other _ _ _ _ "timeStamp" H5),
      (when_column_other _ _ _ _ "timeStamp" H4), (when_column_other _ _ _ _ "timeStamp" H3),
      (when_column_other _ _ _ _ "timeStamp" H2) by discriminate.
    destruct (lookup "timeStamp" (columns df0)) as [s|]; [|now rewrite S1].
    destruct S1 as (s' & E & ->). unfold to_datetime in E.
    destruct s; try discriminate; bind_inv E as stamps Hts; now injection E as <-.
  - rewrite (when_column_other _ _ _ _ "functionName" H9),
      (when_column_other _ _ _ _ "functionName" H8),
      (when_column_other _ _ _ _ "functionName" H7),
      (when_column_other _ _ _ _ "functionName" H6),
      (when_column_other _ _ _ _ "functionName" H5),
      (when_column_other _ _ _ _ "functionName" H4) by discriminate.
    destruct (lookup "functionName" (columns df2)) as [s|]; [|now rewrite S3].
    destruct S3 as (s' & E & ->). injection E as <-. apply fillna_no_missing.
  - rewrite (when_column_other _ _ _ _ "protocol_version" H9),
      (when_column_other _ _ _ _ "protocol_version" H8),
      (when_column_other _ _ _ _ "protocol_version" H7),
      (when_column_other _ _ _ _ "protocol_version" H6),
      (when_column_other _ _ _ _ "protocol_version" H5) by discriminate.
    destruct (lookup "protocol_version" (columns df3)) as [s|]; [|now rewrite S4].
    destruct S4 as (s' & E & ->). injection E as <-. apply fillna_no_missing.
  - rewrite (when_column_other _ _ _ _ "methodId" H9),
      (when_column_other _ _ _ _ "methodId" H8),
      (when_column_other _ _ _ _ "methodId" H7),
      (when_column_other _ _ _ _ "methodId" H6) by discriminate.
    destruct (lookup "methodId" (columns df4)) as [s|]; [|now rewrite S5].
    destruct S5 as (s' & E & ->). injection E as <-. apply fillna_no_missing.
  - rewrite (when_column_other _ _ _ _ "gas" H9),
      (when_column_other _ _ _ _ "gas" H8),
      (when_column_other _ _ _ _ "gas" H7) by discriminate.
    destruct (lookup "gas" (columns df5)) as [s|]; [|now rewrite S6].
    destruct S6 as (s' & E & ->). now injection E as <-.
  - rewrite (when_column_other _ _ _ _ "gasPrice" H9),
      (when_column_other _ _ _ _ "gasPrice" H8) by discriminate.
    destruct (lookup "gasPrice" (columns df6)) as [s|]; [|now rewrite S7].
    destruct S7 as (s' & E & ->). now injection E as <-.
  - rewrite (when_column_other _ _ _ _ "gasUsed" H9) by discriminate.
    destruct (lookup "gasUsed" (columns df7)) as [s|]; [|now rewrite S8].
    destruct S8 as (s' & E & ->). now injection E as <-.
  - destruct (lookup "blockNumber" (columns df8)) as [s|]; [|now rewrite S9].
    destruct S9 as (s' & E & ->). now injection E as <-.
Qed.

Lemma column_is_of_if_any (name : string) (ok : Series -> bool) (df : DataFrame) :
  column_if_any name ok df = true -> has_column name df = true ->
  column_is name ok df = true.
Proof.
  unfold column_if_any, column_is. rewrite lookup_has_column.
  now destruct (lookup name (columns df)).
Qed.

Lemma has_relevant_column (name : string) (df df9 : DataFrame) :
  column_names df9 = filter (fun col => has_column col df) relevant_columns ->
  In name relevant_columns -> has_column name df = true ->
  has_column name df9 = true.
Proof.
  intros Hn Hin Hc. unfold has_column at 1. rewrite Hn.
  apply existsb_exists. exists name. split; [|apply String.eqb_refl].
  apply filter_In. auto.
Qed.

(** X15. The table the loader returns keeps exactly the columns of the
    file that are in the canonical list, in the order of that list, has at
    most as many rows as the file, and its [value] column is numeric with
    no missing entry. *)
Theorem loaded_table_columns (filepath : string) (df out : DataFrame) :
  read_csv filepath = Some df ->
  load_and_preprocess_data read_csv parse_float filepath = Ok out ->
  column_names out = filter (fun col => has_column col df) relevant_columns
  /\ (index out <= index df)%nat
  /\ exists xs,
       lookup "value" (columns out) = Some (Numeric xs)
       /\ Forall (fun x => isnan x = false) xs.
Proof.
  intros Hfile H.
  destruct (load_steps filepath df out Hfile H) as (df9 & v & Hv & -> & Hi & Hn & _).
  split; [now rewrite select_rows_names|]. split.
  - rewrite <- Hi. apply len_select_rows_le.
  - rewrite lookup_select_rows, Hv. cbn [option_map select_series].
    eexists. split; [reflexivity|]. rewrite map_map.
    eapply Forall_impl; [|apply (select_own_mask (fun x => notna (float_value x)))].
    intros x Hx. now destruct x.
Qed.

(** X16. In the table the loader returns, [functionName],
    [protocol_version] and [methodId] have no missing entry, [timeStamp] is
    a datetime column, and [gas], [gasPrice], [gasUsed] and [blockNumber]
    are numeric, each when the column exists. *)
Theorem loaded_table_schema (filepath : string) (df out : DataFrame) :
  read_csv filepath = Some df ->
  load_and_preprocess_data read_csv parse_float filepath = Ok out ->
  column_if_any "functionName" no_missing out = true
  /\ column_if_any "protocol_version" no_missing out = true
  /\ column_if_any "methodId" no_missing out = true
  /\ column_if_any "timeStamp" is_datetime out = true
  /\ column_if_any "gas" is_numeric out = true
  /\ column_if_any "gasPrice" is_numeric out = true
  /\ column_if_any "gasUsed" is_numeric out = true
  /\ column_if_any "blockNumber" is_numeric out = true.
Proof.
  intros Hfile H.
  destruct (load_steps filepath df out Hfile H)
    as (df9 & v & _ & -> & _ & _ & _ & T & F & P & M & G1 & G2 & G3 & B).
  repeat split;
    first [ apply column_if_any_select; [apply no_missing_select | assumption]
          | apply column_if_any_select; [apply datetime_stable | assumption]
          | apply column_if_any_select; [apply numeric_stable | assumption] ].
Qed.

(** X17. Loader and feature engine compose: when the file has the columns
    [from], [to] and [timeStamp], and its [isError] column, if any, is
    numeric, the feature engine returns a feature table on the table the
    loader returns. *)
Theorem loaded_table_has_features (sqrt : Q -> Q) (filepath : string) (df out : DataFrame) :
  read_csv filepath = Some df ->
  load_and_preprocess_data read_csv parse_float filepath = Ok out ->
  has_column "from" df = true ->
  has_column "to" df = true ->
  has_column "timeStamp" df = true ->
  column_if_any "isError" is_numeric df = true ->
  exists table, create_advanced_wallet_features sqrt out = Ok table.
Proof.
  intros Hfile H Hfrom Hto Htime Herr.
  destruct (load_steps filepath df out Hfile H)
    as (df9 & v & Hv & -> & _ & Hn & Hkeep & T & F & _ & _ & _ & G2 & G3 & _).
  apply create_advanced_wallet_features_total.
  apply cleaned_select_rows. unfold cleaned_table.
  assert (Kfrom := Hkeep "from" ltac:(simpl; tauto)).
  assert (Kto := Hkeep "to" ltac:(simpl; tauto)).
  assert (Kerr := Hkeep "isError" ltac:(simpl; tauto)).
  rewrite Hfrom in Kfrom. rewrite Hto in Kto.
  rewrite lookup_has_column in Hfrom, Hto.
  repeat (apply andb_true_iff; split); try assumption.
  - unfold column_is. rewrite Kfrom. now destruct (lookup "from" (columns df)).
  - unfold column_is. rewrite Kto. now destruct (lookup "to" (columns df)).
  - unfold column_is. now rewrite Hv.
  - apply column_is_of_if_any; [exact T|].
    apply (has_relevant_column "timeStamp" df df9 Hn); [simpl; tauto | exact Htime].
  - unfold column_if_any in *. rewrite Kerr.
    destruct (has_column "isError" df); [exact Herr | reflexivity].
Qed.

(** X18. A missing file is reported by the loader as the empty table, and
    the feature engine does not accept that table: it raises
    [KeyError('from')]. *)
Theorem missing_file_stops_the_engine (sqrt : Q -> Q) (filepath : string) :
  read_csv filepath = None ->
  load_and_preprocess_data read_csv parse_float filepath = Ok empty_frame
  /\ create_advanced_wallet_features sqrt empty_frame = Raise (KeyError "from").
Proof.
  intros Hfile. unfold load_and_preprocess_data. rewrite Hfile. split; reflexivity.
Qed.

End LoaderInvariants.

(** ** Feature engine: cleaned tables *)

(** X19. On a cleaned transaction table (the columns [from], [to], a
    numeric [value], a datetime [timeStamp]; numeric gas and error columns
    and function names without a missing entry, when present) the feature
    engine raises nothing and returns a feature table. *)
Theorem feature_engine_accepts_cleaned_tables (sqrt : Q -> Q) (df : DataFrame) :
  cleaned_table df = true ->
  exists out, create_advanced_wallet_features sqrt df = Ok out.
Proof.
  exact (create_advanced_wallet_features_total sqrt df).
Qed.

(** ** ML refiner: the adjustments average to 1 *)














Section RefinerMean.

Variable sqrt : Q -> Q.
Variable RandomState : Type.
Variable seed : Z -> RandomState.
Variable isolation_forest : Q -> nat -> RandomState -> list (list Q) -> list Z.
Variable kmeans : nat -> nat -> RandomState -> list (list Q) -> list Z.


End RefinerMean.

(** ** Score combiner: monotonicity *)






(** ** The further properties at the example tables *)

Lemma fetch_all_transactions_pages_witness :
  (exists txs,
     fetch_all_transactions (SStr "0xa1") example_network = Some (Ok (txs, [full_reply]))
     /\ List.length txs = 2001%nat)
  /\ fetch_all_transactions (SStr "0xa1") example_truncated_network
     = Some (Raise (KeyError "result")).
Proof.
  split.
  - eexists. split.
    + apply (fetch_all_transactions_pages (SStr "0xa1") [full_reply; full_reply]
               last_reply [full_reply]); vm_compute; reflexivity.
    + vm_compute. reflexivity.
  - apply (fetch_all_transactions_pages (SStr "0xa1") [full_reply]
             truncated_reply [full_reply]); vm_compute; reflexivity.
Defined.

Lemma main_rows_tagged_witness :
  exists row,
    main lower_hex example_wallets example_explorer = Some (Ok (Some [row], []))
    /\ lookup "protocol_version" row = Some (Scalar (SStr "V2"))
    /\ exists address, tagged_row lower_hex address row.
Proof.
  eexists. split; [vm_compute; reflexivity|]. split; [reflexivity|].
  destruct (main_rows_tagged lower_hex example_wallets example_explorer [] _
              ltac:(vm_compute; reflexivity))
    as (_ & wallets_df & ids & _ & _ & Hall).
  inversion Hall as [|row rows (address & _ & Hrow) _]. subst.
  exists address. exact Hrow.
Defined.

Lemma base_risk_scores_bounded_witness :
  exists scores,
    calculate_advanced_risk_score example_boosted = Ok scores
    /\ Forall (fun s => 0 <= s <= 1000) scores.
Proof.
  eexists. split; [vm_compute; reflexivity|].
  refine (proj2 (base_risk_scores_bounded example_boosted _ _)).
  vm_compute. reflexivity.
Defined.

Lemma identical_wallets_example : identical_wallets example_identical.
Proof.
  intros name s Hin. simpl in Hin.
  destruct Hin as [E|[E|[E|[]]]]; injection E as <- <-;
    intros a b Ha Hb; simpl in Ha, Hb;
    repeat (destruct Ha as [Ha|Ha]; try discriminate; try contradiction);
    repeat (destruct Hb as [Hb|Hb]; try discriminate; try contradiction);
    injection Ha as <-; injection Hb as <-; reflexivity.
Defined.

Lemma identical_wallets_score_zero_witness :
  exists scores,
    calculate_advanced_risk_score example_identical = Ok scores
    /\ List.length scores = 5%nat
    /\ Forall (fun s => s == 0) scores.
Proof.
  eexists. split; [vm_compute; reflexivity|]. split; [reflexivity|].
  apply (identical_wallets_score_zero example_identical);
    [reflexivity | exact identical_wallets_example | vm_compute; reflexivity].
Defined.


Lemma refiner_needs_five_wallets_witness :
  exists e,
    apply_ml_refinements sqrt_stand_in unit (fun _ => tt) no_outliers singleton_clusters
      tt example_boosted = Raise e.
Proof.
  apply refiner_needs_five_wallets. simpl. lia.
Defined.

Lemma refiner_appends_three_columns_witness :
  index example_refined_frame = 5%nat
  /\ lookup "total_transactions" (columns example_refined_frame)
     = lookup "total_transactions" (columns example_population).
Proof.
  destruct (refiner_appends_three_columns sqrt_stand_in unit (fun _ => tt)
              no_outliers singleton_clusters tt example_population example_refined_frame
              ltac:(vm_compute; reflexivity))
    as (Hi & _ & Hkeep & _).
  split; [exact Hi|]. apply Hkeep; discriminate.
Defined.

Lemma zero_population_has_no_final_score_witness :
  example_identical_refined = Ok example_identical_refined_frame
  /\ calculate_final_risk_score example_identical_refined_frame
     = Raise (ValueError "Cannot convert non-finite values (NA or inf) to integer").
Proof.
  assert (E : example_identical_refined = Ok example_identical_refined_frame)
    by (vm_compute; reflexivity).
  split; [exact E|].
  refine (proj2 (zero_population_has_no_final_score sqrt_stand_in unit (fun _ => tt)
                   no_outliers singleton_clusters tt example_identical_scored
                   example_identical_refined_frame [0; 0; 0; 0; 0] E _ _ _));
    [reflexivity | reflexivity | repeat constructor; reflexivity].
Defined.

Lemma wallet_ids_distinct_witness :
  exists feats,
    wallet_features_list sqrt_stand_in example_transactions = Ok feats
    /\ ForallOrdPairs (fun f g => scalar_eqb (wallet_id g) (wallet_id f) = false) feats.
Proof.
  destruct (wallet_ids_distinct sqrt_stand_in example_transactions
              example_transactions_features ltac:(vm_compute; reflexivity))
    as (feats & key & Hl & _ & _ & _ & Hd).
  exists feats. split; [exact Hl | exact Hd].
Defined.

Lemma wallet_counts_bounded_witness :
  exists feats,
    wallet_features_list sqrt_stand_in example_transactions = Ok feats
    /\ Forall (fun f => (sent_transactions f <= total_transactions f)%nat) feats.
Proof.
  destruct (wallet_counts_bounded sqrt_stand_in example_transactions
              example_transactions_features ltac:(vm_compute; reflexivity))
    as (feats & Hl & _ & Hall).
  exists feats. split; [exact Hl|]. apply Forall_forall. intros f Hf.
  exact (proj1 (Hall f Hf)).
Defined.

Lemma feature_rows_need_columns_witness :
  has_column "from" example_transactions = true
  /\ has_column "to" example_transactions = true
  /\ has_column "value" example_transactions = true.
Proof.
  destruct (wallet_features_list sqrt_stand_in example_transactions) as [feats|e] eqn:E;
    [|vm_compute in E; discriminate].
  apply (feature_rows_need_columns sqrt_stand_in example_transactions feats E).
  intros ->. vm_compute in E. discriminate.
Defined.

Lemma wallet_ratios_bounded_witness :
  exists feats,
    wallet_features_list sqrt_stand_in example_transactions = Ok feats
    /\ Forall (fun f => 0 <= contract_complexity f <= 1) feats.
Proof.
  destruct (wallet_ratios_bounded sqrt_stand_in example_transactions
              example_transactions_features ltac:(vm_compute; reflexivity))
    as (feats & Hl & _ & Hall).
  exists feats. split; [exact Hl|]. apply Forall_forall. intros f Hf.
  exact (proj2 (proj2 (proj2 (Hall f Hf)))).
Defined.

Lemma feature_table_is_scored_witness :
  exists scores,
    calculate_advanced_risk_score example_transactions_features = Ok scores
    /\ List.length scores = 3%nat.
Proof.
  destruct (feature_table_is_scored sqrt_stand_in example_transactions
              example_transactions_features ltac:(vm_compute; reflexivity)
              ltac:(discriminate))
    as (scores & Hs & Hl & _).
  exists scores. split; [exact Hs | exact Hl].
Defined.

Lemma loaded_table_columns_witness :
  column_names example_loaded = ["from"; "to"; "value"; "gasUsed"; "timeStamp"; "functionName"]
  /\ index example_loaded = 2%nat.
Proof.
  destruct (loaded_table_columns example_raw_files parse_nothing "data/compound.csv"
              example_raw example_loaded eq_refl ltac:(vm_compute; reflexivity))
    as (Hn & _ & _).
  split; [exact Hn | reflexivity].
Defined.

Lemma loaded_table_schema_witness :
  column_if_any "functionName" no_missing example_loaded = true
  /\ lookup "functionName" (columns example_loaded)
     = Some (Object [addr "mint"; addr "unknown"]).
Proof.
  split; [|reflexivity].
  exact (proj1 (loaded_table_schema example_raw_files parse_nothing "data/compound.csv"
                  example_raw example_loaded eq_refl ltac:(vm_compute; reflexivity))).
Defined.

Lemma loaded_table_has_features_witness :
  exists table, create_advanced_wallet_features sqrt_stand_in example_loaded = Ok table.
Proof.
  apply (loaded_table_has_features example_raw_files parse_nothing sqrt_stand_in
           "data/compound.csv" example_raw example_loaded);
    vm_compute; reflexivity.
Defined.

Lemma missing_file_stops_the_engine_witness :
  load_and_preprocess_data example_raw_files parse_nothing "data/missing.csv"
  = Ok empty_frame
  /\ create_advanced_wallet_features sqrt_stand_in empty_frame = Raise (KeyError "from").
Proof.
  apply missing_file_stops_the_engine. reflexivity.
Defined.

Lemma feature_engine_accepts_cleaned_tables_witness :
  exists out, create_advanced_wallet_features sqrt_stand_in example_transactions = Ok out.
Proof.
  apply feature_engine_accepts_cleaned_tables. reflexivity.
Defined.



Lemma fetch_all_transactions_returns_witness :
  fetch_all_transactions (SStr "0xa1") [full_reply; full_reply] = None
  /\ fetch_all_transactions (SStr "0xa1") [full_reply; limit_reply; full_reply]
     <> Some (Raise (KeyError "status")).
Proof.
  split.
  - apply (proj1 (fetch_all_transactions_returns (SStr "0xa1") [full_reply; full_reply])).
    vm_compute. reflexivity.
  - intros H.
    apply (proj1 (proj2 (fetch_all_transactions_returns (SStr "0xa1")
                           [full_reply; limit_reply; full_reply])) _) in H.
    destruct H as (r & E & Hr). vm_compute in E. injection E as <-. discriminate.
Defined.

(** * Binary64 arithmetic: properties of the rounding *)

Lemma pow2_pos (e : Z) : 0 < pow2 e.
Proof.
  apply Qpower_0_lt. reflexivity.
Qed.

Lemma two_nonzero : ~ 2 == 0.
Proof.
  intros H. discriminate H.
Qed.

Lemma pow2_add (a b : Z) : pow2 (a + b) == pow2 a * pow2 b.
Proof.
  apply Qpower_plus, two_nonzero.
Qed.

Lemma pow2_succ (a : Z) : pow2 (a + 1) == 2 * pow2 a.
Proof.
  rewrite pow2_add. change (pow2 1) with 2. ring.
Qed.

Lemma pow2_le (a b : Z) : (a <= b)%Z -> pow2 a <= pow2 b.
Proof.
  intros H. apply Qpower_le_compat_l; [exact H | discriminate].
Qed.

Lemma pow2_lt (a b : Z) : (a < b)%Z -> pow2 a < pow2 b.
Proof.
  intros H. apply Qpower_lt_compat_l; [exact H | reflexivity].
Qed.

(** An exponent is determined by the binade. *)
Lemma pow2_binade (a b : Z) (x : Q) :
  pow2 a <= x -> x < pow2 (b + 1) -> (a <= b)%Z.
Proof.
  intros L U. destruct (Z.le_gt_cases a b) as [H|H]; [exact H|].
  assert (pow2 (b + 1) <= pow2 a) by (apply pow2_le; lia). lra.
Qed.

Lemma pow2_inject (k : Z) : (0 <= k)%Z -> pow2 k == inject_Z (2 ^ k).
Proof.
  intros H. unfold pow2. rewrite (Zpower_Qpower 2 k H). reflexivity.
Qed.

Lemma Zlog2_bounds (n : Z) :
  (0 < n)%Z -> pow2 (Z.log2 n) <= inject_Z n /\ inject_Z n < pow2 (Z.log2 n + 1).
Proof.
  intros H. destruct (Z.log2_spec n H) as [L U].
  pose proof (Z.log2_nonneg n) as N.
  rewrite !pow2_inject by lia. rewrite <- Zle_Qle, <- Zlt_Qlt.
  split; [exact L | exact U].
Qed.

Lemma Qabs_quotient (q : Q) :
  Qabs q == inject_Z (Z.abs (Qnum q)) / inject_Z (Zpos (Qden q)).
Proof.
  destruct q as [n d]. cbn [Qabs Qnum Qden]. apply Qmake_Qdiv.
Qed.

Lemma Qabs_zero (q : Q) : Qabs q == 0 -> q == 0.
Proof.
  intros H. destruct (Qabs_Qle_condition q 0) as [C _].
  destruct C as [L U]; [rewrite H; lra|]. lra.
Qed.

Lemma Qnum_nonzero (q : Q) : ~ q == 0 -> (0 < Z.abs (Qnum q))%Z.
Proof.
  intros H. destruct q as [n d]. cbn [Qnum].
  assert (n <> 0%Z).
  { intros ->. apply H. reflexivity. }
  lia.
Qed.

(** [ilog2 q] is the exponent of the binade of [q]. *)
Lemma ilog2_spec (q : Q) :
  ~ q == 0 -> pow2 (ilog2 q) <= Qabs q /\ Qabs q < pow2 (ilog2 q + 1).
Proof.
  intros Hq. unfold ilog2.
  set (n := Z.abs (Qnum q)). set (d := Zpos (Qden q)).
  set (k := (Z.log2 n - Z.log2 d)%Z).
  assert (Hn : (0 < n)%Z) by (apply Qnum_nonzero; exact Hq).
  assert (Hd : (0 < d)%Z) by (unfold d; lia).
  destruct (Zlog2_bounds n Hn) as [Ln Un].
  destruct (Zlog2_bounds d Hd) as [Ld Ud].
  rewrite pow2_succ in Un, Ud.
  assert (E : Qabs q == inject_Z n / inject_Z d) by apply Qabs_quotient.
  assert (Dpos : 0 < inject_Z d).
  { change 0 with (inject_Z 0). rewrite <- Zlt_Qlt. exact Hd. }
  assert (K : pow2 (Z.log2 n) == pow2 k * pow2 (Z.log2 d)).
  { rewrite <- pow2_add. unfold k.
    replace (Z.log2 n - Z.log2 d + Z.log2 d)%Z with (Z.log2 n) by lia. reflexivity. }
  pose proof (pow2_pos k) as Pk. pose proof (pow2_pos (Z.log2 d)) as Pd.
  assert (Q : Qabs q * inject_Z d == inject_Z n).
  { rewrite E. field. lra. }
  destruct (Qle_bool (pow2 k) (Qabs q)) eqn:B.
  - apply Qle_bool_iff in B. split; [exact B|].
    rewrite pow2_succ.
    apply (Qmult_lt_r _ _ (inject_Z d) Dpos). rewrite Q.
    apply Qlt_le_trans with (2 * pow2 (Z.log2 n)); [exact Un|].
    rewrite K. nra.
  - assert (L : Qabs q < pow2 k).
    { apply Qnot_le_lt. intros C. apply Qle_bool_iff in C. congruence. }
    replace (k - 1 + 1)%Z with k by lia. split; [|exact L].
    assert (S : pow2 k == 2 * pow2 (k - 1)).
    { rewrite <- pow2_succ. replace (k - 1 + 1)%Z with k by lia. reflexivity. }
    apply (Qmult_le_r _ _ (inject_Z d) Dpos). rewrite Q.
    apply Qle_trans with (pow2 (Z.log2 n)); [|exact Ln].
    rewrite K, S. pose proof (pow2_pos (k - 1)). nra.
Qed.

Lemma ilog2_unique (q : Q) (k : Z) :
  pow2 k <= Qabs q -> Qabs q < pow2 (k + 1) -> ilog2 q = k.
Proof.
  intros L U.
  assert (Hq : ~ q == 0).
  { intros E. rewrite E in L. pose proof (pow2_pos k). cbn in L. lra. }
  destruct (ilog2_spec q Hq) as [L' U'].
  pose proof (pow2_binade _ _ _ L U'). pose proof (pow2_binade _ _ _ L' U). lia.
Qed.

Lemma ilog2_comp (p q : Q) : p == q -> ~ q == 0 -> ilog2 p = ilog2 q.
Proof.
  intros E Hq. destruct (ilog2_spec q Hq) as [L U].
  apply ilog2_unique; rewrite E; assumption.
Qed.

Lemma ulp_exponent_comp (p q : Q) :
  p == q -> ~ q == 0 -> ulp_exponent p = ulp_exponent q.
Proof.
  intros E Hq. unfold ulp_exponent. now rewrite (ilog2_comp p q E Hq).
Qed.

Lemma nearest_comp (p q : Q) : p == q -> ~ q == 0 -> nearest p = nearest q.
Proof.
  intros E Hq. unfold nearest. rewrite (ulp_exponent_comp p q E Hq).
  apply Qred_complete.
  rewrite (round_half_even_comp (p / pow2 (ulp_exponent q)) (q / pow2 (ulp_exponent q)));
    [reflexivity|].
  now rewrite E.
Qed.

(** Rounding depends on the number only, not on the fraction that
    denotes it. *)
Lemma binary64_comp (p q : Q) : p == q -> binary64 p = binary64 q.
Proof.
  intros E. unfold binary64.
  destruct (Qeq_bool q 0) eqn:Z.
  - apply Qeq_bool_iff in Z.
    assert (Z' : Qeq_bool p 0 = true) by (apply Qeq_bool_iff; now rewrite E).
    now rewrite Z'.
  - assert (Hq : ~ q == 0) by (intros C; apply Qeq_bool_iff in C; congruence).
    assert (Z' : Qeq_bool p 0 = false).
    { destruct (Qeq_bool p 0) eqn:C; [|reflexivity].
      apply Qeq_bool_iff in C. rewrite E in C. contradiction. }
    rewrite Z'. now rewrite (nearest_comp p q E Hq).
Qed.

Lemma nearest_value (q : Q) :
  nearest q
  == inject_Z (round_half_even (q / pow2 (ulp_exponent q))) * pow2 (ulp_exponent q).
Proof.
  unfold nearest. apply Qred_correct.
Qed.

(** The nearest multiple is within half a unit in the last place. *)
Lemma nearest_error (q : Q) :
  Qabs (nearest q - q) <= pow2 (ulp_exponent q) * (1 # 2).
Proof.
  rewrite nearest_value.
  set (e := ulp_exponent q). pose proof (pow2_pos e) as P.
  set (x := q / pow2 e).
  assert (E : inject_Z (round_half_even x) * pow2 e - q
              == (inject_Z (round_half_even x) - x) * pow2 e).
  { unfold x. field. lra. }
  rewrite E, Qabs_Qmult, (Qabs_pos (pow2 e)) by lra.
  pose proof (round_half_even_nearest x) as N.
  rewrite (Qmult_comm (pow2 e)). apply Qmult_le_compat_r; lra.
Qed.

Lemma ulp_exponent_bound (q : Q) (k : Z) :
  ~ q == 0 -> Qabs q <= pow2 k -> (-1022 <= k)%Z -> (ulp_exponent q <= k - 52)%Z.
Proof.
  intros Hq U K. destruct (ilog2_spec q Hq) as [L _].
  assert (ilog2 q <= k)%Z.
  { apply (pow2_binade _ _ (Qabs q)); [exact L|].
    apply Qle_lt_trans with (pow2 k); [exact U | apply pow2_lt; lia]. }
  unfold ulp_exponent. lia.
Qed.

Lemma ulp_exponent_normal (q : Q) :
  pow2 (-1022) <= Qabs q -> ulp_exponent q = (ilog2 q - 52)%Z.
Proof.
  intros L.
  assert (Hq : ~ q == 0).
  { intros E. rewrite E in L. pose proof (pow2_pos (-1022)). cbn in L. lra. }
  destruct (ilog2_spec q Hq) as [_ U].
  pose proof (pow2_binade _ _ _ L U). unfold ulp_exponent. lia.
Qed.

(** Below the overflow threshold the double is the nearest multiple. *)
Lemma binary64_nearest (q : Q) (k : Z) :
  ~ q == 0 -> (-1022 <= k <= 1022)%Z -> Qabs q <= pow2 k ->
  binary64 q = Fin (nearest q)
  /\ Qabs (nearest q - q) <= pow2 (k - 53)
  /\ Qabs (nearest q) <= pow2 (k + 1).
Proof.
  intros Hq K U.
  pose proof (nearest_error q) as N.
  pose proof (ulp_exponent_bound q k Hq U ltac:(lia)) as B.
  assert (E : pow2 (ulp_exponent q) * (1 # 2) <= pow2 (k - 53)).
  { apply Qle_trans with (pow2 (k - 52) * (1 # 2)).
    - apply Qmult_le_compat_r; [apply pow2_le; exact B | lra].
    - replace (k - 52)%Z with (k - 53 + 1)%Z by lia. rewrite pow2_succ. lra. }
  assert (Err : Qabs (nearest q - q) <= pow2 (k - 53)) by lra.
  assert (Small : pow2 (k - 53) <= pow2 k) by (apply pow2_le; lia).
  assert (Bound : Qabs (nearest q) <= pow2 (k + 1)).
  { rewrite pow2_succ.
    assert (T : nearest q == (nearest q - q) + q) by ring.
    rewrite T. eapply Qle_trans; [apply Qabs_triangle|]. lra. }
  split; [|split; assumption].
  unfold binary64.
  assert (Z : Qeq_bool q 0 = false).
  { destruct (Qeq_bool q 0) eqn:C; [|reflexivity]. apply Qeq_bool_iff in C. contradiction. }
  rewrite Z.
  assert (O : Qle_bool (pow2 1024) (Qabs (nearest q)) = false).
  { destruct (Qle_bool (pow2 1024) (Qabs (nearest q))) eqn:C; [|reflexivity].
    apply Qle_bool_iff in C.
    assert (pow2 (k + 1) < pow2 1024) by (apply pow2_lt; lia). lra. }
  now rewrite O.
Qed.

(** A number of ordinary magnitude rounds to a double of ordinary
    magnitude. *)
Lemma binary64_finite (q : Q) (k : Z) :
  (-1022 <= k <= 1022)%Z -> Qabs q <= pow2 k ->
  exists r, binary64 q = Fin r /\ Qabs r <= pow2 (k + 1).
Proof.
  intros K U. destruct (Qeq_bool q 0) eqn:Z.
  - exists 0. unfold binary64. rewrite Z. split; [reflexivity|].
    pose proof (pow2_pos (k + 1)). cbn. lra.
  - assert (Hq : ~ q == 0) by (intros C; apply Qeq_bool_iff in C; congruence).
    destruct (binary64_nearest q k Hq K U) as (E & _ & B). eauto.
Qed.

(** In the range of the normal doubles the relative error of a rounding
    is at most [2 ^ -53]. *)
Lemma binary64_relative (q : Q) :
  pow2 (-1022) <= Qabs q -> Qabs q <= pow2 1022 ->
  exists r, binary64 q = Fin r /\ Qabs (r - q) <= Qabs q * pow2 (-53).
Proof.
  intros L U.
  assert (Hq : ~ q == 0).
  { intros E. rewrite E in L. pose proof (pow2_pos (-1022)). cbn in L. lra. }
  destruct (binary64_nearest q 1022 Hq ltac:(lia) U) as (E & _ & _).
  exists (nearest q). split; [exact E|].
  eapply Qle_trans; [apply nearest_error|].
  rewrite (ulp_exponent_normal q L).
  destruct (ilog2_spec q Hq) as [Lq _].
  replace (ilog2 q - 52)%Z with (ilog2 q + -53 + 1)%Z by lia.
  rewrite pow2_succ, pow2_add.
  pose proof (pow2_pos (-53)). pose proof (pow2_pos (ilog2 q)). nra.
Qed.

Lemma round_half_even_integer (m : Z) : round_half_even (inject_Z m) = m.
Proof.
  unfold round_half_even. rewrite Qfloor_Z.
  destruct (Qcompare_spec (inject_Z m - inject_Z m) (1 # 2)) as [E|L|G];
    [lra | reflexivity | lra].
Qed.

Lemma Qred_idempotent (q : Q) : Qred (Qred q) = Qred q.
Proof.
  apply Qred_complete, Qred_correct.
Qed.

Lemma ulp_exponent_min (q : Q) : (-1074 <= ulp_exponent q)%Z.
Proof.
  unfold ulp_exponent. lia.
Qed.

Lemma ulp_exponent_ilog2 (q : Q) : (ilog2 q - 52 <= ulp_exponent q)%Z.
Proof.
  unfold ulp_exponent. lia.
Qed.

(** The significand of the nearest multiple has at most 53 bits, and
    exactly 53 when the exponent is not the smallest one. *)
Lemma significand_bounds (q : Q) :
  ~ q == 0 ->
  let m := round_half_even (q / pow2 (ulp_exponent q)) in
  (Z.abs m <= 2 ^ 53)%Z
  /\ ((-1074 < ulp_exponent q)%Z -> (2 ^ 52 <= Z.abs m)%Z).
Proof.
  intros Hq m. set (e := ulp_exponent q) in *. set (x := q / pow2 e) in *.
  pose proof (pow2_pos e) as P.
  destruct (ilog2_spec q Hq) as [L U].
  assert (Ax : Qabs x == Qabs q / pow2 e).
  { unfold x, Qdiv. rewrite Qabs_Qmult, Qabs_Qinv, (Qabs_pos (pow2 e)) by lra. reflexivity. }
  assert (Ux : Qabs x <= inject_Z (2 ^ 53)).
  { rewrite Ax. apply Qle_shift_div_r; [exact P|].
    rewrite <- pow2_inject by lia. rewrite <- pow2_add.
    apply Qlt_le_weak, Qlt_le_trans with (pow2 (ilog2 q + 1)); [exact U|].
    apply pow2_le. pose proof (ulp_exponent_ilog2 q). fold e in H. lia. }
  apply Qabs_Qle_condition in Ux. destruct Ux as [Ux1 Ux2].
  rewrite <- inject_Z_opp in Ux1.
  pose proof (round_half_even_range x _ _ Ux1 Ux2) as R. fold m in R.
  split; [lia|].
  intros Hn.
  assert (He : e = (ilog2 q - 52)%Z) by (unfold e, ulp_exponent in *; lia).
  assert (Lx : inject_Z (2 ^ 52) <= Qabs x).
  { rewrite Ax. apply Qle_shift_div_l; [exact P|].
    rewrite <- pow2_inject by lia. rewrite <- pow2_add.
    replace (52 + e)%Z with (ilog2 q) by lia. exact L. }
  destruct (Qlt_le_dec x 0) as [Neg|Pos].
  - rewrite (Qabs_neg x) in Lx by lra.
    assert (Hi : x <= inject_Z (- 2 ^ 52)) by (rewrite inject_Z_opp; lra).
    pose proof (round_half_even_range x _ _ Ux1 Hi) as R'. fold m in R'. lia.
  - rewrite (Qabs_pos x) in Lx by lra.
    pose proof (round_half_even_range x _ _ Lx Ux2) as R'. fold m in R'. lia.
Qed.

Lemma nearest_of_multiple (r : Q) (m e : Z) :
  ~ r == 0 -> r == inject_Z m * pow2 e -> ulp_exponent r = e -> nearest r = Qred r.
Proof.
  intros Hr E He. unfold nearest. rewrite He. apply Qred_complete.
  pose proof (pow2_pos e) as P.
  assert (X : r / pow2 e == inject_Z m) by (rewrite E; field; lra).
  rewrite (round_half_even_comp _ _ X), round_half_even_integer. now rewrite E.
Qed.

Lemma Zlog2_le_53 (m : Z) : (Z.abs m <= 2 ^ 53)%Z -> (Z.log2 (Z.abs m) <= 53)%Z.
Proof.
  intros H. apply Z.log2_le_mono in H.
  now rewrite Z.log2_pow2 in H by lia.
Qed.

(** A double rounds to itself. *)
Lemma nearest_idempotent (q : Q) :
  ~ q == 0 -> ~ nearest q == 0 -> nearest (nearest q) = nearest q.
Proof.
  intros Hq Hr.
  pose proof (nearest_value q) as V.
  destruct (significand_bounds q Hq) as [Hi Lo].
  set (e := ulp_exponent q) in *.
  set (m := round_half_even (q / pow2 e)) in *.
  pose proof (ulp_exponent_min q) as Emin. fold e in Emin.
  pose proof (pow2_pos e) as P.
  assert (Hm : (0 < Z.abs m)%Z).
  { assert (m <> 0%Z); [|lia]. intros C. apply Hr. rewrite V, C. ring. }
  set (j := Z.log2 (Z.abs m)).
  destruct (Zlog2_bounds (Z.abs m) Hm) as [Lj Uj]. fold j in Lj, Uj.
  pose proof (Zlog2_le_53 m Hi) as J53. fold j in J53.
  pose proof (Z.log2_nonneg (Z.abs m)) as J0. fold j in J0.
  assert (A : Qabs (nearest q) == inject_Z (Z.abs m) * pow2 e).
  { rewrite V, Qabs_Qmult, (Qabs_pos (pow2 e)) by lra.
    reflexivity. }
  assert (I : ilog2 (nearest q) = (j + e)%Z).
  { apply ilog2_unique; rewrite A.
    - rewrite pow2_add. apply Qmult_le_compat_r; lra.
    - replace (j + e + 1)%Z with (j + 1 + e)%Z by lia. rewrite pow2_add.
      apply Qmult_lt_compat_r; lra. }
  assert (Idem : nearest (nearest q) = Qred (nearest q)).
  { destruct (Z.le_gt_cases j 52) as [Small|Big].
    - apply (nearest_of_multiple _ m e Hr V).
      unfold ulp_exponent. rewrite I.
      destruct (Z.eq_dec e (-1074)) as [->|Ne]; [lia|].
      assert (2 ^ 52 <= Z.abs m)%Z as Lo' by (apply Lo; lia).
      assert (52 <= j)%Z.
      { unfold j. rewrite <- (Z.log2_pow2 52) by lia. now apply Z.log2_le_mono. }
      lia.
    - assert (J : j = 53%Z) by lia.
      assert (M : Z.abs m = (2 ^ 53)%Z).
      { apply Z.le_antisymm; [exact Hi|].
        rewrite J in Lj. rewrite pow2_inject in Lj by lia.
        now rewrite <- Zle_Qle in Lj. }
      apply (nearest_of_multiple _ (m / 2) (e + 1) Hr).
      + rewrite V, pow2_succ.
        assert (D : m = (2 * (m / 2))%Z).
        { destruct (Z.abs_eq_or_opp m) as [E|E]; rewrite E in M.
          - rewrite M. reflexivity.
          - assert (m = (- 2 ^ 53)%Z) as -> by lia. reflexivity. }
        rewrite D at 1. rewrite inject_Z_mult. change (inject_Z 2) with 2. ring.
      + unfold ulp_exponent. rewrite I. lia. }
  rewrite Idem. unfold nearest. apply Qred_idempotent.
Qed.

Lemma binary64_idempotent (q r : Q) : binary64 q = Fin r -> binary64 r = Fin r.
Proof.
  unfold binary64 at 1.
  destruct (Qeq_bool q 0) eqn:Z.
  - intros H. injection H as <-. reflexivity.
  - assert (Hq : ~ q == 0) by (intros C; apply Qeq_bool_iff in C; congruence).
    destruct (Qle_bool (pow2 1024) (Qabs (nearest q))) eqn:O;
      [destruct (Qle_bool 0 (nearest q)); discriminate|].
    intros H. injection H as <-.
    unfold binary64.
    destruct (Qeq_bool (nearest q) 0) eqn:Z'.
    + apply Qeq_bool_iff in Z'. f_equal.
      assert (E : Qred (nearest q) = Qred 0) by (apply Qred_complete; exact Z').
      unfold nearest in E at 1. rewrite Qred_idempotent in E. exact (eq_sym E).
    + assert (Hr : ~ nearest q == 0) by (intros C; apply Qeq_bool_iff in C; congruence).
      rewrite (nearest_idempotent q Hq Hr). now rewrite O.
Qed.

Lemma fl_idempotent (x : float) : fl (fl x) = fl x.
Proof.
  destruct x as [q| | |]; try reflexivity.
  cbn [fl]. destruct (binary64 q) as [r| | |] eqn:E; try reflexivity.
  cbn [fl]. exact (binary64_idempotent q r E).
Qed.

Lemma binary64_not_nan (q : Q) : binary64 q <> NaN.
Proof.
  unfold binary64. destruct (Qeq_bool q 0); [discriminate|].
  destruct (Qle_bool (pow2 1024) (Qabs (nearest q)));
    [destruct (Qle_bool 0 (nearest q)); discriminate | discriminate].
Qed.

Lemma fl_double (x : float) : Binary64.double (fl x).
Proof.
  apply fl_idempotent.
Qed.

Lemma zero_double : Binary64.double (Fin 0).
Proof.
  reflexivity.
Qed.

(** Multiplying a double by 1 gives the double. *)
Lemma mul_one (x : float) : Binary64.double x -> Binary64.mul x (Fin 1) = x.
Proof.
  unfold Binary64.double, Binary64.mul. intros D.
  destruct x as [q| | |]; try reflexivity.
  cbn [fmul fl] in *. transitivity (binary64 q); [|exact D].
  apply binary64_comp. ring.
Qed.

(** * The score combiner in binary64 *)

Lemma zip_with_nth_error {A B C} (f : A -> B -> C) (l : list A) (m : list B)
  (i : nat) (a : A) (b : B) :
  nth_error l i = Some a -> nth_error m i = Some b ->
  nth_error (zip_with f l m) i = Some (f a b).
Proof.
  revert m i. induction l as [|x l IH]; intros [|y m] [|i] Ha Hb;
    simpl in *; try discriminate.
  - now injection Ha as ->; injection Hb as ->.
  - now apply IH.
Qed.

Lemma mapM_nth_error {A B} (f : A -> result B) (l : list A) (l' : list B)
  (i : nat) (x : A) :
  mapM f l = Ok l' -> nth_error l i = Some x ->
  exists y, nth_error l' i = Some y /\ f x = Ok y.
Proof.
  revert l' i. induction l as [|a l IH]; intros l' [|i] H Hx; simpl in *;
    try discriminate.
  - injection Hx as ->. bind_inv H as b Hb. bind_inv H as bs Hbs.
    injection H as <-. exists b. split; [reflexivity | exact Hb].
  - bind_inv H as b Hb. bind_inv H as bs Hbs. injection H as <-.
    simpl. now apply (IH bs i).
Qed.

(** The clamp, the rounding and the cast of the code on one product. *)
Lemma clamp_round_clamped (x : float) :
  match Binary64.clamped x with
  | Some v => astype_int (clamp_round x) = Ok (round_half_even v) /\ 0 <= v <= 1000
  | None => exists e, astype_int (clamp_round x) = Raise e
  end.
Proof.
  destruct x as [q| | |]; cbn [Binary64.clamped].
  - unfold clamp_round. cbn [np_maximum np_minimum np_round].
    rewrite astype_int_integer. split; [reflexivity|]. apply clamp_range. lra.
  - split; [reflexivity | lra].
  - split; [reflexivity | lra].
  - eexists. reflexivity.
Qed.

Lemma anomaly_boost_factor (x : float) (f : bool) :
  Binary64.double x ->
  Binary64.anomaly_boost x f
  = Binary64.mul x (if f then Binary64.literal (15 # 10) else Fin 1).
Proof.
  intros D. unfold Binary64.anomaly_boost. destruct f; [reflexivity|].
  now rewrite mul_one.
Qed.

(** One row of the combiner. *)
Lemma final_row (b : float) (f : bool) (a : float) :
  Binary64.mul (Binary64.anomaly_boost (fl b) f) (fl a)
  = Binary64.final_product (fl b) f (fl a).
Proof.
  unfold Binary64.final_product. now rewrite anomaly_boost_factor by apply fl_double.
Qed.

Lemma round_clamped_range (v : Q) :
  0 <= v <= 1000 -> (0 <= round_half_even v <= 1000)%Z.
Proof.
  intros H. apply round_half_even_range.
  - change (inject_Z 0) with 0. tauto.
  - change (inject_Z 1000) with 1000. tauto.
Qed.

Lemma populated_product (b : float) (f : bool) (a : float) :
  Binary64.populated b -> Binary64.populated a ->
  Binary64.final_product (fl b) f (fl a) <> NaN.
Proof.
  intros (qb & -> & Hb) (qa & -> & Ha).
  destruct (binary64_finite qb 1000 ltac:(lia) Hb) as (rb & Eb & Bb).
  destruct (binary64_finite qa 1000 ltac:(lia) Ha) as (ra & Ea & _).
  unfold Binary64.final_product. cbn [fl]. rewrite Eb, Ea.
  assert (S : exists r, Binary64.mul (Fin rb)
                          (if f then Binary64.literal (15 # 10) else Fin 1) = Fin r).
  { destruct f.
    - change (Binary64.literal (15 # 10)) with (Fin (3 # 2)).
      unfold Binary64.mul. cbn [fmul fl].
      destruct (binary64_finite (rb * (3 # 2)) 1002 ltac:(lia)) as (r & E & _); [|eauto].
      rewrite Qabs_Qmult. change (Qabs (3 # 2)) with (3 # 2).
      replace 1002%Z with (1000 + 1 + 1)%Z by lia. rewrite !pow2_succ.
      rewrite pow2_succ in Bb. pose proof (Qabs_nonneg rb). pose proof (pow2_pos 1000).
      lra.
    - unfold Binary64.mul. cbn [fmul fl].
      destruct (binary64_finite (rb * 1) 1001 ltac:(lia)) as (r & E & _); [|eauto].
      rewrite Qabs_Qmult. change (Qabs 1) with 1.
      change (1000 + 1)%Z with 1001%Z in Bb. lra. }
  destruct S as (r & ->). unfold Binary64.mul. cbn [fmul fl]. apply binary64_not_nan.
Qed.

Lemma final_scores_rows64 (bases : list float) (anomalies : list bool) (adjs : list float) :
  Forall Binary64.populated bases -> Forall Binary64.populated adjs ->
  exists scores,
    mapM (fun x => astype_int (clamp_round x))
         (zip_with Binary64.mul
            (zip_with Binary64.anomaly_boost (map fl bases) anomalies) (map fl adjs))
    = Ok scores
    /\ map Some scores = Binary64.final_scores bases anomalies adjs.
Proof.
  unfold Binary64.final_scores.
  revert anomalies adjs. induction bases as [|b bases IH]; intros [|f anomalies] [|a adjs] Hb Ha;
    try (exists []; split; reflexivity).
  inversion Hb as [|? ? Pb Hb']. inversion Ha as [|? ? Pa Ha']. subst.
  destruct (IH anomalies adjs Hb' Ha') as (scores & E & S).
  cbn [map zip_with combine mapM]. rewrite final_row.
  pose proof (clamp_round_clamped (Binary64.final_product (fl b) f (fl a))) as C.
  pose proof (populated_product b f a Pb Pa) as N.
  destruct (Binary64.final_product (fl b) f (fl a)) as [q| | |] eqn:P;
    cbn [Binary64.clamped] in C; try contradiction;
    destruct C as [C _]; rewrite C; cbn [bind]; rewrite E; cbn [bind];
    eexists; (split; [reflexivity|]); cbn [map option_map]; now rewrite S.
Qed.

(** C1. For every row of a table with its base score, anomaly flag and
    cluster adjustment, the combiner, when it returns, gives the integer
    obtained from the product [base * (1.5 if anomaly else 1) * clusterAdj]
    (each multiplication rounded to a double) by clamping it once, at the
    end, to [0, 1000] and rounding the clamped value to the nearest
    integer, ties to the even one; the score is between 0 and 1000.  When
    every row is populated (numbers of magnitude at most [2 ^ 1000]) the
    combiner returns.  An unpopulated row makes the call raise for all
    rows, which is why the second part asks for whole columns. *)
Theorem final_risk_score_formula
  (df : DataFrame) (bases : list float) (anomalies : list bool) (adjs : list float) :
  getitem df "base_risk_score" = Ok (Numeric bases) ->
  getitem df "is_anomaly" = Ok (Boolean anomalies) ->
  getitem df "cluster_risk_adjustment" = Ok (Numeric adjs) ->
  (forall scores i b f a,
     Binary64.calculate_final_risk_score df = Ok scores ->
     nth_error bases i = Some b ->
     nth_error anomalies i = Some f ->
     nth_error adjs i = Some a ->
     exists v,
       Binary64.clamped (Binary64.final_product (fl b) f (fl a)) = Some v
       /\ 0 <= v <= 1000
       /\ nth_error scores i = Some (round_half_even v)
       /\ (0 <= round_half_even v <= 1000)%Z
       /\ Qabs (inject_Z (round_half_even v) - v) <= 1 # 2)
  /\ (Forall Binary64.populated bases -> Forall Binary64.populated adjs ->
      exists scores,
        Binary64.calculate_final_risk_score df = Ok scores
        /\ map Some scores = Binary64.final_scores bases anomalies adjs).
Proof.
  intros Hb Hf Ha.
  assert (U : Binary64.calculate_final_risk_score df
              = mapM (fun x => astype_int (clamp_round x))
                     (zip_with Binary64.mul
                        (zip_with Binary64.anomaly_boost (map fl bases) anomalies)
                        (map fl adjs))).
  { unfold Binary64.calculate_final_risk_score, Binary64.to_floats.
    rewrite Hb, Hf, Ha. reflexivity. }
  rewrite U. split.
  - intros scores i b f a H Nb Nf Na.
    assert (Nx : nth_error (zip_with Binary64.mul
                              (zip_with Binary64.anomaly_boost (map fl bases) anomalies)
                              (map fl adjs)) i
                 = Some (Binary64.final_product (fl b) f (fl a))).
    { rewrite <- final_row. apply zip_with_nth_error.
      - apply zip_with_nth_error; [|exact Nf]. now rewrite nth_error_map, Nb.
      - now rewrite nth_error_map, Na. }
    destruct (mapM_nth_error _ _ _ _ _ H Nx) as (z & Hz & Ez).
    pose proof (clamp_round_clamped (Binary64.final_product (fl b) f (fl a))) as C.
    destruct (Binary64.clamped (Binary64.final_product (fl b) f (fl a))) as [v|].
    + destruct C as [C R]. exists v. split; [reflexivity|]. split; [exact R|].
      rewrite C in Ez. injection Ez as <-. split; [exact Hz|].
      split; [now apply round_clamped_range | apply round_half_even_nearest].
    + destruct C as (e & C). congruence.
  - intros Pb Pa. now apply final_scores_rows64.
Qed.

Lemma final_risk_score_formula_witness :
  Binary64.calculate_final_risk_score example_scored = Ok [50; 1000; 2]%Z
  /\ Binary64.calculate_final_risk_score example_ties = Ok [5; 2]%Z
  /\ (exists v,
        Binary64.clamped (Binary64.final_product (fl (Fin (1 # 10))) true (fl (Fin 30)))
        = Some v
        /\ round_half_even v = 5%Z)
  /\ exists scores,
       Binary64.calculate_final_risk_score example_ties = Ok scores
       /\ map Some scores
          = Binary64.final_scores [Fin (1 # 10); Fin (25 # 2)] [true; false]
              [Fin 30; Fin (2 # 10)].
Proof.
  split; [vm_compute; reflexivity|]. split; [vm_compute; reflexivity|].
  pose proof (final_risk_score_formula example_ties
                [Fin (1 # 10); Fin (25 # 2)] [true; false] [Fin 30; Fin (2 # 10)]
                eq_refl eq_refl eq_refl) as [Rows Total].
  split.
  - destruct (Rows [5; 2]%Z 0%nat (Fin (1 # 10)) true (Fin 30)
                ltac:(vm_compute; reflexivity) eq_refl eq_refl eq_refl)
      as (v & Hv & _ & Hs & _).
    exists v. split; [exact Hv|]. simpl in Hs. now injection Hs.
  - apply Total; repeat constructor;
      (eexists; split; [reflexivity | apply Qle_bool_iff; vm_compute; reflexivity]).
Defined.

(** With exact products the first score of the example is 4, where the
    code gives 5; and the second is 3, where the code gives 2, when the
    double nearest to 0.2 is multiplied exactly: the roundings of the
    products decide both. *)
Example exact_products_differ :
  calculate_final_risk_score example_ties = Ok [4; 2]%Z
  /\ round_half_even ((25 # 2) * (3602879701896397 # 18014398509481984)) = 3%Z
  /\ binary64 (2 # 10) = Fin (3602879701896397 # 18014398509481984).
Proof.
  repeat split; vm_compute; reflexivity.
Qed.

(** * The base risk scorer in binary64 *)

Lemma mul_double (x y : float) : Binary64.double (Binary64.mul x y).
Proof.
  apply fl_double.
Qed.

Lemma add_double (x y : float) : Binary64.double (Binary64.add x y).
Proof.
  apply fl_double.
Qed.

Lemma fold_add_double (l : list float) (acc : float) :
  Binary64.double acc -> Binary64.double (fold_left Binary64.add l acc).
Proof.
  revert acc. induction l as [|x l IH]; intros acc D; [exact D|].
  apply IH, add_double.
Qed.

Lemma base_score_double (fs : Frame float) (i : nat) :
  Binary64.double (Binary64.base_score fs i).
Proof.
  apply fold_add_double, zero_double.
Qed.

(** A rule multiplies the score by its boost: the factor when it fires,
    and 1 otherwise. *)
Lemma adjust_boost64 (fs : Frame float) (name : string) (threshold factor : Q)
  (i : nat) (score : float) :
  Binary64.double score ->
  Binary64.adjust fs name threshold factor i score
  = Binary64.mul score (Binary64.boost fs name threshold factor i).
Proof.
  intros D. unfold Binary64.adjust, Binary64.boost.
  destruct (Binary64.exceeds fs name threshold i); [reflexivity|].
  now rewrite mul_one.
Qed.

Lemma adjusted_score_product64 (fs : Frame float) (i : nat) :
  Binary64.adjusted_score fs i
  = Binary64.mul
      (Binary64.mul
         (Binary64.mul (Binary64.base_score fs i) (Binary64.error_boost fs i))
         (Binary64.zero_value_boost fs i))
      (Binary64.frequency_boost fs i).
Proof.
  unfold Binary64.adjusted_score, Binary64.error_boost, Binary64.zero_value_boost,
    Binary64.frequency_boost.
  rewrite (adjust_boost64 fs "error_rate") by apply base_score_double.
  rewrite (adjust_boost64 fs "zero_value_ratio") by apply mul_double.
  rewrite (adjust_boost64 fs "transaction_frequency") by apply mul_double.
  reflexivity.
Qed.

(** Two successive products by factors between 1 and 2 are within
    [2u + u^2] of the exact product, for [u = 2 ^ -53]. *)
Lemma two_products (b c1 c2 : Q) :
  pow2 (-1000) <= b -> b <= pow2 1000 -> 1 <= c1 <= 2 -> 1 <= c2 <= 2 ->
  exists v,
    Binary64.mul (Binary64.mul (Fin b) (Fin c1)) (Fin c2) = Fin v
    /\ Qabs (v - b * c1 * c2)
       <= b * c1 * c2 * (2 * pow2 (-53) + pow2 (-53) * pow2 (-53)).
Proof.
  intros Lb Ub C1 C2.
  pose proof (pow2_pos (-1000)) as P0.
  set (u := pow2 (-53)).
  assert (Hu : 0 < u /\ u <= 1 # 2).
  { split; [apply pow2_pos | apply (pow2_le (-53) (-1)); lia]. }
  assert (Lo : pow2 (-1022) <= pow2 (-1000) * (1 # 2)).
  { replace (-1000)%Z with (-1001 + 1)%Z by lia. rewrite pow2_succ.
    assert (pow2 (-1022) <= pow2 (-1001)) by (apply pow2_le; lia). lra. }
  assert (Hi : 8 * pow2 1000 <= pow2 1022).
  { assert (E : pow2 1003 == 8 * pow2 1000).
    { replace 1003%Z with (1000 + 1 + 1 + 1)%Z by lia. rewrite !pow2_succ. ring. }
    rewrite <- E. apply pow2_le. lia. }
  (* first product *)
  set (p1 := b * c1).
  assert (B1 : pow2 (-1000) <= p1 /\ p1 <= 2 * pow2 1000).
  { unfold p1. split.
    - apply Qle_trans with (b * 1); [lra|]. apply Qmult_le_l; lra.
    - apply Qle_trans with (b * 2); [apply Qmult_le_l; lra | lra]. }
  destruct (binary64_relative p1) as (r1 & E1 & R1);
    [rewrite Qabs_pos by lra; lra | rewrite Qabs_pos by lra; lra |].
  rewrite (Qabs_pos p1) in R1 by lra. fold u in R1.
  apply Qabs_Qle_condition in R1.
  assert (U1 : p1 * u <= p1 * (1 # 2)) by (apply Qmult_le_l; lra).
  assert (Hr1 : p1 * (1 # 2) <= r1 /\ r1 <= 2 * p1) by (split; lra).
  (* second product *)
  set (p2 := r1 * c2).
  assert (B2 : r1 <= p2 /\ p2 <= 2 * r1).
  { unfold p2. split.
    - apply Qle_trans with (r1 * 1); [lra|]. apply Qmult_le_l; lra.
    - apply Qle_trans with (r1 * 2); [apply Qmult_le_l; lra | lra]. }
  destruct (binary64_relative p2) as (r2 & E2 & R2);
    [rewrite Qabs_pos by lra; lra | rewrite Qabs_pos by lra; lra |].
  rewrite (Qabs_pos p2) in R2 by lra. fold u in R2.
  apply Qabs_Qle_condition in R2.
  exists r2. split.
  - unfold Binary64.mul. cbn [fmul fl]. fold p1. rewrite E1. cbn [fmul fl]. exact E2.
  - fold p1.
    assert (M1 : (r1 - p1) * c2 <= p1 * u * c2) by (apply Qmult_le_compat_r; lra).
    assert (M2 : - (p1 * u) * c2 <= (r1 - p1) * c2) by (apply Qmult_le_compat_r; lra).
    assert (M3 : p2 * u <= (p1 * c2 + p1 * u * c2) * u).
    { apply Qmult_le_compat_r; [|lra]. unfold p2. lra. }
    assert (N : 0 <= p1 * c2 * (u * u)).
    { apply Qmult_le_0_compat; [apply Qmult_le_0_compat; lra|].
      apply Qmult_le_0_compat; lra. }
    apply Qabs_Qle_condition. unfold p2 in *. split; lra.
Qed.

Lemma literal_13 : Binary64.literal (13 # 10) = Fin (5854679515581645 # 4503599627370496).
Proof.
  vm_compute. reflexivity.
Qed.

Lemma literal_12 : Binary64.literal (12 # 10) = Fin (5404319552844595 # 4503599627370496).
Proof.
  vm_compute. reflexivity.
Qed.

(** The first two boosts together multiply a base value by 1.56, up to
    the roundings of the two factors and of the two products. *)
Lemma first_two_boosts (b : Q) :
  pow2 (-1000) <= b -> b <= pow2 1000 ->
  exists v,
    Binary64.mul (Binary64.mul (Fin b) (Binary64.literal (13 # 10)))
                 (Binary64.literal (12 # 10)) = Fin v
    /\ Qabs (v - (156 # 100) * b) <= (156 # 100) * b * pow2 (-50).
Proof.
  intros Lb Ub. rewrite literal_13, literal_12.
  set (c1 := 5854679515581645 # 4503599627370496).
  set (c2 := 5404319552844595 # 4503599627370496).
  destruct (two_products b c1 c2 Lb Ub) as (v & E & R);
    [unfold c1; split; unfold Qle; simpl; lia
    |unfold c2; split; unfold Qle; simpl; lia|].
  exists v. split; [exact E|].
  pose proof (pow2_pos (-1000)) as P0.
  assert (K : c1 * c2 * (1 + (2 * pow2 (-53) + pow2 (-53) * pow2 (-53)))
              <= (156 # 100) * (1 + pow2 (-50))
              /\ (156 # 100) * (1 - pow2 (-50))
                 <= c1 * c2 * (1 - (2 * pow2 (-53) + pow2 (-53) * pow2 (-53)))).
  { split; apply Qle_bool_iff; vm_compute; reflexivity. }
  destruct K as [K1 K2].
  apply Qabs_Qle_condition in R. apply Qabs_Qle_condition.
  set (w := 2 * pow2 (-53) + pow2 (-53) * pow2 (-53)) in *.
  set (t := pow2 (-50)) in *.
  assert (Hb : 0 < b) by lra.
  split.
  - apply Qle_trans with (b * (c1 * c2 * (1 - w)) - (156 # 100) * b).
    + assert (b * ((156 # 100) * (1 - t)) <= b * (c1 * c2 * (1 - w)))
        by (apply Qmult_le_l; assumption).
      lra.
    + lra.
  - apply Qle_trans with (b * (c1 * c2 * (1 + w)) - (156 # 100) * b).
    + lra.
    + assert (b * (c1 * c2 * (1 + w)) <= b * ((156 # 100) * (1 + t)))
        by (apply Qmult_le_l; assumption).
      lra.
Qed.

Lemma np_minimum_cap (x : float) : fgt (np_minimum x (Fin 1000)) (Fin 1000) = false.
Proof.
  destruct x as [q| | |]; try reflexivity.
  cbn [np_minimum fgt]. apply negb_false_iff, Qle_bool_iff, Q.le_min_r.
Qed.

(** C5. The score returned for a row is the base value multiplied, in
    this order and with a rounding after each product, by the boosts of
    the three rules on the min-max scaled features (1.3 when the scaled
    error rate exceeds 0.1, 1.2 when the scaled zero-value ratio exceeds
    0.5, 1.4 when the scaled transaction frequency exceeds 0.95, and 1 when
    a rule does not fire), then by 1000, and capped above at 1000 with no
    lower clamp.  A row that meets the first two conditions has its base
    value multiplied by 1.3 and then by 1.2, which is 1.56 times the base
    value up to a relative error of [2 ^ -50]. *)
Theorem boosts_compose (df : DataFrame) (scores : list float) :
  Binary64.calculate_advanced_risk_score df = Ok scores ->
  exists fs,
    Binary64.features_scaled df = Ok fs
    /\ List.length scores = index df
    /\ forall i, (i < index df)%nat ->
         exists s,
           nth_error scores i = Some s
           /\ s = np_minimum
                    (Binary64.mul
                       (Binary64.adjust fs "transaction_frequency" (95 # 100) (14 # 10) i
                          (Binary64.adjust fs "zero_value_ratio" (5 # 10) (12 # 10) i
                             (Binary64.adjust fs "error_rate" (1 # 10) (13 # 10) i
                                (Binary64.base_score fs i))))
                       (Fin 1000))
                    (Fin 1000)
           /\ s = np_minimum
                    (Binary64.mul
                       (Binary64.mul
                          (Binary64.mul
                             (Binary64.mul (Binary64.base_score fs i)
                                           (Binary64.error_boost fs i))
                             (Binary64.zero_value_boost fs i))
                          (Binary64.frequency_boost fs i))
                       (Fin 1000))
                    (Fin 1000)
           /\ (Binary64.exceeds fs "error_rate" (1 # 10) i = true ->
               Binary64.exceeds fs "zero_value_ratio" (5 # 10) i = true ->
               s = np_minimum
                     (Binary64.mul
                        (Binary64.mul
                           (Binary64.mul
                              (Binary64.mul (Binary64.base_score fs i)
                                            (Binary64.literal (13 # 10)))
                              (Binary64.literal (12 # 10)))
                           (Binary64.frequency_boost fs i))
                        (Fin 1000))
                     (Fin 1000)
               /\ forall b,
                    Binary64.base_score fs i = Fin b ->
                    pow2 (-1000) <= b -> b <= pow2 1000 ->
                    exists v,
                      Binary64.mul
                        (Binary64.mul (Binary64.base_score fs i)
                                      (Binary64.literal (13 # 10)))
                        (Binary64.literal (12 # 10)) = Fin v
                      /\ Qabs (v - (156 # 100) * b) <= (156 # 100) * b * pow2 (-50))
           /\ fgt s (Fin 1000) = false
           /\ forall x,
                Binary64.mul (Binary64.adjusted_score fs i) (Fin 1000) = Fin x ->
                s = Fin (Qmin x 1000).
Proof.
  unfold Binary64.calculate_advanced_risk_score. intros H. bind_inv H as fs Hfs.
  injection H as <-. exists fs. split; [exact Hfs|]. split.
  - now rewrite length_map, length_seq.
  - intros i Hi. eexists. split; [apply nth_error_map_seq; exact Hi|].
    split; [reflexivity|]. split; [now rewrite adjusted_score_product64|].
    split; [|split].
    + intros He Hz. split.
      * rewrite adjusted_score_product64.
        unfold Binary64.error_boost, Binary64.zero_value_boost, Binary64.boost.
        now rewrite He, Hz.
      * intros b Hb Lb Ub. rewrite Hb. now apply first_two_boosts.
    + apply np_minimum_cap.
    + intros x Hx. now rewrite Hx.
Qed.

Lemma boosts_compose_witness :
  exists fs,
    Binary64.calculate_advanced_risk_score example_boosted = Ok [Fin 200; Fin 312; Fin 130]
    /\ Binary64.features_scaled example_boosted = Ok fs
    /\ Binary64.exceeds fs "error_rate" (1 # 10) 1 = true
    /\ Binary64.exceeds fs "zero_value_ratio" (5 # 10) 1 = true
    /\ exists b v,
         Binary64.base_score fs 1 = Fin b
         /\ Binary64.mul (Binary64.mul (Fin b) (Binary64.literal (13 # 10)))
                         (Binary64.literal (12 # 10)) = Fin v
         /\ Qabs (v - (156 # 100) * b) <= (156 # 100) * b * pow2 (-50).
Proof.
  assert (E : Binary64.calculate_advanced_risk_score example_boosted
              = Ok [Fin 200; Fin 312; Fin 130]) by (vm_compute; reflexivity).
  destruct (boosts_compose example_boosted _ E) as (fs & Hfs & _ & Hrows).
  exists fs. split; [exact E|]. split; [exact Hfs|].
  assert (F : Ok fs = Binary64.features_scaled example_boosted) by (symmetry; exact Hfs).
  vm_compute in F. injection F as ->.
  assert (He : Binary64.exceeds
                 [("total_transactions", [Fin 1; Fin 0; Fin 0]);
                  ("error_rate", [Fin 0; Fin 1; Fin (1 # 2)]);
                  ("zero_value_ratio", [Fin 0; Fin 1; NaN]);
                  ("value_std", [Fin 1; NaN; Fin 0])] "error_rate" (1 # 10) 1 = true)
    by (vm_compute; reflexivity).
  assert (Hz : Binary64.exceeds
                 [("total_transactions", [Fin 1; Fin 0; Fin 0]);
                  ("error_rate", [Fin 0; Fin 1; Fin (1 # 2)]);
                  ("zero_value_ratio", [Fin 0; Fin 1; NaN]);
                  ("value_std", [Fin 1; NaN; Fin 0])] "zero_value_ratio" (5 # 10) 1 = true)
    by (vm_compute; reflexivity).
  split; [exact He|]. split; [exact Hz|].
  destruct (Hrows 1%nat ltac:(simpl; lia)) as (s & _ & _ & _ & Hboth & _).
  destruct (Hboth He Hz) as [_ Hbound].
  eexists. 
  destruct (Hbound _ ltac:(vm_compute; reflexivity)
              ltac:(apply Qle_bool_iff; vm_compute; reflexivity)
              ltac:(apply Qle_bool_iff; vm_compute; reflexivity)) as (v & Hv & Bv).
  exists v. split; [vm_compute; reflexivity|]. split; [|exact Bv].
  rewrite <- Hv. vm_compute. reflexivity.
Defined.

(** The scaled error rate of the second wallet of [example_threshold] is
    the double next above 0.1, so the first rule fires and the score is
    26.000000000000007; with exact arithmetic the scaled value is 0.1, the
    rule does not fire, and the score is 20. *)
Example threshold_decided_by_rounding :
  Binary64.features_scaled example_threshold
  = Ok [("error_rate", [Fin 0; binary64 (10000000000000002 # 100000000000000000); Fin 1])]
  /\ Binary64.calculate_advanced_risk_score example_threshold
     = Ok [Fin 0; binary64 (26000000000000007 # 1000000000000000); Fin 260]
  /\ exists scores,
       calculate_advanced_risk_score example_threshold = Ok scores
       /\ Forall2 Qeq scores [0; 20; 260].
Proof.
  split; [vm_compute; reflexivity|]. split; [vm_compute; reflexivity|].
  eexists. split; [vm_compute; reflexivity|].
  repeat constructor; reflexivity.
Qed.

(** The order of the rules is part of the result: for the third wallet
    of [example_order], which meets the first two conditions, the rules
    taken in the opposite order give another double. *)
Example boost_order_matters :
  Binary64.features_scaled example_order = Ok example_order_scaled
  /\ Binary64.exceeds example_order_scaled "error_rate" (1 # 10) 2 = true
  /\ Binary64.exceeds example_order_scaled "zero_value_ratio" (5 # 10) 2 = true
  /\ Binary64.adjusted_score example_order_scaled 2
     = binary64 (208 # 1000)
  /\ Binary64.adjusted_score_reversed example_order_scaled 2
     = binary64 (20800000000000002 # 100000000000000000)
  /\ Binary64.adjusted_score example_order_scaled 2
     <> Binary64.adjusted_score_reversed example_order_scaled 2.
Proof.
  repeat split; try (vm_compute; reflexivity).
  vm_compute. discriminate.
Qed.

(** * Feature engine: every wallet gets its row *)

Lemma float_eqb_sym (x y : float) : float_eqb x y = float_eqb y x.
Proof.
  destruct x as [a| | |], y as [b| | |]; try reflexivity.
  cbn. destruct (Qeq_bool a b) eqn:E.
  - apply Qeq_bool_iff in E. symmetry. apply Qeq_bool_iff. now symmetry.
  - destruct (Qeq_bool b a) eqn:E'; [|reflexivity].
    apply Qeq_bool_iff in E'. symmetry in E'. apply Qeq_bool_iff in E'. congruence.
Qed.

Lemma Qeq_bool_sym (a b : Q) : Qeq_bool a b = Qeq_bool b a.
Proof.
  exact (float_eqb_sym (Fin a) (Fin b)).
Qed.

Lemma Qeq_bool_trans (a b c : Q) :
  Qeq_bool a b = true -> Qeq_bool b c = true -> Qeq_bool a c = true.
Proof.
  rewrite !Qeq_bool_iff. intros H1 H2. now rewrite H1.
Qed.

Lemma scalar_eqb_sym (a b : scalar) : scalar_eqb a b = scalar_eqb b a.
Proof.
  destruct a as [s|x|t], b as [s'|y|t']; try reflexivity; cbn.
  - apply String.eqb_sym.
  - apply float_eqb_sym.
  - apply Qeq_bool_sym.
Qed.

Lemma scalar_eqb_trans (a b c : scalar) :
  scalar_eqb a b = true -> scalar_eqb b c = true -> scalar_eqb a c = true.
Proof.
  destruct a as [s|x|t], b as [s'|y|t'], c as [s''|z|t'']; cbn; try discriminate.
  - rewrite !String.eqb_eq. congruence.
  - destruct x, y, z; cbn; try discriminate; try reflexivity. apply Qeq_bool_trans.
  - apply Qeq_bool_trans.
Qed.

(** Equal keys select the same rows. *)
Lemma scalar_eqb_key (v u w : scalar) :
  scalar_eqb u w = true -> scalar_eqb v u = scalar_eqb v w.
Proof.
  intros E. destruct (scalar_eqb v u) eqn:A.
  - symmetry. now apply (scalar_eqb_trans v u w).
  - destruct (scalar_eqb v w) eqn:B; [|reflexivity].
    rewrite scalar_eqb_sym in E.
    rewrite (scalar_eqb_trans v w u B E) in A. discriminate.
Qed.

Lemma rows_where_key (df : DataFrame) (name : string) (u w : scalar) :
  scalar_eqb u w = true -> rows_where df name u = rows_where df name w.
Proof.
  intros E. unfold rows_where. apply filter_ext. intros i.
  destruct (lookup name (columns df)) as [s|]; [|reflexivity].
  destruct (nth i (values s) None) as [v|]; [|reflexivity].
  now apply scalar_eqb_key.
Qed.

Lemma In_rows_where (df : DataFrame) (name : string) (key : scalar) (i : nat) :
  In i (rows_where df name key)
  <-> (i < index df)%nat
      /\ exists s v, lookup name (columns df) = Some s
                     /\ nth i (values s) None = Some v
                     /\ scalar_eqb v key = true.
Proof.
  unfold rows_where. rewrite filter_In, in_seq. split.
  - intros [Hi H]. split; [lia|].
    destruct (lookup name (columns df)) as [s|]; [|discriminate].
    destruct (nth i (values s) None) as [v|] eqn:Hv; [|discriminate]. eauto.
  - intros [Hi (s & v & Hs & Hv & E)]. split; [lia|]. now rewrite Hs, Hv.
Qed.

(** [unique] keeps one value of every class of equal values. *)
Lemma unique_representative (l : list scalar) (v : scalar) :
  In v l -> scalar_eqb v v = true ->
  exists u, In u (unique l) /\ scalar_eqb v u = true.
Proof.
  intros Hin Hv. induction l as [|x l IH]; [destruct Hin|].
  cbn [unique]. destruct Hin as [->|Hin].
  - exists v. split; [now left | exact Hv].
  - destruct (IH Hin) as (u & Hu & E).
    destruct (scalar_eqb u x) eqn:Ux.
    + exists x. split; [now left|]. now apply (scalar_eqb_trans v u x).
    + exists u. split; [|exact E]. right. apply filter_In. split; [exact Hu|].
      now rewrite Ux.
Qed.

Lemma In_dropna (l : list (option scalar)) (v : scalar) : In (Some v) l -> In v (dropna l).
Proof.
  intros H. unfold dropna. apply in_flat_map. exists (Some v). split; [exact H | now left].
Qed.

Lemma mapM_image {A B} (f : A -> result B) (l : list A) (l' : list B) (x : A) :
  mapM f l = Ok l' -> In x l -> exists y, In y l' /\ f x = Ok y.
Proof.
  revert l'. induction l as [|a l IH]; intros l' H Hx; simpl in H; [destruct Hx|].
  bind_inv H as b Hb. bind_inv H as bs Hbs. injection H as <-.
  destruct Hx as [->|Hx].
  - exists b. split; [now left | exact Hb].
  - destruct (IH _ Hbs Hx) as (y & Hy & E). exists y. split; [now right | exact E].
Qed.

Section FeatureEngineCoverage.

Variable sqrt : Q -> Q.

(** The [continue] of line 56 is taken only for a wallet without a row. *)
Lemma wallet_features_skipped (df : DataFrame) (col : string) (key : Series)
  (wallet : scalar) :
  getitem df col = Ok key ->
  wallet_features sqrt df col wallet = Ok None ->
  len (select_rows (eq_mask key wallet) df) = 0%nat.
Proof.
  unfold wallet_features. intros Hkey H. rewrite Hkey in H. cbn [bind] in H.
  bind_inv H as sent_txns Hsent. bind_inv H as received_txns Hrecv.
  destruct (Nat.eqb_spec (len (select_rows (eq_mask key wallet) df)) 0) as [E|_];
    [exact E|].
  bind_inv H as vf Hvf. destruct vf as [[[[[a b] c] d] e] z].
  bind_inv H as gf Hgf. destruct gf as [[g1 g2] g3].
  bind_inv H as tf Htf. destruct tf as [[t1 t2] t3].
  bind_inv H as recipients Hr. bind_inv H as senders Hs.
  bind_inv H as ff Hff. destruct ff as [u1 u2]. discriminate.
Qed.

(** Every wallet that has a row in the table has a row in the result. *)
Lemma every_wallet_has_features (df : DataFrame) (feats : list features) (w : scalar) :
  wallet_features_list sqrt df = Ok feats ->
  rows_where df (wallet_column df) w <> [] ->
  exists f, In f feats /\ scalar_eqb (wallet_id f) w = true.
Proof.
  unfold wallet_features_list. intros H Hrows.
  bind_inv H as key Hkey. bind_inv H as rows Hmap. injection H as <-.
  destruct (rows_where df (wallet_column df) w) as [|i others] eqn:Hw; [contradiction|].
  assert (Hi : In i (rows_where df (wallet_column df) w)) by (rewrite Hw; now left).
  apply In_rows_where in Hi. destruct Hi as [Hlt (s & v & Hs & Hv & E)].
  assert (s = key) as ->.
  { unfold getitem in Hkey. rewrite Hs in Hkey. now injection Hkey. }
  assert (Hin : In (Some v) (values key)).
  { rewrite <- Hv. apply nth_In.
    destruct (Nat.lt_ge_cases i (List.length (values key))) as [L|G]; [exact L|].
    rewrite nth_overflow in Hv by exact G. discriminate. }
  assert (Rv : scalar_eqb v v = true).
  { apply (scalar_eqb_trans v w v E). now rewrite scalar_eqb_sym. }
  destruct (unique_representative _ v (In_dropna _ _ Hin) Rv) as (u & Hu & Evu).
  destruct (mapM_image _ _ _ u Hmap Hu) as (r & Hr & Er).
  assert (Euw : scalar_eqb u w = true).
  { apply (scalar_eqb_trans u v w); [now rewrite scalar_eqb_sym | exact E]. }
  destruct r as [f|].
  - exists f. split.
    + apply in_flat_map. exists (Some f). split; [exact Hr | now left].
    + destruct (wallet_features_inv sqrt _ _ _ _ Er) as (_ & _ & _ & _ & _ & _ & Ew & _).
      now rewrite Ew.
  - exfalso. pose proof (wallet_features_skipped _ _ _ _ Hkey Er) as Z.
    rewrite (len_select_rows df (wallet_column df) key u Hs) in Z.
    rewrite (rows_where_key df _ u w Euw), Hw in Z. discriminate.
Qed.

End FeatureEngineCoverage.



Section FeatureEngineClaims.

Variable sqrt : Q -> Q.

(** What the engine computes for the incoming side of a wallet. *)
Lemma received_side (df : DataFrame) (feats : list features) (f : features) :
  wallet_features_list sqrt df = Ok feats -> In f feats ->
  received_transactions f = List.length (rows_where df "to" (wallet_id f))
  /\ send_receive_ratio f
     = of_nat (sent_transactions f) / of_nat (Nat.max (received_transactions f) 1)
  /\ (rows_where df "to" (wallet_id f) = [] ->
      received_transactions f = 0%nat
      /\ send_receive_ratio f = of_nat (sent_transactions f) / 1).
Proof.
  intros Hl Hin. destruct (wallet_features_list_In sqrt _ _ _ Hl Hin) as (wallet & Hw).
  destruct (wallet_features_inv sqrt _ _ _ _ Hw)
    as (key & sent & recv & _ & Er & _ & Ew & _ & Es & Erc & Eratio & _).
  assert (R : received_transactions f = List.length (rows_where df "to" (wallet_id f))).
  { rewrite Erc, Er, Ew.
    destruct (lookup "to" (columns df)) as [to|] eqn:Eto.
    - now apply len_select_rows.
    - now rewrite rows_where_absent. }
  split; [exact R|]. split.
  - now rewrite Eratio, Es, Erc.
  - intros Hnone. rewrite Hnone in R. split; [exact R|].
    rewrite Eratio, Es. rewrite <- Erc, R. reflexivity.
Qed.

(** C6. The feature engine returns for every cleaned table, and its
    result has a row for every wallet of the identifier column.  In that
    row the count of received transactions is the number of rows of the
    whole table whose [to] is the wallet, the send/receive ratio is the
    count of sent transactions over the larger of that count and 1, and a
    wallet that is in no [to] entry has the count 0 and the ratio
    [sent / 1].  The result has no other rows. *)
Theorem received_transactions_global (df : DataFrame) :
  (cleaned_table df = true ->
   exists out, create_advanced_wallet_features sqrt df = Ok out)
  /\ forall out,
       create_advanced_wallet_features sqrt df = Ok out ->
       exists feats,
         wallet_features_list sqrt df = Ok feats
         /\ out = DataFrame_of_records feats
         /\ (forall w,
               rows_where df (wallet_column df) w <> [] ->
               exists f,
                 In f feats
                 /\ scalar_eqb (wallet_id f) w = true
                 /\ received_transactions f = List.length (rows_where df "to" w)
                 /\ send_receive_ratio f
                    = of_nat (sent_transactions f)
                      / of_nat (Nat.max (received_transactions f) 1)
                 /\ (rows_where df "to" w = [] ->
                     received_transactions f = 0%nat
                     /\ send_receive_ratio f = of_nat (sent_transactions f) / 1))
         /\ (forall f,
               In f feats ->
               rows_where df (wallet_column df) (wallet_id f) <> []
               /\ received_transactions f
                  = List.length (rows_where df "to" (wallet_id f))).
Proof.
  split; [apply create_advanced_wallet_features_total|].
  intros out H. destruct (create_advanced_wallet_features_Ok sqrt _ _ H) as (feats & Hl & ->).
  exists feats. split; [exact Hl|]. split; [reflexivity|]. split.
  - intros w Hw. destruct (every_wallet_has_features sqrt df feats w Hl Hw) as (f & Hin & E).
    exists f. split; [exact Hin|]. split; [exact E|].
    rewrite <- (rows_where_key df "to" _ _ E). exact (received_side df feats f Hl Hin).
  - intros f Hin. split; [|exact (proj1 (received_side df feats f Hl Hin))].
    destruct (wallet_features_list_In sqrt _ _ _ Hl Hin) as (wallet & Hw).
    destruct (wallet_features_inv sqrt _ _ _ _ Hw)
      as (key & sent & recv & Hkey & _ & Hlen & Ew & _).
    unfold getitem in Hkey.
    destruct (lookup (wallet_column df) (columns df)) as [s|] eqn:Hs; [|discriminate].
    injection Hkey as ->.
    rewrite (len_select_rows df _ key wallet Hs) in Hlen. rewrite Ew.
    intros E. rewrite E in Hlen. now apply Hlen.
Qed.



End FeatureEngineClaims.


Lemma received_transactions_global_witness :
  create_advanced_wallet_features sqrt_stand_in example_tagged = Ok example_tagged_features
  /\ exists f,
       wallet_id f = SStr "0xa1"
       /\ total_transactions f = 1%nat
       /\ received_transactions f = 1%nat
       /\ rows_where example_tagged "to" (SStr "0xa1") = [1%nat].
Proof.
  assert (E : create_advanced_wallet_features sqrt_stand_in example_tagged
              = Ok example_tagged_features) by (vm_compute; reflexivity).
  split; [exact E|].
  destruct (proj2 (received_transactions_global sqrt_stand_in example_tagged) _ E)
    as (feats & Hl & _ & Hall & _).
  destruct (Hall (SStr "0xa1") ltac:(vm_compute; discriminate))
    as (f & Hin & Ew & Er & _).
  assert (L : Ok feats = wallet_features_list sqrt_stand_in example_tagged)
    by (symmetry; exact Hl).
  vm_compute in L. injection L as ->.
  exists f. destruct Hin as [<-|[<-|[]]]; [|vm_compute in Ew; discriminate].
  repeat split; reflexivity.
Defined.

